(** * Deep k-nearest-neighbour classifier (class [DKNN] of lib/mnist_model.py)

    A shallow embedding of the [DKNN] class: the constructor ([__init__]),
    [_build_index], [get_activations], [get_neighbors], [classify] and
    [credibility], together with the parts of numpy, torch and faiss that
    these methods call.

    Conventions.
    - Python exceptions are values of [exn]; a computation that may raise
      returns a [result].
    - A method of the class takes the object ([self]) and returns its result
      together with the object after the call, also when it raises.
    - Activations are batches of rows, one row per sample (the flattened
      representation of the sample); floating-point numbers are modelled by
      rationals, the few float operations whose rounding matters are
      parameters.
    - The faiss index is an interface ([FaissIndex]); the model of the network
      is a record of its named children and of its forward pass, which fails
      on an empty batch as the networks of the module do. *)

From Stdlib Require Import ZArith QArith Lia.
From stdpp Require Import base option list gmap strings.

Local Open Scope Z_scope.

(** ** Exceptions and results *)

Inductive exn : Type := Exn (name : string).

Definition AssertionError : exn := Exn "AssertionError".
Definition KeyError : exn := Exn "KeyError".
Definition IndexError : exn := Exn "IndexError".
Definition ValueError : exn := Exn "ValueError".
Definition RuntimeError : exn := Exn "RuntimeError".

Inductive result (A : Type) : Type :=
| Ok (a : A)
| Raise (e : exn).
Arguments Ok {A} a.
Arguments Raise {A} e.

#[export] Instance result_ret : MRet result := λ A a, Ok a.
#[export] Instance result_bind : MBind result := λ A B f m,
  match m with
  | Ok a => f a
  | Raise e => Raise e
  end.

Definition is_ok {A} (r : result A) : bool :=
  match r with Ok _ => true | Raise _ => false end.

(** Monadic map and left fold: a Python [for] loop whose body may raise. *)
Fixpoint mapR {A B} (f : A → result B) (l : list A) : result (list B) :=
  match l with
  | [] => Ok []
  | a :: l => b ← f a; bs ← mapR f l; Ok (b :: bs)
  end.

Fixpoint foldlR {A B} (f : B → A → result B) (b : B) (l : list A) : result B :=
  match l with
  | [] => Ok b
  | a :: l => b' ← f b a; foldlR f b' l
  end.

(** ** numpy *)

Definition sumZ (l : list Z) : Z := foldr Z.add 0 l.

(** [a[i]] for an integer [i]: negative indices count from the end,
    anything outside [-len, len) raises IndexError. *)
Definition np_getitem {A} (a : list A) (i : Z) : result A :=
  let n := Z.of_nat (length a) in
  let j := if i <? 0 then i + n else i in
  if (0 <=? j) && (j <? n) then
    match a !! Z.to_nat j with
    | Some v => Ok v
    | None => Raise IndexError
    end
  else Raise IndexError.

(** [a[I]] for a two-dimensional integer array [I] (fancy indexing). *)
Definition np_take (a : list Z) (I : list (list Z)) : result (list (list Z)) :=
  mapR (mapR (np_getitem a)) I.

(** [np.bincount(l, minlength=m)]: number of occurrences of each value in
    [0, len) where [len = max (m, max l + 1)]; negative entries raise
    ValueError. *)
Definition max_list_Z (l : list Z) : Z := foldr Z.max (-1) l.

Definition count_eq (c : Z) (l : list Z) : Z :=
  Z.of_nat (length (filter (λ v, v = c) l)).

Definition bincount (l : list Z) (minlength : nat) : result (list Z) :=
  if forallb (λ v, 0 <=? v) l then
    let len := Nat.max minlength (Z.to_nat (max_list_Z l + 1)) in
    Ok (map (λ c, count_eq (Z.of_nat c) l) (seq 0 len))
  else Raise ValueError.

(** [row += v] for one-dimensional arrays: the shapes must agree, or [v]
    must have a single element that is broadcast; otherwise ValueError. *)
Definition np_iadd (row v : list Z) : result (list Z) :=
  if decide (length v = length row) then Ok (zip_with Z.add row v)
  else match v with
       | [c] => Ok (map (λ r, r + c) row)
       | _ => Raise ValueError
       end.

(** Two-dimensional arrays carry their number of columns, which numpy
    knows even when there is no row. *)
Record ndarray2 : Type := mk_ndarray2 { nd_cols : nat; nd_rows : list (list Z) }.

Definition np_zeros2 (n m : nat) : ndarray2 :=
  {| nd_cols := m; nd_rows := replicate n (replicate m 0) |}.

(** [n] rows of ten columns: the shape [classify] keeps when
    [num_classes] is 10. *)
Definition ten_columns (n : nat) (cc : list (list Z)) : Prop :=
  length cc = n ∧ Forall (λ row : list Z, length row = 10%nat) cc.

(** [np.max(a, 1)]: a reduction over an axis of length zero raises. *)
Definition np_max_axis1 (a : ndarray2) : result (list Z) :=
  if decide (nd_cols a = 0%nat) then Raise ValueError
  else mapR (λ row, match row with
                    | [] => Raise ValueError
                    | v :: row => Ok (foldl Z.max v row)
                    end) (nd_rows a).

(** [mx] is the maximum entry of [row]. *)
Definition is_max (row : list Z) (mx : Z) : Prop :=
  mx ∈ row ∧ Forall (λ w, w ≤ mx) row.

(** [np.sum(A >= a)] *)
Definition count_ge (A : list Z) (a : Z) : Z :=
  Z.of_nat (length (filter (λ α, a ≤ α) A)).

(** Floating-point results of a division: numpy does not raise on a
    division by zero, it yields nan or an infinity. *)
Inductive npfloat : Type :=
| Finite (q : Q)
| NaN
| Inf (negative : bool).

Definition np_div (c : Z) (n : nat) : npfloat :=
  match n with
  | O => if c =? 0 then NaN else Inf (c <? 0)
  | S _ => Finite (c # Pos.of_nat n)
  end.

(** Comparison of floats: every comparison with nan is false. *)
Definition np_le (a b : npfloat) : Prop :=
  match a, b with
  | Finite p, Finite q => (p <= q)%Q
  | Inf true, (Finite _ | Inf _) => True
  | (Finite _ | Inf _), Inf false => True
  | _, _ => False
  end.

Definition np_eq (a b : npfloat) : Prop :=
  match a, b with
  | Finite p, Finite q => (p == q)%Q
  | Inf s, Inf t => s = t
  | _, _ => False
  end.

Definition in_unit_interval (a : npfloat) : Prop :=
  np_le (Finite 0) a ∧ np_le a (Finite 1).

(** ** torch *)

Definition vec : Type := list Q.
Definition tensor : Type := list vec.

Definition normsq (v : vec) : Q := foldr (λ x acc, x * x + acc)%Q 0%Q v.

(** [t.renorm(2, 0, 1)]: every sub-tensor along dimension 0 (every sample)
    whose 2-norm exceeds [maxnorm = 1] is scaled by [maxnorm / (norm + 1e-7)];
    a sample whose norm is at most 1 is returned unchanged. The square root
    is the float operation, a parameter. *)
Definition renorm_eps : Q := 1 # 10000000.

Definition renorm_row (fsqrt : Q → Q) (v : vec) : vec :=
  let norm := fsqrt (normsq v) in
  if Qlt_le_dec 1 norm then map (Qmult (1 / (norm + renorm_eps))) v else v.

Definition renorm (fsqrt : Q → Q) (t : tensor) : tensor :=
  map (renorm_row fsqrt) t.

(** [t.view(n, -1)] and numpy's [a.reshape(n, -1)] on a batch of [n]
    samples: the rows are the flattened samples; with [n = 0] the dimension
    [-1] cannot be inferred and both libraries raise (torch a RuntimeError,
    numpy a ValueError). In the class both are applied to the activations of
    a forward pass on the same batch, which fails first when [n = 0]. *)
Definition torch_view (n : nat) (t : tensor) : result tensor :=
  if decide (n = 0%nat) then Raise RuntimeError else Ok t.

Definition np_reshape (n : nat) (t : tensor) : result tensor :=
  if decide (n = 0%nat) then Raise ValueError else Ok t.

(** [t.size(-1)] of a two-dimensional tensor. *)
Definition size_last (t : tensor) : nat :=
  match t with
  | [] => 0%nat
  | v :: _ => length v
  end.

(** ** faiss

    The index library is used through three calls: the constructor
    [faiss.IndexLSH(d, nbits)], [index.add(xb)] and [index.search(xq, k)].
    [search] returns the pair [(D, I)] of two arrays of shape [(n, k)];
    where fewer than [k] points are indexed the missing entries of [I] are
    [-1]. It does not modify the index. The number of neighbours is a
    natural number. All samples have the input shape of the network, so
    that the dimension of a query is the dimension of the index; the
    assertion of faiss on the dimension is not modelled. *)
Class FaissIndex : Type := {
  index : Type;
  IndexLSH : nat → nat → index;
  index_add : index → tensor → index;
  ntotal : index → nat;
  index_search : index → tensor → nat → list (list Q) * list (list Z);
  ntotal_IndexLSH d nbits : ntotal (IndexLSH d nbits) = 0%nat;
  ntotal_add idx xb : ntotal (index_add idx xb) = (ntotal idx + length xb)%nat;
  search_rows idx xq k : length (index_search idx xq k).2 = length xq;
  search_cols idx xq k :
    Forall (λ r : list Z, length r = k) (index_search idx xq k).2;
  search_range idx xq k :
    Forall (Forall (λ j : Z, -1 ≤ j < Z.of_nat (ntotal idx)))
           (index_search idx xq k).2
}.

(** ** The network

    [named_children] are the names of the model's direct sub-modules and
    [forward name s] is the output of the child [name] on the sample [s]
    during a forward pass (what a forward hook on that child receives).

    Every network of the module ([BasicModel], [SNNLModel],
    [HiddenMixupModel], the encoder of [ClassAuxVAE]) runs its convolutional
    children, flattens the batch with [x.view(x.size(0), -1)] and then runs
    its fully connected children. On a batch that is not empty a forward
    pass runs every child once. On an empty batch the view raises a
    RuntimeError (the dimension [-1] cannot be inferred from zero elements):
    the pass fails after the children of [before_view], the names of the
    children that run before the view, and before the others. *)
Record Model (X : Type) : Type := mk_Model {
  named_children : list string;
  forward : string → X → vec;
  before_view : list string
}.
Arguments mk_Model {X} _ _ _.
Arguments named_children {X} _.
Arguments forward {X} _ _ _.
Arguments before_view {X} _.

(** ** The class DKNN *)

Section DKNN.
Context {X : Type} `{FI : FaissIndex}.
Variable fsqrt : Q → Q.

(** The fields of the object. [hooks] are the names of the children on which
    the constructor registered a forward hook; [A] is set last by the
    constructor. The field [device] plays no role here. *)
Record DKNN : Type := mk_DKNN {
  model : Model X;
  x_train : list X;
  y_train : list Z;
  layers : list string;
  k : nat;
  num_classes : nat;
  indices : list index;
  activations : gmap string tensor;
  hooks : list string;
  A : list Z
}.

Definition set_activations (self : DKNN) (a : gmap string tensor) : DKNN :=
  mk_DKNN (model self) (x_train self) (y_train self) (layers self) (k self)
          (num_classes self) (indices self) a (hooks self) (A self).

Definition set_indices (self : DKNN) (i : list index) : DKNN :=
  mk_DKNN (model self) (x_train self) (y_train self) (layers self) (k self)
          (num_classes self) i (activations self) (hooks self) (A self).

Definition set_A (self : DKNN) (a : list Z) : DKNN :=
  mk_DKNN (model self) (x_train self) (y_train self) (layers self) (k self)
          (num_classes self) (indices self) (activations self) (hooks self) a.

(** A method: the result, and the object after the call. *)
Definition method (R : Type) : Type := DKNN → result R * DKNN.

(** [reps[layer]] on the dictionary of activations. *)
Definition dict_get (reps : gmap string tensor) (layer : string) : result tensor :=
  match reps !! layer with
  | Some t => Ok t
  | None => Raise KeyError
  end.

(** The hook of [_get_activation(name)], fired by a forward pass on [x]:
    [self.activations[name] = output]. *)
Definition fire_hooks (m : Model X) (hooked : list string) (x : list X)
    (acts : gmap string tensor) : gmap string tensor :=
  foldl (λ a name, <[name := map (forward m name) x]> a) acts hooked.

(** The hooks that fire during [self.model(x)]: all of them when the pass
    completes, those of the children before the view when it fails. *)
Definition hooks_fired (self : DKNN) (x : list X) : list string :=
  match x with
  | [] => filter (λ name, name ∈ before_view (model self)) (hooks self)
  | _ :: _ => hooks self
  end.

(** [get_activations]: one forward pass, [_ = self.model(x)], which raises
    on an empty batch; then returns the dictionary held by the object (the
    same dictionary, not a copy). *)
Definition get_activations (x : list X) : method (gmap string tensor) := λ self,
  let acts := fire_hooks (model self) (hooks_fired self x) x (activations self) in
  (match x with
   | [] => Raise RuntimeError
   | _ :: _ => Ok acts
   end,
   set_activations self acts).

(** [_build_index] *)
Definition _build_index (xb : tensor) : index :=
  let d := size_last xb in
  index_add (IndexLSH d 256) xb.

(** The loop of [get_neighbors] over [zip(self.layers, self.indices)]. *)
Fixpoint neighbors_loop (reps : gmap string tensor) (n k : nat)
    (requested : list string) (zs : list (string * index))
    : result (list (list (list Q) * list (list Z))) :=
  match zs with
  | [] => Ok []
  | (layer, idx) :: zs =>
      if decide (layer ∈ requested) then
        rep ← dict_get reps layer;
        rep ← np_reshape n (renorm fsqrt rep);
        out ← neighbors_loop reps n k requested zs;
        Ok (index_search idx rep k :: out)
      else neighbors_loop reps n k requested zs
  end.

Definition get_neighbors (x : list X) (k_arg : option nat)
    (layers_arg : option (list string))
    : method (list (list (list Q) * list (list Z))) := λ self,
  let k := default (k self) k_arg in
  let requested := default (layers self) layers_arg in
  let '(reps, self) := get_activations x self in
  (reps ← reps;
   neighbors_loop reps (length x) k requested
     (zip (layers self) (indices self)),
   self).

(** The body of the inner loop of [classify]:
    [class_counts[i] += np.bincount(y_pred[i], minlength=10)]. *)
Definition classify_row (y_pred : list (list Z)) (class_counts : list (list Z))
    (i : nat) : result (list (list Z)) :=
  match y_pred !! i, class_counts !! i with
  | Some labels, Some row =>
      bc ← bincount labels 10;
      row' ← np_iadd row bc;
      Ok (<[i := row']> class_counts)
  | _, _ => Raise IndexError
  end.

(** The body of the outer loop of [classify], over the entries of [nb]. *)
Definition classify_layer (y_train : list Z) (n : nat)
    (class_counts : list (list Z)) (DI : list (list Q) * list (list Z))
    : result (list (list Z)) :=
  y_pred ← np_take y_train DI.2;
  foldlR (classify_row y_pred) class_counts (seq 0 n).

Definition classify (x : list X) : method ndarray2 := λ self,
  let '(nb, self') := get_neighbors x None None self in
  (nb ← nb;
   rows ← foldlR (classify_layer (y_train self) (length x))
                 (nd_rows (np_zeros2 (length x) (num_classes self))) nb;
   Ok {| nd_cols := num_classes self; nd_rows := rows |},
   self').

Definition credibility (class_counts : ndarray2) : method (list npfloat) := λ self,
  (m ← np_max_axis1 class_counts;
   let alpha := map (λ v, Z.of_nat (k self) * Z.of_nat (length (layers self)) - v) m in
   let cred := map (count_ge (A self)) alpha in
   Ok (map (λ c, np_div c (length (A self))) cred),
   self).

(** A client of a constructed classifier: a sequence of method calls, each
    on the object the previous call left. *)
Inductive call : Type :=
| call_get_neighbors (x : list X) (k_arg : option nat)
    (layers_arg : option (list string))
| call_classify (x : list X)
| call_credibility (class_counts : ndarray2).

Definition run_call (c : call) (self : DKNN) : DKNN :=
  match c with
  | call_get_neighbors x k_arg layers_arg =>
      (get_neighbors x k_arg layers_arg self).2
  | call_classify x => (classify x self).2
  | call_credibility class_counts => (credibility class_counts self).2
  end.

Definition run_calls (cs : list call) (self : DKNN) : DKNN :=
  foldl (λ self c, run_call c self) self cs.

(** The fields that are frozen once the constructor has returned. *)
Definition same_frozen_fields (self self' : DKNN) : Prop :=
  indices self' = indices self
  ∧ y_train self' = y_train self
  ∧ A self' = A self.

(** The constructor. *)

(** The children on which a forward hook is registered: those whose name is
    in [layers]. *)
Definition hooked_children (m : Model X) (ls : list string) : list string :=
  filter (λ name, name ∈ ls) (named_children m).

(** [for layer in layers: ... self.indices.append(index)] *)
Fixpoint build_loop (reps : gmap string tensor) (n : nat) (ls : list string)
    : result (list index) :=
  match ls with
  | [] => Ok []
  | layer :: ls =>
      rep ← dict_get reps layer;
      rep ← torch_view n rep;
      idxs ← build_loop reps n ls;
      Ok (_build_index (renorm fsqrt rep) :: idxs)
  end.

(** [for i, (y_c, y_p) in enumerate(zip(y_cal, y_pred)): self.A[i] -= y_p[y_c]] *)
Fixpoint calibration_loop (i : nat) (ps : list (Z * list Z)) (A : list Z)
    : result (list Z) :=
  match ps with
  | [] => Ok A
  | (y_c, y_p) :: ps =>
      v ← np_getitem y_p y_c;
      calibration_loop (S i) ps (alter (λ a, a - v) i A)
  end.

Definition DKNN_init (model : Model X) (x_train : list X) (y_train : list Z)
    (x_cal : list X) (y_cal : list Z) (layers : list string) (k num_classes : nat)
    : result DKNN :=
  let hooked := hooked_children model layers in
  if decide (length hooked = length layers) then
    let self := mk_DKNN model x_train y_train layers k num_classes [] ∅ hooked [] in
    let '(reps, self) := get_activations x_train self in
    reps ← reps;
    idxs ← build_loop reps (length x_train) layers;
    let self := set_indices self idxs in
    let '(y_pred, self) := classify x_cal self in
    y_pred ← y_pred;
    let A0 := replicate (length x_cal) (Z.of_nat k * Z.of_nat (length layers)) in
    A ← calibration_loop 0 (zip y_cal (nd_rows y_pred)) A0;
    Ok (set_A self A)
  else Raise AssertionError.

End DKNN.

(** ** An exhaustive index

    The source lists exhaustive inner-product search ([faiss.IndexFlatIP]) as
    the brute-force alternative to the hash index. It is the instance of
    [FaissIndex] on which the concrete examples below are evaluated: the
    index is the list of the added vectors, [search] ranks all of them by
    decreasing inner product (stable for ties) and pads with [-1]. *)
Module FlatIP.

Definition dot (u v : vec) : Q :=
  foldr (λ p acc, p.1 * p.2 + acc)%Q 0%Q (zip u v).

Fixpoint insert_desc (p : Q * Z) (l : list (Q * Z)) : list (Q * Z) :=
  match l with
  | [] => [p]
  | q :: l' => if Qle_bool p.1 q.1 then q :: insert_desc p l' else p :: l
  end.

Definition sort_desc (l : list (Q * Z)) : list (Q * Z) :=
  foldr insert_desc [] l.

Definition scores (xb : tensor) (q : vec) : list (Q * Z) :=
  imap (λ i v, (dot q v, Z.of_nat i)) xb.

Definition pad_distance : Q := (-1 # 1)%Q.

Definition search_one (xb : tensor) (k : nat) (q : vec) : list (Q * Z) :=
  let ranked := take k (sort_desc (scores xb q)) in
  ranked ++ replicate (k - length ranked) (pad_distance, -1).

Definition search (xb : tensor) (xq : tensor) (k : nat)
    : list (list Q) * list (list Z) :=
  let found := map (search_one xb k) xq in
  (map (map fst) found, map (map snd) found).

Lemma insert_desc_length p l : length (insert_desc p l) = S (length l).
Proof.
  induction l as [|q l IH]; simpl; [done|].
  destruct (Qle_bool p.1 q.1); simpl; by rewrite ?IH.
Qed.

Lemma sort_desc_length l : length (sort_desc l) = length l.
Proof.
  induction l as [|p l IH]; simpl; [done|].
  by rewrite insert_desc_length, IH.
Qed.

Lemma insert_desc_Forall (P : Q * Z → Prop) p l :
  P p → Forall P l → Forall P (insert_desc p l).
Proof.
  intros Hp Hl. induction Hl as [|q l Hq Hl IH]; simpl.
  - by constructor.
  - destruct (Qle_bool p.1 q.1); repeat constructor; done.
Qed.

Lemma sort_desc_Forall (P : Q * Z → Prop) l :
  Forall P l → Forall P (sort_desc l).
Proof.
  induction 1; simpl; [constructor|]. by apply insert_desc_Forall.
Qed.

Lemma scores_range xb q :
  Forall (λ p : Q * Z, -1 ≤ p.2 < Z.of_nat (length xb)) (scores xb q).
Proof.
  apply Forall_forall. intros p Hp. unfold scores in Hp.
  apply list_elem_of_lookup in Hp as [i Hi].
  rewrite list_lookup_imap in Hi.
  destruct (xb !! i) as [v|] eqn:Hv; simplify_eq/=.
  apply lookup_lt_Some in Hv. lia.
Qed.

Lemma search_one_length xb k q : length (search_one xb k q) = k.
Proof.
  unfold search_one. rewrite length_app, length_replicate, length_take. lia.
Qed.

Lemma search_one_range xb k q :
  Forall (λ p : Q * Z, -1 ≤ p.2 < Z.of_nat (length xb)) (search_one xb k q).
Proof.
  unfold search_one. apply Forall_app. split.
  - apply Forall_take, sort_desc_Forall, scores_range.
  - apply Forall_replicate. simpl. lia.
Qed.

Lemma flat_search_rows xb xq k : length (search xb xq k).2 = length xq.
Proof. unfold search. simpl. by rewrite !length_map. Qed.

Lemma flat_search_cols xb xq k :
  Forall (λ r : list Z, length r = k) (search xb xq k).2.
Proof.
  unfold search. simpl. apply Forall_map, Forall_map.
  apply Forall_forall. intros q _. simpl.
  by rewrite length_map, search_one_length.
Qed.

Lemma flat_search_range xb xq k :
  Forall (Forall (λ j : Z, -1 ≤ j < Z.of_nat (length xb))) (search xb xq k).2.
Proof.
  unfold search. simpl. apply Forall_map, Forall_map.
  apply Forall_forall. intros q _. simpl. apply Forall_map.
  apply search_one_range.
Qed.

#[export] Instance flat_index : FaissIndex := {|
  index := tensor;
  IndexLSH := λ _ _, [];
  index_add := λ idx xb, idx ++ xb;
  ntotal := length;
  index_search := search;
  ntotal_IndexLSH := λ _ _, eq_refl;
  ntotal_add := λ idx xb, length_app idx xb;
  search_rows := flat_search_rows;
  search_cols := flat_search_cols;
  search_range := flat_search_range
|}.

End FlatIP.

(** * Properties *)

(** ** Results *)

Lemma bind_Ok {A B} (m : result A) (f : A → result B) b :
  m ≫= f = Ok b → ∃ a, m = Ok a ∧ f a = Ok b.
Proof. destruct m as [a|e]; simpl; [eauto|discriminate]. Qed.

Lemma bind_Raise {A B} (m : result A) (f : A → result B) e :
  m ≫= f = Raise e → m = Raise e ∨ ∃ a, m = Ok a ∧ f a = Raise e.
Proof. destruct m as [a|e']; simpl; [eauto|]. intros [= ->]. by left. Qed.

Lemma bind_Ok_l {A B} (a : A) (f : A → result B) : Ok a ≫= f = f a.
Proof. reflexivity. Qed.

Lemma bind_Raise_l {A B} e (f : A → result B) : Raise e ≫= f = Raise e.
Proof. reflexivity. Qed.

Ltac inv_bind H :=
  let a := fresh "a" in
  let Ha := fresh "H" a in
  apply bind_Ok in H as (a & Ha & H).

Lemma mapR_length {A B} (f : A → result B) l bs :
  mapR f l = Ok bs → length bs = length l.
Proof.
  revert bs. induction l as [|a l IH]; intros bs H; simpl in H.
  - by inversion H.
  - inv_bind H. inv_bind H. inversion H; subst. simpl. f_equal. eauto.
Qed.

Lemma mapR_lookup {A B} (f : A → result B) l bs i b :
  mapR f l = Ok bs → bs !! i = Some b → ∃ a, l !! i = Some a ∧ f a = Ok b.
Proof.
  revert bs i. induction l as [|a l IH]; intros bs i H Hi; simpl in H.
  - inversion H; subst. done.
  - inv_bind H. inv_bind H. inversion H; subst.
    destruct i as [|i]; simpl in *; [naive_solver|eauto].
Qed.

Lemma mapR_total {A B} (f : A → result B) l :
  Forall (λ a, ∃ b, f a = Ok b) l → ∃ bs, mapR f l = Ok bs.
Proof.
  induction 1 as [|a l [b Hb] _ [bs Hbs]]; simpl; [eauto|].
  rewrite Hb. simpl. rewrite Hbs. simpl. eauto.
Qed.

Lemma mapR_map {A B} (f : A → B) l : mapR (λ a, Ok (f a)) l = Ok (map f l).
Proof. induction l as [|a l IH]; simpl; [done|]. by rewrite IH. Qed.

Lemma foldlR_app {A B} (f : B → A → result B) b l1 l2 :
  foldlR f b (l1 ++ l2) = foldlR f b l1 ≫= λ b', foldlR f b' l2.
Proof.
  revert b. induction l1 as [|a l1 IH]; intros b; simpl; [done|].
  destruct (f b a); simpl; [apply IH|done].
Qed.

(** A loop invariant for [foldlR]. *)
Lemma foldlR_invariant {A B} (P : nat → B → Prop) (f : B → A → result B) l :
  (∀ i a b b', l !! i = Some a → P i b → f b a = Ok b' → P (S i) b') →
  ∀ b b', P 0%nat b → foldlR f b l = Ok b' → P (length l) b'.
Proof.
  induction l as [|a l IH] using rev_ind; intros Hstep b b' H0 Hf.
  - simpl in Hf. by inversion Hf; subst.
  - rewrite foldlR_app in Hf. inv_bind Hf. simpl in Hf. inv_bind Hf.
    inversion Hf; subst. rewrite length_app. simpl.
    replace (length l + 1)%nat with (S (length l)) by lia.
    eapply (Hstep (length l) a a0).
    + rewrite lookup_app_r by lia. by rewrite Nat.sub_diag.
    + eapply IH; [|done..]. intros i c d d' Hi. apply Hstep.
      by rewrite lookup_app_l by (by eapply lookup_lt_Some).
    + done.
Qed.

(** Totality of a loop whose body preserves an invariant. *)
Lemma foldlR_total {A B} (P : B → Prop) (f : B → A → result B) l :
  (∀ a b, a ∈ l → P b → ∃ b', f b a = Ok b' ∧ P b') →
  ∀ b, P b → ∃ b', foldlR f b l = Ok b' ∧ P b'.
Proof.
  induction l as [|a l IH]; intros Hstep b Hb; simpl; [eauto|].
  destruct (Hstep a b) as (b' & -> & Hb'); [by left|done|].
  simpl. apply IH; [|done]. intros a' c Ha'. apply Hstep. by right.
Qed.

(** ** numpy *)

Lemma sumZ_app l1 l2 : sumZ (l1 ++ l2) = sumZ l1 + sumZ l2.
Proof. induction l1 as [|a l1 IH]; simpl; lia. Qed.

Lemma sumZ_replicate_0 n : sumZ (replicate n 0) = 0.
Proof. induction n; simpl; lia. Qed.

Lemma sumZ_zip_with_add l1 l2 :
  length l1 = length l2 → sumZ (zip_with Z.add l1 l2) = sumZ l1 + sumZ l2.
Proof.
  revert l2. induction l1 as [|a l1 IH]; intros [|b l2] Hlen; simpl in *;
    try done.
  rewrite IH by lia. lia.
Qed.

Lemma np_getitem_nonneg {A} (a : list A) i v :
  np_getitem a i = Ok v → 0 ≤ i → a !! Z.to_nat i = Some v.
Proof.
  unfold np_getitem. intros H Hi.
  destruct (i <? 0) eqn:Hneg; [lia|].
  destruct (_ && _); [|discriminate].
  destruct (a !! Z.to_nat i); by inversion H.
Qed.

Lemma np_getitem_elem_of {A} (a : list A) i v : np_getitem a i = Ok v → v ∈ a.
Proof.
  unfold np_getitem. destruct (_ && _); [|discriminate].
  destruct (a !! _) eqn:E; [|discriminate].
  intros [= <-]. by eapply list_elem_of_lookup_2.
Qed.

Lemma np_getitem_total {A} (a : list A) i :
  - Z.of_nat (length a) ≤ i < Z.of_nat (length a) → ∃ v, np_getitem a i = Ok v.
Proof.
  intros Hi. unfold np_getitem.
  set (j := if i <? 0 then i + Z.of_nat (length a) else i).
  assert (0 ≤ j < Z.of_nat (length a)) as Hj.
  { unfold j. destruct (i <? 0) eqn:E; lia. }
  replace ((0 <=? j) && (j <? Z.of_nat (length a))) with true by lia.
  destruct (lookup_lt_is_Some_2 a (Z.to_nat j)) as [v Hv]; [lia|].
  rewrite Hv. eauto.
Qed.

(** *** bincount *)

Lemma count_eq_cons c v l :
  count_eq c (v :: l) = (if decide (v = c) then 1 else 0) + count_eq c l.
Proof.
  unfold count_eq. rewrite filter_cons. destruct (decide (v = c)); simpl; lia.
Qed.

Lemma sumZ_indicator v a len :
  sumZ (map (λ c : nat, if decide (v = Z.of_nat c) then 1 else 0) (seq a len))
  = if decide (Z.of_nat a ≤ v < Z.of_nat (a + len)) then 1 else 0.
Proof.
  revert a. induction len as [|len IH]; intros a; simpl.
  - destruct (decide _); [lia|done].
  - rewrite IH. repeat destruct (decide _); lia.
Qed.

Lemma sumZ_map_add {A} (f g : A → Z) l :
  sumZ (map (λ c, f c + g c) l) = sumZ (map f l) + sumZ (map g l).
Proof. induction l as [|a l IH]; simpl; lia. Qed.

Lemma sumZ_counts l len :
  Forall (λ v, 0 ≤ v < Z.of_nat len) l →
  sumZ (map (λ c : nat, count_eq (Z.of_nat c) l) (seq 0 len)) = Z.of_nat (length l).
Proof.
  induction 1 as [|v l Hv Hl IH].
  - unfold count_eq. simpl. induction (seq 0 len); simpl; lia.
  - erewrite map_ext; [|intros c; apply count_eq_cons].
    rewrite (sumZ_map_add (λ c : nat, if decide (v = Z.of_nat c) then 1 else 0)).
    rewrite IH, sumZ_indicator. simpl length.
    destruct (decide _); lia.
Qed.

Lemma max_list_Z_ge l v : v ∈ l → v ≤ max_list_Z l.
Proof.
  induction 1 as [v l|v w l _ IH]; simpl; lia.
Qed.

Lemma max_list_Z_lower l : -1 ≤ max_list_Z l.
Proof. induction l; simpl; lia. Qed.

Lemma max_list_Z_bound l b : -1 ≤ b → Forall (λ v, v ≤ b) l → max_list_Z l ≤ b.
Proof. intros Hb. induction 1; simpl; lia. Qed.

Lemma bincount_length l m h :
  bincount l m = Ok h → length h = Nat.max m (Z.to_nat (max_list_Z l + 1)).
Proof.
  unfold bincount. destruct (forallb _ l); [|discriminate].
  intros [= <-]. by rewrite length_map, length_seq.
Qed.

Lemma bincount_sum l m h : bincount l m = Ok h → sumZ h = Z.of_nat (length l).
Proof.
  unfold bincount. destruct (forallb _ l) eqn:Hpos; [|discriminate].
  intros [= <-]. apply sumZ_counts.
  apply Forall_forall. intros v Hv.
  assert (0 ≤ v).
  { rewrite forallb_forall in Hpos. apply Z.leb_le, Hpos.
    by apply list_elem_of_In. }
  apply max_list_Z_ge in Hv. lia.
Qed.

Lemma bincount_total l m :
  Forall (λ v, 0 ≤ v) l → ∃ h, bincount l m = Ok h.
Proof.
  intros Hl. unfold bincount.
  replace (forallb _ l) with true; [eauto|].
  symmetry. apply forallb_forall. intros v Hv.
  apply list_elem_of_In in Hv. rewrite Forall_forall in Hl.
  apply Z.leb_le. auto.
Qed.

Lemma np_iadd_Ok_sum row v row' :
  (2 ≤ length v)%nat → np_iadd row v = Ok row' →
  length row' = length row ∧ sumZ row' = sumZ row + sumZ v.
Proof.
  unfold np_iadd. intros Hv. destruct (decide _) as [Hlen|Hlen].
  - intros [= <-]. split.
    + rewrite length_zip_with. lia.
    + by apply sumZ_zip_with_add.
  - destruct v as [|c [|d v]]; simpl in Hv; [lia|lia|discriminate].
Qed.

Lemma np_iadd_mismatch row v :
  (2 ≤ length v)%nat → length v ≠ length row → np_iadd row v = Raise ValueError.
Proof.
  unfold np_iadd. intros Hv Hne. destruct (decide _); [done|].
  destruct v as [|c [|d v]]; simpl in Hv; [lia|lia|done].
Qed.

(** ** torch *)

(** [renorm] bounds the norm, it does not normalise: a row whose norm is at
    most 1 is returned as it is. *)
Lemma renorm_row_short (fsqrt : Q → Q) (v : vec) :
  (fsqrt (normsq v) <= 1)%Q → renorm_row fsqrt v = v.
Proof.
  intros Hle. unfold renorm_row.
  destruct (Qlt_le_dec 1 (fsqrt (normsq v))) as [Hlt|_]; [|done].
  exfalso. by apply (Qlt_not_le _ _ Hlt).
Qed.

(** ** The methods of DKNN *)

Section DKNN_facts.
Context {X : Type} `{FI : FaissIndex}.
Variable fsqrt : Q → Q.

Local Abbreviation DKNN := (@DKNN X FI).

(** *** Forward hooks *)

Lemma fire_hooks_lookup (m : Model X) hooked x (acts : gmap string tensor) l :
  fire_hooks m hooked x acts !! l
  = if decide (l ∈ hooked) then Some (map (forward m l) x) else acts !! l.
Proof.
  unfold fire_hooks. revert acts.
  induction hooked as [|h hooked IH]; intros acts; cbn [foldl].
  - rewrite decide_False; [done|apply not_elem_of_nil].
  - rewrite IH. destruct (decide (l ∈ hooked)) as [Hin|Hnin].
    + rewrite decide_True by (by right). done.
    + destruct (decide (h = l)) as [->|Hne].
      * rewrite decide_True by (by left). by rewrite lookup_insert_eq.
      * rewrite decide_False.
        -- by rewrite lookup_insert_ne.
        -- intros Hin. apply elem_of_cons in Hin as [?|?]; congruence.
Qed.

Lemma fire_hooks_hooked (m : Model X) hooked x acts l :
  l ∈ hooked → fire_hooks m hooked x acts !! l = Some (map (forward m l) x).
Proof. intros. rewrite fire_hooks_lookup. by rewrite decide_True. Qed.

(** *** get_neighbors *)

(** On an empty batch the forward pass fails, on any other batch the loop
    over the layers runs on the activations the hooks have stored. *)
Lemma get_neighbors_empty k_arg layers_arg (self : DKNN) :
  (get_neighbors fsqrt [] k_arg layers_arg self).1 = Raise RuntimeError.
Proof. reflexivity. Qed.

Lemma get_neighbors_nonempty x k_arg layers_arg (self : DKNN) :
  x ≠ [] →
  (get_neighbors fsqrt x k_arg layers_arg self).1
  = neighbors_loop fsqrt
      (fire_hooks (model self) (hooks self) x (activations self)) (length x)
      (default (k self) k_arg) (default (layers self) layers_arg)
      (zip (layers self) (indices self)).
Proof. by destruct x. Qed.

Lemma get_neighbors_Ok x k_arg layers_arg (self : DKNN) nb :
  (get_neighbors fsqrt x k_arg layers_arg self).1 = Ok nb →
  x ≠ []
  ∧ neighbors_loop fsqrt
      (fire_hooks (model self) (hooks self) x (activations self)) (length x)
      (default (k self) k_arg) (default (layers self) layers_arg)
      (zip (layers self) (indices self)) = Ok nb.
Proof. destruct x; [discriminate|]. intros H. split; [done|exact H]. Qed.

Lemma neighbors_loop_Ok reps n k requested (zs : list (string * index)) out :
  neighbors_loop fsqrt reps n k requested zs = Ok out →
  length out = length (filter (λ z, z.1 ∈ requested) zs)
  ∧ Forall (λ DI, Forall (λ r : list Z, length r = k) DI.2) out
  ∧ (out ≠ [] → n ≠ 0%nat).
Proof.
  revert out. induction zs as [|[layer idx] zs IH]; intros out H; simpl in H.
  - inversion H; subst. by repeat split.
  - rewrite filter_cons. simpl. destruct (decide (layer ∈ requested)).
    + inv_bind H. inv_bind H. inv_bind H. inversion H; subst.
      destruct (IH _ Ha1) as (Hlen & Hall & _). repeat split.
      * simpl. by rewrite Hlen.
      * constructor; [apply search_cols|done].
      * intros _. unfold np_reshape in Ha0. by destruct (decide (n = 0%nat)).
    + by apply IH.
Qed.

Lemma neighbors_loop_Raise reps n k requested (zs : list (string * index)) e :
  neighbors_loop fsqrt reps n k requested zs = Raise e →
  e = KeyError ∨ e = ValueError.
Proof.
  induction zs as [|[layer idx] zs IH]; simpl; [done|].
  destruct (decide (layer ∈ requested)); [|done].
  unfold dict_get. destruct (reps !! layer); simpl; [|intros [= <-]; by left].
  unfold np_reshape. destruct (decide (n = 0%nat)); simpl;
    [intros [= <-]; by right|].
  intros H. apply bind_Raise in H as [H|(out & _ & H)]; [auto|done].
Qed.

Lemma neighbors_loop_total reps n k requested (zs : list (string * index)) :
  n ≠ 0%nat → Forall (λ z, is_Some (reps !! z.1)) zs →
  ∃ out, neighbors_loop fsqrt reps n k requested zs = Ok out.
Proof.
  intros Hn. induction 1 as [|[layer idx] zs [t Ht] _ [out Hout]]; simpl;
    [eauto|].
  destruct (decide (layer ∈ requested)); [|eauto].
  unfold dict_get. simpl in Ht. rewrite Ht. simpl.
  unfold np_reshape. rewrite decide_False by done. simpl.
  rewrite Hout. simpl. eauto.
Qed.

(** The result depends on the dictionary only through the entries of the
    configured layers, and on the requested names only through their
    membership test on the configured layers. *)
Lemma neighbors_loop_ext reps1 reps2 n k req1 req2 (zs : list (string * index)) :
  Forall (λ z, reps1 !! z.1 = reps2 !! z.1 ∧ (z.1 ∈ req1 ↔ z.1 ∈ req2)) zs →
  neighbors_loop fsqrt reps1 n k req1 zs = neighbors_loop fsqrt reps2 n k req2 zs.
Proof.
  induction 1 as [|[layer idx] zs [Hreps Hreq] _ IH]; simpl; [done|].
  simpl in Hreps, Hreq.
  destruct (decide (layer ∈ req1)), (decide (layer ∈ req2)); try tauto.
  unfold dict_get. by rewrite Hreps, IH.
Qed.

Lemma zip_fst_elem_of {A B} (l1 : list A) (l2 : list B) z :
  z ∈ zip l1 l2 → z.1 ∈ l1.
Proof.
  revert l2. induction l1 as [|a l1 IH]; intros [|b l2] Hz; simpl in Hz;
    try by apply not_elem_of_nil in Hz.
  apply elem_of_cons in Hz as [->|Hz]; [by left|right; eauto].
Qed.

(** *** classify *)

Lemma classify_unfold x (self : DKNN) :
  classify fsqrt x self
  = ((get_neighbors fsqrt x None None self).1 ≫= λ nb,
       foldlR (classify_layer (y_train self) (length x))
              (nd_rows (np_zeros2 (length x) (num_classes self))) nb ≫= λ rows,
       Ok {| nd_cols := num_classes self; nd_rows := rows |},
     (get_neighbors fsqrt x None None self).2).
Proof. reflexivity. Qed.

(** One pass of the inner loop adds the histogram of [k] labels to every row:
    every row sum grows by [k]. *)
Lemma classify_row_sums y_pred k c n cc cc' :
  Forall (λ r : list Z, length r = k) y_pred →
  length cc = n →
  Forall (λ row, sumZ row = c) cc →
  foldlR (classify_row y_pred) cc (seq 0 n) = Ok cc' →
  length cc' = n ∧ Forall (λ row, sumZ row = c + Z.of_nat k) cc'.
Proof.
  intros Hk Hlen Hsum Hloop.
  pose (P := λ (j : nat) (d : list (list Z)),
    length d = n ∧ ∀ i row, d !! i = Some row →
      sumZ row = if decide (i < j)%nat then c + Z.of_nat k else c).
  assert (P (length (seq 0 n)) cc') as [Hl Hrows].
  { eapply (foldlR_invariant P); [|split; [done|]|exact Hloop].
    - intros j a d d' Hj [Hdl Hd] Hstep.
      apply lookup_seq in Hj as [-> Hjn]. simpl in *.
      unfold classify_row in Hstep.
      destruct (y_pred !! j) as [labels|] eqn:Hlab; [|discriminate].
      destruct (d !! j) as [row|] eqn:Hrow; [|discriminate].
      inv_bind Hstep. inv_bind Hstep. inversion Hstep; subst d'.
      split; [by rewrite length_insert|].
      intros i r Hi. destruct (decide (i = j)) as [->|Hne].
      + rewrite list_lookup_insert_eq in Hi by (by eapply lookup_lt_Some).
        inversion Hi; subst r. rewrite decide_True by lia.
        pose proof (bincount_length _ _ _ Ha) as Hbl.
        apply np_iadd_Ok_sum in Ha0 as [_ ->]; [|lia].
        rewrite (bincount_sum _ _ _ Ha).
        rewrite (Hd _ _ Hrow), decide_False by lia.
        rewrite Forall_forall in Hk.
        rewrite (Hk labels); [done|]. by eapply list_elem_of_lookup_2.
      + rewrite list_lookup_insert_ne in Hi by done.
        rewrite (Hd _ _ Hi). repeat destruct (decide _); lia.
    - intros i row Hi. rewrite decide_False by lia.
      rewrite Forall_forall in Hsum. apply Hsum.
      by eapply list_elem_of_lookup_2. }
  rewrite length_seq in Hrows. split; [done|].
  apply Forall_forall. intros row Hrow.
  apply list_elem_of_lookup in Hrow as [i Hi].
  rewrite (Hrows _ _ Hi), decide_True; [done|].
  apply lookup_lt_Some in Hi. lia.
Qed.

Lemma np_take_cols a I Y k :
  np_take a I = Ok Y → Forall (λ r : list Z, length r = k) I →
  Forall (λ r : list Z, length r = k) Y.
Proof.
  intros HY HI. apply Forall_forall. intros r Hr.
  apply list_elem_of_lookup in Hr as [i Hi].
  destruct (mapR_lookup _ _ _ _ _ HY Hi) as (r0 & Hr0 & Hm).
  rewrite (mapR_length _ _ _ Hm).
  rewrite Forall_forall in HI. apply HI. by eapply list_elem_of_lookup_2.
Qed.

Lemma classify_layers_sums y_train k n nb : ∀ c cc cc',
  Forall (λ DI : list (list Q) * list (list Z),
            Forall (λ r : list Z, length r = k) DI.2) nb →
  length cc = n →
  Forall (λ row, sumZ row = c) cc →
  foldlR (classify_layer y_train n) cc nb = Ok cc' →
  length cc' = n
  ∧ Forall (λ row, sumZ row = c + Z.of_nat k * Z.of_nat (length nb)) cc'.
Proof.
  induction nb as [|DI nb IH]; intros c cc cc' Hnb Hlen Hsum Hloop;
    simpl in Hloop.
  - inversion Hloop; subst. split; [done|].
    eapply Forall_impl; [exact Hsum|]. simpl. intros; lia.
  - apply Forall_cons in Hnb as [HDI Hnb'].
    inv_bind Hloop. unfold classify_layer in Ha. inv_bind Ha.
    pose proof (np_take_cols _ _ _ _ Ha0 HDI) as Hcols.
    destruct (classify_row_sums _ _ _ _ _ _ Hcols Hlen Hsum Ha) as [Hl Hs].
    destruct (IH _ _ _ Hnb' Hl Hs Hloop) as [Hl' Hs'].
    split; [done|]. eapply Forall_impl; [exact Hs'|].
    simpl. intros; lia.
Qed.

(** The methods read the frozen fields only: apart from the dictionary of
    activations the object is returned as it was. *)
Lemma get_neighbors_state x k_arg layers_arg (self : DKNN) :
  (get_neighbors fsqrt x k_arg layers_arg self).2
  = set_activations self
      (fire_hooks (model self) (hooks_fired self x) x (activations self)).
Proof. reflexivity. Qed.

Lemma classify_state x (self : DKNN) :
  (classify fsqrt x self).2
  = set_activations self
      (fire_hooks (model self) (hooks_fired self x) x (activations self)).
Proof. reflexivity. Qed.

(** When every configured layer is hooked, the forward pass overwrites every
    entry that [get_neighbors] reads: the result does not depend on what the
    dictionary held before, nor on the fields [x_train] and [A]. *)
Lemma get_neighbors_frozen (m : Model X) xt xt' yt ls k nc idxs acts acts' hooked A A'
    x k_arg layers_arg :
  (∀ l, l ∈ ls → l ∈ hooked) →
  (get_neighbors fsqrt x k_arg layers_arg
     (mk_DKNN m xt yt ls k nc idxs acts hooked A)).1
  = (get_neighbors fsqrt x k_arg layers_arg
     (mk_DKNN m xt' yt ls k nc idxs acts' hooked A')).1.
Proof.
  intros Hhooked. destruct x as [|s x]; [done|].
  rewrite !get_neighbors_nonempty by done. simpl.
  apply neighbors_loop_ext. apply Forall_forall. intros z Hz.
  apply zip_fst_elem_of, Hhooked in Hz.
  by rewrite !fire_hooks_hooked.
Qed.

Lemma classify_frozen (m : Model X) xt xt' yt ls k nc idxs acts acts' hooked A A' x :
  (∀ l, l ∈ ls → l ∈ hooked) →
  (classify fsqrt x (mk_DKNN m xt yt ls k nc idxs acts hooked A)).1
  = (classify fsqrt x (mk_DKNN m xt' yt ls k nc idxs acts' hooked A')).1.
Proof.
  intros Hhooked. rewrite !classify_unfold. cbn [fst y_train num_classes].
  by rewrite (get_neighbors_frozen m xt xt' yt ls k nc idxs acts acts' hooked A A').
Qed.

(** *** The constructor *)

Lemma build_loop_Ok reps n ls idxs :
  build_loop fsqrt reps n ls = Ok idxs →
  length idxs = length ls
  ∧ Forall (λ l, is_Some (reps !! l)) ls
  ∧ (ls ≠ [] → n ≠ 0%nat).
Proof.
  revert idxs. induction ls as [|l ls IH]; intros idxs H; simpl in H.
  - inversion H; subst. by repeat split.
  - inv_bind H. inv_bind H. inv_bind H. inversion H; subst.
    destruct (IH _ Ha1) as (Hlen & Hall & _). repeat split.
    + simpl. by rewrite Hlen.
    + constructor; [|done]. unfold dict_get in Ha.
      destruct (reps !! l); [eauto|discriminate].
    + intros _. unfold torch_view in Ha0. by destruct (decide (n = 0%nat)).
Qed.

Lemma build_loop_Raise reps n ls e :
  build_loop fsqrt reps n ls = Raise e → e = KeyError ∨ e = RuntimeError.
Proof.
  induction ls as [|l ls IH]; simpl; [done|].
  unfold dict_get. destruct (reps !! l); simpl; [|intros [= <-]; by left].
  unfold torch_view. destruct (decide (n = 0%nat)); simpl;
    [intros [= <-]; by right|].
  intros H. apply bind_Raise in H as [H|(out & _ & H)]; [auto|done].
Qed.

Lemma calibration_loop_Ok ps : ∀ i A A',
  calibration_loop i ps A = Ok A' →
  (i + length ps ≤ length A)%nat →
  length A' = length A
  ∧ (∀ j, (j < i ∨ i + length ps ≤ j)%nat → A' !! j = A !! j)
  ∧ (∀ j y_c y_p a, ps !! j = Some (y_c, y_p) → A !! (i + j)%nat = Some a →
       ∃ v, np_getitem y_p y_c = Ok v ∧ A' !! (i + j)%nat = Some (a - v)).
Proof.
  induction ps as [|[y_c y_p] ps IH]; intros i A A' H Hlen; simpl in *.
  - inversion H; subst. repeat split; [done..|].
    intros j ? ? ? Hj. by rewrite lookup_nil in Hj.
  - inv_bind H.
    destruct (IH _ _ _ H) as (Hl & Hout & Hin);
      [rewrite length_alter; lia|].
    rewrite length_alter in Hl. repeat split; [done|..].
    + intros j Hj. rewrite Hout by lia.
      apply list_lookup_alter_ne. lia.
    + intros [|j] c p a0 Hj Ha0.
      * simpl in Hj. inversion Hj; subst c p.
        replace (i + 0)%nat with i in * by lia.
        exists a. split; [done|]. rewrite Hout by lia.
        rewrite list_lookup_alter_eq. by rewrite Ha0.
      * simpl in Hj. replace (i + S j)%nat with (S i + j)%nat in * by lia.
        eapply Hin; [done|]. rewrite list_lookup_alter_ne by lia. done.
Qed.

Lemma calibration_loop_Raise ps : ∀ i A e,
  calibration_loop i ps A = Raise e → e = IndexError.
Proof.
  induction ps as [|[y_c y_p] ps IH]; intros i A e H; simpl in H; [done|].
  apply bind_Raise in H as [H|(v & _ & H)]; [|eauto].
  unfold np_getitem in H. destruct (_ && _); [|by inversion H].
  destruct (y_p !! _); by inversion H.
Qed.

Lemma DKNN_init_unfold (m : Model X) xt yt xc yc ls k nc :
  DKNN_init fsqrt m xt yt xc yc ls k nc
  = if decide (length (hooked_children m ls) = length ls) then
      match xt with
      | [] => Raise RuntimeError
      | _ :: _ =>
          let acts := fire_hooks m (hooked_children m ls) xt ∅ in
          build_loop fsqrt acts (length xt) ls ≫= λ idxs,
          let self :=
            mk_DKNN m xt yt ls k nc idxs acts (hooked_children m ls) [] in
          (classify fsqrt xc self).1 ≫= λ y_pred,
          calibration_loop 0 (zip yc (nd_rows y_pred))
            (replicate (length xc) (Z.of_nat k * Z.of_nat (length ls))) ≫= λ A,
          Ok (set_A (classify fsqrt xc self).2 A)
      end
    else Raise AssertionError.
Proof. by destruct xt. Qed.

(** The forward passes of the constructor run on the training set and on
    the calibration set: neither is empty when a classifier is constructed. *)
Lemma classify_empty_batch (self : DKNN) :
  (classify fsqrt [] self).1 = Raise RuntimeError.
Proof. reflexivity. Qed.

Lemma DKNN_init_nonempty (m : Model X) xt yt xc yc ls k nc st :
  DKNN_init fsqrt m xt yt xc yc ls k nc = Ok st → xt ≠ [] ∧ xc ≠ [].
Proof.
  rewrite DKNN_init_unfold. destruct (decide _) as [_|]; [|discriminate].
  destruct xt as [|s xt]; [discriminate|]. cbv zeta. intros H.
  split; [done|]. intros ->.
  apply bind_Ok in H as (idxs & _ & H).
  rewrite classify_empty_batch in H. discriminate.
Qed.

(** What a successful construction establishes. *)
Lemma DKNN_init_Ok (m : Model X) xt yt xc yc ls k nc st :
  DKNN_init fsqrt m xt yt xc yc ls k nc = Ok st →
  ∃ idxs acts hooked votes A,
    st = mk_DKNN m xt yt ls k nc idxs acts hooked A
    ∧ length idxs = length ls
    ∧ (∀ l, l ∈ ls → l ∈ hooked)
    ∧ (ls ≠ [] → xt ≠ [])
    ∧ (∀ xt' acts' A',
         (classify fsqrt xc (mk_DKNN m xt' yt ls k nc idxs acts' hooked A')).1
         = Ok votes)
    ∧ calibration_loop 0 (zip yc (nd_rows votes))
        (replicate (length xc) (Z.of_nat k * Z.of_nat (length ls))) = Ok A.
Proof.
  rewrite DKNN_init_unfold. destruct (decide _) as [_|]; [|discriminate].
  destruct xt as [|s xt]; [discriminate|].
  cbv zeta. intros H. inv_bind H. inv_bind H. inv_bind H.
  inversion H; subst st; clear H.
  destruct (build_loop_Ok _ _ _ _ Ha) as (Hlen & Hkeys & Hn).
  assert (∀ l, l ∈ ls → l ∈ hooked_children m ls) as Hhooked.
  { intros l Hl. rewrite Forall_forall in Hkeys.
    destruct (Hkeys l Hl) as [t Ht]. rewrite fire_hooks_lookup in Ht.
    destruct (decide (l ∈ hooked_children m ls)); [done|].
    by rewrite lookup_empty in Ht. }
  eexists _, _, _, a0, a1. repeat split; try done.
  intros xt' acts' A'. rewrite <- Ha0. by apply classify_frozen.
Qed.

Lemma filter_all {A} (P : A → Prop) `{∀ a, Decision (P a)} (l : list A) :
  Forall P l → filter P l = l.
Proof.
  induction 1 as [|a l Ha _ IH]; [done|].
  rewrite filter_cons, decide_True by done. by rewrite IH.
Qed.

Lemma zip_layers_all_requested (ls : list string) (idxs : list index) :
  filter (λ z : string * index, z.1 ∈ ls) (zip ls idxs) = zip ls idxs.
Proof.
  apply filter_all, Forall_forall. intros z Hz. by eapply zip_fst_elem_of.
Qed.

(** What a successful [classify] returns: one row per sample, [num_classes]
    columns, and in every row [k] votes per queried layer. *)
Lemma classify_Ok x (self : DKNN) votes :
  (classify fsqrt x self).1 = Ok votes →
  ∃ nb, (get_neighbors fsqrt x None None self).1 = Ok nb
    ∧ nd_cols votes = num_classes self
    ∧ length (nd_rows votes) = length x
    ∧ Forall (λ row, sumZ row = Z.of_nat (k self) * Z.of_nat (length nb))
             (nd_rows votes).
Proof.
  rewrite classify_unfold. cbn [fst]. intros H.
  inv_bind H. inv_bind H. inversion H; subst votes; clear H.
  exists a. split; [done|]. simpl.
  apply get_neighbors_Ok in Ha as [_ Ha]. cbn [fst default] in Ha.
  destruct (neighbors_loop_Ok _ _ _ _ _ _ Ha) as (_ & Hcols & _).
  destruct (classify_layers_sums (y_train self) (k self) (length x) a 0
              _ _ Hcols (length_replicate _ _)
              ltac:(apply Forall_replicate, sumZ_replicate_0) Ha0) as [Hl Hs].
  repeat split; [done|]. eapply Forall_impl; [exact Hs|].
  simpl. intros; lia.
Qed.

Lemma DKNN_init_A_length (m : Model X) xt yt xc yc ls k nc st :
  DKNN_init fsqrt m xt yt xc yc ls k nc = Ok st → length (A st) = length xc.
Proof.
  intros Hinit.
  destruct (DKNN_init_Ok _ _ _ _ _ _ _ _ _ Hinit)
    as (idxs & acts & hooked & votes & A0 & -> & _ & _ & _ & Hcl & Hcal).
  destruct (classify_Ok _ _ _ (Hcl xt acts A0)) as (_ & _ & _ & Hrows & _).
  apply calibration_loop_Ok in Hcal as (Hlen & _).
  - simpl. by rewrite Hlen, length_replicate.
  - rewrite length_replicate, length_zip. lia.
Qed.

(** *** credibility *)

Lemma foldl_max_spec row v :
  let mx := foldl Z.max v row in
  mx ∈ v :: row ∧ Forall (λ w, w ≤ mx) (v :: row).
Proof.
  revert v. induction row as [|w row IH]; intros v; simpl.
  - split; [by left|]. by repeat constructor.
  - destruct (IH (Z.max v w)) as [Hin Hall].
    apply Forall_cons in Hall as [Hv Hall]. split.
    + apply elem_of_cons in Hin as [Heq|Hin]; [|by do 2 right].
      rewrite Heq. destruct (Z.max_spec v w) as [[_ ->]|[_ ->]];
        [right; left|left]; done.
    + repeat constructor; [lia|lia|done].
Qed.

Lemma np_max_axis1_spec arr maxes :
  np_max_axis1 arr = Ok maxes → Forall2 is_max (nd_rows arr) maxes.
Proof.
  unfold np_max_axis1. destruct (decide _) as [|_]; [discriminate|].
  generalize (nd_rows arr). clear arr. intros rows. revert maxes.
  induction rows as [|row rows IH]; intros maxes H; simpl in H.
  - inversion H. constructor.
  - inv_bind H. inv_bind H. inversion H; subst. constructor; [|by apply IH].
    destruct row as [|v row]; [discriminate|]. inversion Ha; subst.
    apply foldl_max_spec.
Qed.

Lemma np_max_axis1_total a :
  nd_cols a ≠ 0%nat → Forall (λ row, length row = nd_cols a) (nd_rows a) →
  ∃ maxes, np_max_axis1 a = Ok maxes.
Proof.
  intros Hc Hrows. unfold np_max_axis1. rewrite decide_False by done.
  apply mapR_total. eapply Forall_impl; [exact Hrows|]. simpl.
  intros [|v row] Hlen; [simpl in Hlen; congruence|eauto].
Qed.

Lemma credibility_unfold cc (self : DKNN) maxes :
  np_max_axis1 cc = Ok maxes →
  (credibility cc self).1
  = Ok (map (λ mx, np_div (count_ge (A self)
                (Z.of_nat (k self) * Z.of_nat (length (layers self)) - mx))
              (length (A self))) maxes).
Proof.
  intros H. unfold credibility. cbn [fst]. rewrite H. simpl.
  by rewrite !map_map.
Qed.

Lemma count_ge_bounds A a : 0 ≤ count_ge A a ≤ Z.of_nat (length A).
Proof. unfold count_ge. pose proof (length_filter (λ α, a ≤ α) A). lia. Qed.

Lemma count_ge_antitone A a1 a2 : a1 ≤ a2 → count_ge A a2 ≤ count_ge A a1.
Proof.
  intros Ha. unfold count_ge. apply inj_le.
  induction A as [|α A IH]; [done|].
  rewrite !filter_cons. repeat destruct (decide _); simpl; lia.
Qed.

Lemma Zpos_of_nat n : n ≠ 0%nat → Z.pos (Pos.of_nat n) = Z.of_nat n.
Proof. intros Hn. rewrite <- positive_nat_Z, Nat2Pos.id; done. Qed.

Lemma np_div_pos c n :
  n ≠ 0%nat → np_div c n = Finite (c # Pos.of_nat n).
Proof. by destruct n. Qed.

Lemma build_loop_ntotal reps n ls idxs :
  build_loop fsqrt reps n ls = Ok idxs →
  Forall (λ l, ∃ t : tensor, reps !! l = Some t ∧ length t = n) ls →
  Forall (λ idx, ntotal idx = n) idxs.
Proof.
  revert idxs. induction ls as [|l ls IH]; intros idxs H Hreps; simpl in H.
  - inversion H. constructor.
  - apply Forall_cons in Hreps as [(t & Ht & Hlen) Hreps].
    unfold dict_get in H. rewrite Ht in H. simpl in H.
    inv_bind H. inv_bind H. inversion H; subst. constructor; [|by apply IH].
    unfold torch_view in Ha. destruct (decide (length t = 0%nat));
      [discriminate|]. inversion Ha; subst a.
    unfold _build_index. rewrite ntotal_add, ntotal_IndexLSH.
    unfold renorm. by rewrite length_map.
Qed.

Lemma DKNN_init_ntotal (m : Model X) xt yt xc yc ls k nc st :
  DKNN_init fsqrt m xt yt xc yc ls k nc = Ok st →
  Forall (λ idx, ntotal idx = length xt) (indices st).
Proof.
  rewrite DKNN_init_unfold. destruct (decide _) as [_|]; [|discriminate].
  destruct xt as [|s xt]; [discriminate|].
  cbv zeta. intros H. inv_bind H. inv_bind H. inv_bind H.
  inversion H; subst st; clear H. simpl.
  eapply build_loop_ntotal; [exact Ha|].
  destruct (build_loop_Ok _ _ _ _ Ha) as (_ & Hkeys & _).
  eapply Forall_impl; [exact Hkeys|]. simpl. intros l [t Ht].
  exists t. split; [done|]. rewrite fire_hooks_lookup in Ht.
  destruct (decide _); [|by rewrite lookup_empty in Ht].
  injection Ht as <-. simpl. by rewrite length_map.
Qed.

(** For a constructed classifier and a batch that is not empty,
    [get_neighbors] returns: one entry per configured layer. *)
Lemma get_neighbors_built (m : Model X) xt yt ls k nc idxs acts hooked A x k_arg :
  length idxs = length ls → (∀ l, l ∈ ls → l ∈ hooked) → x ≠ [] →
  ∃ nb, (get_neighbors fsqrt x k_arg None
           (mk_DKNN m xt yt ls k nc idxs acts hooked A)).1 = Ok nb
    ∧ length nb = length ls
    ∧ Forall (λ DI, Forall (λ r : list Z, length r = default k k_arg) DI.2) nb.
Proof.
  intros Hlen Hhooked Hx. rewrite get_neighbors_nonempty by done. simpl.
  edestruct (neighbors_loop_total
               (fire_hooks m hooked x acts) (length x) (default k k_arg) ls
               (zip ls idxs)) as [nb Hnb].
  { by destruct x. }
  { apply Forall_forall. intros z Hz. apply zip_fst_elem_of, Hhooked in Hz.
    rewrite fire_hooks_hooked by done. eauto. }
  exists nb. split; [done|].
  destruct (neighbors_loop_Ok _ _ _ _ _ _ Hnb) as (Hl & Hcols & _).
  split; [|done].
  rewrite Hl, zip_layers_all_requested, length_zip. lia.
Qed.

(** ** The specification's claims *)

(** Projections of an explicit object, without unfolding the methods. *)
Ltac norm_self :=
  unfold set_activations, set_indices, set_A in *;
  cbn [model x_train y_train layers k num_classes indices activations hooks A]
    in *.

Lemma run_call_frozen (c : call) (self : DKNN) :
  same_frozen_fields self (run_call fsqrt c self).
Proof. by destruct c. Qed.

Lemma run_calls_frozen (calls : list call) (self : DKNN) :
  same_frozen_fields self (run_calls fsqrt calls self).
Proof.
  unfold run_calls. revert self.
  induction calls as [|c calls IH]; intros self; simpl; [done|].
  destruct (run_call_frozen c self) as (Hi & Hy & HA).
  destruct (IH (run_call fsqrt c self)) as (Hi' & Hy' & HA').
  unfold same_frozen_fields. by rewrite Hi', Hy', HA'.
Qed.

(** C9. No method call mutates the per-layer indices, the training labels
    or the nonconformity array: after a call to [get_neighbors], to
    [classify] or to [credibility], and after any sequence of such calls,
    the fields [indices], [y_train] and [A] are what they were before.
    (The dictionary of activations is the only field a call writes.) *)
Theorem frozen_after_construction (self : DKNN) x k_arg layers_arg class_counts
    (calls : list call) :
  same_frozen_fields self (get_neighbors fsqrt x k_arg layers_arg self).2
  ∧ same_frozen_fields self (classify fsqrt x self).2
  ∧ same_frozen_fields self (credibility class_counts self).2
  ∧ same_frozen_fields self (run_calls fsqrt calls self).
Proof.
  split; [done|]. split; [done|]. split; [done|]. apply run_calls_frozen.
Qed.

(** C2. For a constructed classifier with parameter [k] and [L] configured
    layers, and every batch, every row of the matrix that [classify]
    returns sums to [k] times the number of layers queried; [classify]
    queries all [L] configured layers. (When [classify] returns is the
    subject of [classify_returns] below.) *)
Theorem vote_sum_invariant (m : Model X) xt yt xc yc ls k nc st0 acts x votes :
  DKNN_init fsqrt m xt yt xc yc ls k nc = Ok st0 →
  (classify fsqrt x (set_activations st0 acts)).1 = Ok votes →
  ∃ nb, (get_neighbors fsqrt x None None (set_activations st0 acts)).1 = Ok nb
    ∧ length nb = length ls
    ∧ length (nd_rows votes) = length x
    ∧ Forall (λ row, sumZ row = Z.of_nat k * Z.of_nat (length nb))
             (nd_rows votes).
Proof.
  intros Hinit Hcl.
  destruct (DKNN_init_Ok _ _ _ _ _ _ _ _ _ Hinit)
    as (idxs & acts0 & hooked & votes0 & A0 & -> & Hlen & _).
  destruct (classify_Ok _ _ _ Hcl) as (nb & Hnb & _ & Hrows & Hsum).
  exists nb. norm_self. repeat split; try done.
  apply get_neighbors_Ok in Hnb as [_ Hnb]. cbn [fst default] in Hnb. norm_self.
  destruct (neighbors_loop_Ok _ _ _ _ _ _ Hnb) as (Hl & _).
  rewrite Hl, zip_layers_all_requested, length_zip. lia.
Qed.

Lemma is_max_unique row m1 m2 : is_max row m1 → is_max row m2 → m1 = m2.
Proof.
  intros [Hin1 Hall1] [Hin2 Hall2]. rewrite Forall_forall in Hall1, Hall2.
  specialize (Hall1 _ Hin2). specialize (Hall2 _ Hin1). lia.
Qed.

(** [np.sum(A >= a)] is the number of indices [j] with [A[j] >= a]: the size
    of the set of these indices. *)
Lemma count_ge_size A a (S : gset nat) :
  (∀ j, j ∈ S ↔ ∃ α, A !! j = Some α ∧ a ≤ α) →
  count_ge A a = Z.of_nat (size S).
Proof.
  revert S. induction A as [|α A IH] using rev_ind; intros S HS.
  - assert (S = ∅) as ->.
    { apply set_eq. intros j. rewrite HS. split; [|set_solver].
      intros (α & Hα & _). by rewrite lookup_nil in Hα. }
    by rewrite size_empty.
  - assert (count_ge (A ++ [α]) a
            = count_ge A a + if decide (a ≤ α) then 1 else 0) as ->.
    { unfold count_ge. rewrite filter_app, length_app, filter_cons, filter_nil.
      destruct (decide (a ≤ α)); simpl; lia. }
    rewrite (IH (S ∖ {[length A]})).
    2:{ intros j. rewrite elem_of_difference, HS, not_elem_of_singleton. split.
        - intros [(β & Hβ & Hle) Hne]. exists β. split; [|done].
          apply lookup_lt_Some in Hβ as Hlt. rewrite length_app in Hlt.
          simpl in Hlt. rewrite lookup_app_l in Hβ by lia. done.
        - intros (β & Hβ & Hle). apply lookup_lt_Some in Hβ as Hlt.
          split; [|lia]. exists β. by rewrite lookup_app_l by lia. }
    destruct (decide (a ≤ α)) as [Hle|Hnle].
    + assert (length A ∈ S) as Hin.
      { apply HS. exists α. split; [|done].
        rewrite lookup_app_r by lia. by rewrite Nat.sub_diag. }
      rewrite size_difference by (by apply singleton_subseteq_l).
      rewrite size_singleton.
      assert (size S ≠ 0%nat) as Hne.
      { intros H0. apply size_empty_iff in H0. clear -Hin H0. set_solver. }
      lia.
    + assert (length A ∉ S) as Hnin.
      { intros Hin. apply HS in Hin as (β & Hβ & Hle).
        rewrite lookup_app_r in Hβ by lia. rewrite Nat.sub_diag in Hβ.
        simpl in Hβ. injection Hβ as <-. done. }
      assert (S ∖ {[length A]} = S) as ->; [|lia].
      apply set_eq. intros j. rewrite elem_of_difference, not_elem_of_singleton.
      split; [by intros [? _]|]. intros Hj. split; [done|]. by intros ->.
Qed.

Lemma credibility_Ok cc (self : DKNN) creds :
  (credibility cc self).1 = Ok creds →
  ∃ maxes, np_max_axis1 cc = Ok maxes
    ∧ creds = map (λ mx, np_div (count_ge (A self)
                (Z.of_nat (k self) * Z.of_nat (length (layers self)) - mx))
              (length (A self))) maxes.
Proof.
  unfold credibility. cbn [fst]. intros H.
  apply bind_Ok in H as (maxes & Hmax & H). exists maxes. split; [done|].
  injection H as <-. by rewrite !map_map.
Qed.

(** C1. For a classifier constructed with parameter [k], [L] configured
    layers and a calibration set of [n > 0] samples, the stored array
    satisfies [A[i] = k*L - votes[i][y_cal[i]]], where [votes] is what
    [classify] returns on the calibration inputs; and on every array of
    vote counts [credibility] returns one value per row, the value of a row
    being [|{ j : A[j] >= k*L - mx }| / n] where [mx] is the maximum entry
    of the row: the size of the set of the indices [j] of [A] with
    [A[j] >= k*L - mx], divided by [n]. *)
Theorem nonconformity_and_credibility (m : Model X) xt yt xc yc ls k nc st0 acts :
  DKNN_init fsqrt m xt yt xc yc ls k nc = Ok st0 →
  (0 < length xc)%nat →
  length yc = length xc →
  let st := set_activations st0 acts in
  let kL := Z.of_nat k * Z.of_nat (length ls) in
  (∃ votes, (classify fsqrt xc st).1 = Ok votes
     ∧ length (A st) = length xc
     ∧ ∀ i y_c, yc !! i = Some y_c →
         ∃ row v, nd_rows votes !! i = Some row
           ∧ np_getitem row y_c = Ok v
           ∧ (0 ≤ y_c → row !! Z.to_nat y_c = Some v)
           ∧ A st !! i = Some (kL - v))
  ∧ (∀ cc, nd_cols cc ≠ 0%nat →
       Forall (λ row, length row = nd_cols cc) (nd_rows cc) →
       ∃ creds, (credibility cc st).1 = Ok creds
         ∧ length creds = length (nd_rows cc)
         ∧ ∀ i row mx (S : gset nat),
             nd_rows cc !! i = Some row → is_max row mx →
             (∀ j, j ∈ S ↔ ∃ α, A st !! j = Some α ∧ kL - mx ≤ α) →
             creds !! i
             = Some (Finite (Z.of_nat (size S) # Pos.of_nat (length xc)))).
Proof.
  intros Hinit Hn Hyc st kL.
  pose proof (DKNN_init_A_length _ _ _ _ _ _ _ _ _ Hinit) as HlenA.
  destruct (DKNN_init_Ok _ _ _ _ _ _ _ _ _ Hinit)
    as (idxs & acts0 & hooked & votes & A0 & -> & Hlen & Hhooked & _ & Hcl & Hcal).
  subst st kL. norm_self. split.
  - exists votes. split; [apply Hcl|]. split; [done|].
    intros i y_c Hi.
    destruct (classify_Ok _ _ _ (Hcl xt acts A0)) as (_ & _ & _ & Hrows & _).
    destruct (lookup_lt_is_Some_2 (nd_rows votes) i) as [row Hrow].
    { apply lookup_lt_Some in Hi. lia. }
    apply calibration_loop_Ok in Hcal as (_ & _ & Hin);
      [|rewrite length_replicate, length_zip; lia].
    destruct (Hin i y_c row (Z.of_nat k * Z.of_nat (length ls)))
      as (v & Hv & HA).
    + apply lookup_zip_with_Some. eauto.
    + apply lookup_replicate_2. apply lookup_lt_Some in Hi. lia.
    + exists row, v. repeat split; try done.
      intros Hpos. by apply np_getitem_nonneg.
  - intros cc Hcols Hrows.
    destruct (np_max_axis1_total _ Hcols Hrows) as [maxes Hmax].
    pose proof (np_max_axis1_spec _ _ Hmax) as Hspec.
    rewrite (credibility_unfold _ _ _ Hmax). norm_self.
    eexists. split; [done|]. split.
    { rewrite length_map. symmetry. by eapply Forall2_length. }
    intros i row mx S Hi Hmx HS.
    destruct (Forall2_lookup_l _ _ _ _ _ Hspec Hi) as (mx' & Hi' & Hmx').
    assert (mx' = mx) as -> by (by eapply is_max_unique).
    rewrite list_lookup_fmap, Hi'. simpl. f_equal.
    rewrite (count_ge_size _ _ S HS), HlenA. apply np_div_pos. lia.
Qed.

Lemma neighbors_loop_rows reps n k requested (zs : list (string * index)) out :
  Forall (λ z, ∀ t : tensor, reps !! z.1 = Some t → length t = n) zs →
  neighbors_loop fsqrt reps n k requested zs = Ok out →
  Forall (λ DI, length DI.2 = n) out.
Proof.
  intros Hreps. revert out.
  induction Hreps as [|[layer idx] zs Hz _ IH]; intros out H; simpl in H.
  - inversion H. constructor.
  - destruct (decide (layer ∈ requested)); [|by apply IH].
    inv_bind H. inv_bind H. inv_bind H. inversion H; subst.
    constructor; [|by apply IH].
    unfold dict_get in Ha. destruct (reps !! layer) as [t|] eqn:Ht;
      [|discriminate]. inversion Ha; subst a.
    unfold np_reshape in Ha0. destruct (decide _); [discriminate|].
    inversion Ha0; subst a0.
    rewrite search_rows. unfold renorm. rewrite length_map.
    by apply Hz.
Qed.

(** C3, as the code has it. [get_neighbors] passes [k] to the search of each
    index and returns what the searches return: it does not compare [k]
    with the number [N] of indexed training points, and raises no
    DegenerateIndexError. For a constructed classifier (every index holds
    the [N] training points) and a batch that is not empty, the call
    succeeds for every [k], also for [k > N], with one pair of arrays of
    shape [(n, k)] per configured layer. *)
Theorem get_neighbors_does_not_check_k (m : Model X) xt yt xc yc ls k nc st0
    acts x k' :
  DKNN_init fsqrt m xt yt xc yc ls k nc = Ok st0 →
  x ≠ [] →
  Forall (λ idx, ntotal idx = length xt) (indices st0)
  ∧ ∃ nb,
      (get_neighbors fsqrt x (Some k') None (set_activations st0 acts)).1 = Ok nb
      ∧ length nb = length ls
      ∧ Forall (λ DI, length DI.2 = length x
                      ∧ Forall (λ r : list Z, length r = k') DI.2) nb.
Proof.
  intros Hinit Hx. split; [by eapply DKNN_init_ntotal|].
  destruct (DKNN_init_Ok _ _ _ _ _ _ _ _ _ Hinit)
    as (idxs & acts0 & hooked & votes & A0 & -> & Hlen & Hhooked & _).
  norm_self.
  destruct (get_neighbors_built m xt yt ls k nc idxs acts hooked A0 x (Some k')
              Hlen Hhooked Hx) as (nb & Hnb & Hl & Hcols).
  exists nb. split; [done|]. split; [done|].
  apply get_neighbors_Ok in Hnb as [_ Hnb]. cbn [fst default] in Hnb. norm_self.
  apply neighbors_loop_rows in Hnb.
  - apply Forall_forall. intros DI HDI. rewrite Forall_forall in Hnb, Hcols.
    split; [by apply Hnb|by apply Hcols].
  - apply Forall_forall. intros z Hz t.
    apply zip_fst_elem_of, Hhooked in Hz.
    rewrite fire_hooks_hooked by done. intros [= <-]. by rewrite length_map.
Qed.

Lemma hooked_children_nil (m : Model X) : hooked_children m [] = [].
Proof.
  unfold hooked_children. induction (named_children m) as [|c cs IH]; [done|].
  rewrite filter_cons, decide_False by apply not_elem_of_nil. done.
Qed.

Lemma build_loop_total reps n ls :
  n ≠ 0%nat → Forall (λ l, is_Some (reps !! l)) ls →
  ∃ idxs, build_loop fsqrt reps n ls = Ok idxs.
Proof.
  intros Hn. induction 1 as [|l ls [t Ht] _ [idxs Hidxs]]; simpl; [eauto|].
  unfold dict_get. rewrite Ht. simpl.
  unfold torch_view. rewrite decide_False by done. simpl.
  rewrite Hidxs. simpl. eauto.
Qed.

(** With an empty calibration set the constructor fails: in the hook-count
    assertion, in the forward pass on an empty training set, in the loop
    that builds the indices, or else in the forward pass of
    [classify(x_cal)]. *)
Lemma DKNN_init_empty_calibration (m : Model X) xt yt yc ls k nc :
  DKNN_init fsqrt m xt yt [] yc ls k nc = Raise AssertionError
  ∨ DKNN_init fsqrt m xt yt [] yc ls k nc = Raise KeyError
  ∨ DKNN_init fsqrt m xt yt [] yc ls k nc = Raise RuntimeError.
Proof.
  rewrite DKNN_init_unfold. destruct (decide _) as [_|]; [|by left].
  destruct xt as [|s xt]; [by right; right|]. cbv zeta.
  destruct (build_loop _ _ _ _) as [idxs|e] eqn:Hb;
    rewrite ?bind_Ok_l, ?bind_Raise_l.
  - rewrite classify_empty_batch, bind_Raise_l. by right; right.
  - destruct (build_loop_Raise _ _ _ _ Hb) as [->| ->]; auto.
Qed.

(** C5, as the code has it. With an empty calibration set the construction
    fails and no classifier is constructed, but the constructor has no
    check of its own and never raises EmptyCalibrationSetError: the
    exception is that of the step that fails. When the construction gets
    as far as the calibration (the hook count is right and every layer is a
    child of the network), it is the RuntimeError of the forward pass on
    the empty calibration batch, or on an empty training set; before that,
    the AssertionError of the hook count or the KeyError of a missing
    activation. *)
Theorem empty_calibration_set (m : Model X) xt yt yc ls k nc :
  let r := DKNN_init fsqrt m xt yt [] yc ls k nc in
  r ≠ Raise (Exn "EmptyCalibrationSetError")
  ∧ (∀ st, r ≠ Ok st)
  ∧ (∃ e, r = Raise e ∧ e ∈ [AssertionError; KeyError; RuntimeError])
  ∧ (length (hooked_children m ls) = length ls →
     (∀ l, l ∈ ls → l ∈ named_children m) →
     r = Raise RuntimeError).
Proof.
  intros r. subst r.
  pose proof (DKNN_init_empty_calibration m xt yt yc ls k nc) as Hcases.
  split; [|split; [|split]].
  - destruct Hcases as [->|[->| ->]]; discriminate.
  - intros st. destruct Hcases as [->|[->| ->]]; discriminate.
  - destruct Hcases as [->|[->| ->]]; eexists; (split; [done|]);
      rewrite !elem_of_cons; auto.
  - intros Hcount Hchildren. rewrite DKNN_init_unfold.
    rewrite decide_True by done. destruct xt as [|s xt]; [done|]. cbv zeta.
    destruct (build_loop_total
                (fire_hooks m (hooked_children m ls) (s :: xt) ∅)
                (length (s :: xt)) ls) as [idxs Hidxs]; [done| |].
    + apply Forall_forall. intros l Hl. rewrite fire_hooks_hooked; [eauto|].
      unfold hooked_children. apply list_elem_of_filter. auto.
    + rewrite Hidxs, bind_Ok_l. by rewrite classify_empty_batch.
Qed.

(** C6, as the code has it. The names passed as [layers] are used only as a
    membership test on the configured layers: a requested name that is not
    configured is ignored and no UnknownLayerError is raised; the call
    returns what it returns for the requested names that are configured. *)
Theorem requested_layers_are_a_filter (self : DKNN) x k_arg requested :
  (get_neighbors fsqrt x k_arg (Some requested) self).1
  = (get_neighbors fsqrt x k_arg
       (Some (filter (λ l, l ∈ layers self) requested)) self).1
  ∧ (get_neighbors fsqrt x k_arg (Some requested) self).1
    ≠ Raise (Exn "UnknownLayerError").
Proof.
  destruct x as [|s x]; [by split|].
  rewrite !get_neighbors_nonempty by done. cbn [fst default]. split.
  - apply neighbors_loop_ext, Forall_forall. intros z Hz. split; [done|].
    apply zip_fst_elem_of in Hz. unfold id. rewrite list_elem_of_filter. tauto.
  - intros H. by destruct (neighbors_loop_Raise _ _ _ _ _ _ H).
Qed.

Lemma np_div_unit A a :
  A ≠ [] → in_unit_interval (np_div (count_ge A a) (length A)).
Proof.
  intros HA. assert (length A ≠ 0%nat) as Hn by (by destruct A).
  rewrite np_div_pos by done. pose proof (count_ge_bounds A a) as [Hlo Hhi].
  unfold in_unit_interval, np_le, Qle. simpl.
  rewrite Zpos_of_nat by done. lia.
Qed.

Lemma np_div_antitone A a1 a2 :
  A ≠ [] → a1 ≤ a2 →
  np_le (np_div (count_ge A a2) (length A)) (np_div (count_ge A a1) (length A)).
Proof.
  intros HA Ha. assert (length A ≠ 0%nat) as Hn by (by destruct A).
  rewrite !np_div_pos by done. unfold np_le, Qle. simpl.
  apply Z.mul_le_mono_nonneg_r; [lia|]. by apply count_ge_antitone.
Qed.

Lemma np_div_eq A a :
  A ≠ [] →
  np_eq (np_div (count_ge A a) (length A)) (np_div (count_ge A a) (length A)).
Proof.
  intros HA. assert (length A ≠ 0%nat) as Hn by (by destruct A).
  rewrite !np_div_pos by done. unfold np_eq. reflexivity.
Qed.

Lemma DKNN_init_A_nonempty (m : Model X) xt yt xc yc ls k nc st :
  DKNN_init fsqrt m xt yt xc yc ls k nc = Ok st → A st ≠ [].
Proof.
  intros Hinit HA. destruct (DKNN_init_nonempty _ _ _ _ _ _ _ _ _ Hinit) as [_ Hxc].
  apply DKNN_init_A_length in Hinit.
  rewrite HA in Hinit. by destruct xc.
Qed.

(** C7. For a constructed classifier, [credibility] is non-increasing in the
    nonconformity [a = k*L - max row] of the predicted class: of two rows
    of vote counts, the one with the smaller [a] has the larger or equal
    credibility, and rows with equal [a] have equal credibility.
    [credibility] returns on every array of vote counts with at least one
    column (the maximum of a row without entry does not exist: [np.max]
    raises ValueError). A constructed classifier has at least one
    calibration sample, since the constructor fails on an empty calibration
    batch. *)
Theorem credibility_monotone (m : Model X) xt yt xc yc ls k nc st0 acts cc :
  DKNN_init fsqrt m xt yt xc yc ls k nc = Ok st0 →
  let st := set_activations st0 acts in
  let a := λ mx, Z.of_nat k * Z.of_nat (length ls) - mx in
  (nd_cols cc ≠ 0%nat →
   Forall (λ row, length row = nd_cols cc) (nd_rows cc) →
   ∃ creds, (credibility cc st).1 = Ok creds)
  ∧ ∀ creds, (credibility cc st).1 = Ok creds →
      length creds = length (nd_rows cc)
      ∧ ∀ i j r1 r2 m1 m2 c1 c2,
          nd_rows cc !! i = Some r1 → nd_rows cc !! j = Some r2 →
          is_max r1 m1 → is_max r2 m2 →
          creds !! i = Some c1 → creds !! j = Some c2 →
          (a m1 < a m2 → np_le c2 c1) ∧ (a m1 = a m2 → np_eq c1 c2).
Proof.
  intros Hinit st a.
  pose proof (DKNN_init_A_nonempty _ _ _ _ _ _ _ _ _ Hinit) as HA.
  destruct (DKNN_init_Ok _ _ _ _ _ _ _ _ _ Hinit)
    as (idxs & acts0 & hooked & votes & A0 & -> & _).
  subst st. norm_self. split.
  { intros Hcols Hrows.
    destruct (np_max_axis1_total _ Hcols Hrows) as [maxes Hmax].
    rewrite (credibility_unfold _ _ _ Hmax). eauto. }
  intros creds Hcreds.
  apply credibility_Ok in Hcreds as (maxes & Hmax & ->). norm_self.
  pose proof (np_max_axis1_spec _ _ Hmax) as Hspec.
  split; [rewrite length_map; symmetry; by eapply Forall2_length|].
  intros i j r1 r2 m1 m2 c1 c2 Hi Hj Hm1 Hm2 Hc1 Hc2.
  destruct (Forall2_lookup_l _ _ _ _ _ Hspec Hi) as (m1' & Hi' & Hm1').
  destruct (Forall2_lookup_l _ _ _ _ _ Hspec Hj) as (m2' & Hj' & Hm2').
  assert (m1' = m1) as -> by (by eapply is_max_unique).
  assert (m2' = m2) as -> by (by eapply is_max_unique).
  rewrite list_lookup_fmap, Hi' in Hc1. rewrite list_lookup_fmap, Hj' in Hc2.
  simpl in Hc1, Hc2. injection Hc1 as <-. injection Hc2 as <-.
  subst a. simpl. split.
  - intros Hlt. apply np_div_antitone; [done|lia].
  - intros ->. by apply np_div_eq.
Qed.

(** C8. For a constructed classifier, every value that [credibility]
    returns lies in the closed interval [0, 1], and [credibility] returns
    one value per row on every array of vote counts with at least one
    column (the maximum of a row without entry does not exist: [np.max]
    raises ValueError). A constructed classifier has at least one
    calibration sample, since the constructor fails on an empty calibration
    batch: the division is by [n > 0]. *)
Theorem credibility_in_unit_interval (m : Model X) xt yt xc yc ls k nc st0
    acts cc :
  DKNN_init fsqrt m xt yt xc yc ls k nc = Ok st0 →
  let st := set_activations st0 acts in
  (nd_cols cc ≠ 0%nat →
   Forall (λ row, length row = nd_cols cc) (nd_rows cc) →
   ∃ creds, (credibility cc st).1 = Ok creds)
  ∧ ∀ creds, (credibility cc st).1 = Ok creds →
      length creds = length (nd_rows cc) ∧ Forall in_unit_interval creds.
Proof.
  intros Hinit st.
  pose proof (DKNN_init_A_nonempty _ _ _ _ _ _ _ _ _ Hinit) as HA.
  destruct (DKNN_init_Ok _ _ _ _ _ _ _ _ _ Hinit)
    as (idxs & acts0 & hooked & votes & A0 & -> & _).
  subst st. norm_self. split.
  { intros Hcols Hrows.
    destruct (np_max_axis1_total _ Hcols Hrows) as [maxes Hmax].
    rewrite (credibility_unfold _ _ _ Hmax). eauto. }
  intros creds Hcreds.
  apply credibility_Ok in Hcreds as (maxes & Hmax & ->). norm_self. split.
  - rewrite length_map. symmetry.
    by eapply Forall2_length, np_max_axis1_spec.
  - apply Forall_map, Forall_forall. intros mx _. simpl.
    by apply np_div_unit.
Qed.

(** *** classify returns

    With ten classes, training labels in [0, 10) that are parallel to the
    training inputs, and a batch that is not empty, [classify] returns on a
    constructed classifier. *)

Lemma bincount_small_labels labels :
  Forall (λ y, 0 ≤ y < 10) labels →
  ∃ h, bincount labels 10 = Ok h ∧ length h = 10%nat.
Proof.
  intros Hl. destruct (bincount_total labels 10) as [h Hh].
  { eapply Forall_impl; [exact Hl|]. simpl. lia. }
  exists h. split; [done|]. rewrite (bincount_length _ _ _ Hh).
  assert (max_list_Z labels ≤ 9).
  { apply max_list_Z_bound; [lia|]. eapply Forall_impl; [exact Hl|].
    simpl. lia. }
  lia.
Qed.

Lemma neighbors_loop_range reps n k requested (zs : list (string * index)) N out :
  Forall (λ z, ntotal z.2 = N) zs →
  neighbors_loop fsqrt reps n k requested zs = Ok out →
  Forall (λ DI, Forall (Forall (λ j : Z, -1 ≤ j < Z.of_nat N)) DI.2) out.
Proof.
  intros HN. revert out.
  induction HN as [|[layer idx] zs Hz _ IH]; intros out H; simpl in H.
  - inversion H. constructor.
  - destruct (decide (layer ∈ requested)); [|by apply IH].
    inv_bind H. inv_bind H. inv_bind H. injection H as <-.
    constructor; [|by apply IH]. simpl in Hz. rewrite <- Hz.
    apply search_range.
Qed.

Lemma zip_snd_elem_of {A B} (l1 : list A) (l2 : list B) z :
  z ∈ zip l1 l2 → z.2 ∈ l2.
Proof.
  revert l2. induction l1 as [|a l1 IH]; intros [|b l2] Hz; simpl in Hz;
    try by apply not_elem_of_nil in Hz.
  apply elem_of_cons in Hz as [->|Hz]; [by left|right; eauto].
Qed.

Lemma np_take_total yt (I : list (list Z)) :
  Forall (Forall (λ j, - Z.of_nat (length yt) ≤ j < Z.of_nat (length yt))) I →
  ∃ Y, np_take yt I = Ok Y.
Proof.
  intros HI. apply mapR_total. eapply Forall_impl; [exact HI|]. simpl.
  intros r Hr. apply mapR_total. eapply Forall_impl; [exact Hr|]. simpl.
  intros j Hj. by apply np_getitem_total.
Qed.

Lemma np_take_labels (P : Z → Prop) yt I Y :
  np_take yt I = Ok Y → Forall P yt → Forall (Forall P) Y.
Proof.
  intros HY Hyt. apply Forall_forall. intros r Hr.
  apply list_elem_of_lookup in Hr as [i Hi].
  destruct (mapR_lookup _ _ _ _ _ HY Hi) as (r0 & _ & Hm).
  apply Forall_forall. intros y Hy.
  apply list_elem_of_lookup in Hy as [j Hj].
  destruct (mapR_lookup _ _ _ _ _ Hm Hj) as (j0 & _ & Hget).
  rewrite Forall_forall in Hyt. by eapply Hyt, np_getitem_elem_of.
Qed.

Lemma classify_row_total Y n cc i :
  length Y = n → Forall (Forall (λ y, 0 ≤ y < 10)) Y → (i < n)%nat →
  ten_columns n cc →
  ∃ cc', classify_row Y cc i = Ok cc' ∧ ten_columns n cc'.
Proof.
  intros HY Hlabels Hi [Hlen Hrows]. unfold classify_row.
  destruct (lookup_lt_is_Some_2 Y i) as [labels Hl]; [lia|].
  destruct (lookup_lt_is_Some_2 cc i) as [row Hr]; [lia|].
  rewrite Hl, Hr.
  rewrite Forall_forall in Hlabels.
  destruct (bincount_small_labels labels) as (h & -> & Hh).
  { apply Hlabels. by eapply list_elem_of_lookup_2. }
  rewrite bind_Ok_l. unfold np_iadd.
  rewrite Forall_forall in Hrows.
  assert (length row = 10%nat) as Hrow
    by (apply Hrows; by eapply list_elem_of_lookup_2).
  rewrite decide_True by lia. rewrite bind_Ok_l.
  eexists. split; [done|]. split; [by rewrite length_insert|].
  apply Forall_insert; [by apply Forall_forall|].
  rewrite length_zip_with. lia.
Qed.

Lemma classify_layer_total yt n cc (DI : list (list Q) * list (list Z)) :
  length DI.2 = n →
  Forall (Forall (λ j, - Z.of_nat (length yt) ≤ j < Z.of_nat (length yt))) DI.2 →
  Forall (λ y, 0 ≤ y < 10) yt →
  ten_columns n cc →
  ∃ cc', classify_layer yt n cc DI = Ok cc' ∧ ten_columns n cc'.
Proof.
  intros Hrows Hrange Hyt Hcc. unfold classify_layer.
  destruct (np_take_total yt DI.2 Hrange) as [Y HY].
  rewrite HY, bind_Ok_l.
  apply (foldlR_total (ten_columns n)); [|done].
  intros i cc0 Hi Hcc0. apply classify_row_total; try done.
  - rewrite (mapR_length _ _ _ HY). done.
  - by eapply np_take_labels.
  - apply elem_of_seq in Hi. lia.
Qed.

Lemma classify_returns (m : Model X) xt yt xc yc ls k st0 acts x :
  DKNN_init fsqrt m xt yt xc yc ls k 10 = Ok st0 →
  x ≠ [] →
  length yt = length xt →
  Forall (λ y, 0 ≤ y < 10) yt →
  ∃ votes, (classify fsqrt x (set_activations st0 acts)).1 = Ok votes.
Proof.
  intros Hinit Hx Hlenyt Hyt.
  pose proof (DKNN_init_ntotal _ _ _ _ _ _ _ _ _ Hinit) as HN.
  destruct (DKNN_init_Ok _ _ _ _ _ _ _ _ _ Hinit)
    as (idxs & acts0 & hooked & votes0 & A0 & -> & Hlen & Hhooked & Hxt & _).
  norm_self.
  destruct (get_neighbors_built m xt yt ls k 10 idxs acts hooked A0 x None
              Hlen Hhooked Hx) as (nb & Hnb & Hl & _).
  rewrite classify_unfold. cbn [fst]. rewrite Hnb, bind_Ok_l. norm_self.
  apply get_neighbors_Ok in Hnb as [_ Hnb]. cbn [fst default] in Hnb. norm_self.
  assert (Forall (λ DI : list (list Q) * list (list Z),
            length DI.2 = length x
            ∧ Forall (Forall (λ j, - Z.of_nat (length yt) ≤ j
                                   < Z.of_nat (length yt))) DI.2) nb) as Hgood.
  { pose proof Hnb as Hrows. apply neighbors_loop_rows in Hrows.
    2:{ apply Forall_forall. intros z Hz t.
        apply zip_fst_elem_of, Hhooked in Hz.
        rewrite fire_hooks_hooked by done. intros Ht. inversion Ht; subst t.
        by rewrite length_map. }
    apply (neighbors_loop_range _ _ _ _ _ (length xt)) in Hnb.
    2:{ apply Forall_forall. intros z Hz. apply zip_snd_elem_of in Hz.
        rewrite Forall_forall in HN. by apply HN. }
    assert (nb ≠ [] → xt ≠ []) as Hne.
    { intros Hnbne. apply Hxt. intros ->. simpl in Hl.
      by destruct nb. }
    apply Forall_forall. intros DI HDI.
    rewrite Forall_forall in Hrows, Hnb. split; [by apply Hrows|].
    eapply Forall_impl; [by apply Hnb|]. simpl. intros r Hr.
    eapply Forall_impl; [exact Hr|]. simpl. intros j Hj.
    assert (xt ≠ []) as Hxtne by (apply Hne; intros ->; by apply not_elem_of_nil in HDI).
    destruct xt; [done|]. simpl in *. lia. }
  clear Hnb Hl.
  assert (∃ cc', foldlR (classify_layer yt (length x))
                   (nd_rows (np_zeros2 (length x) 10)) nb = Ok cc'
                 ∧ ten_columns (length x) cc') as (cc' & -> & _).
  { apply (foldlR_total (ten_columns (length x))).
    - intros DI cc HDI Hcc. rewrite Forall_forall in Hgood.
      destruct (Hgood DI HDI) as [Hrows Hrange].
      by apply classify_layer_total.
    - split; simpl; [by rewrite length_replicate|].
      by apply Forall_replicate. }
  rewrite bind_Ok_l. eauto.
Qed.

(** *** The histogram of classify *)

Lemma classify_layer_mismatch yt n nc cc DI Y :
  nc ≠ 10%nat → n ≠ 0%nat →
  np_take yt DI.2 = Ok Y → length Y = n →
  Forall (Forall (λ y, 0 ≤ y < 10)) Y →
  length cc = n → Forall (λ row : list Z, length row = nc) cc →
  classify_layer yt n cc DI = Raise ValueError.
Proof.
  intros Hnc Hn HY HlenY Hlabels Hlencc Hrows.
  unfold classify_layer. rewrite HY, bind_Ok_l.
  destruct n as [|n]; [done|]. simpl.
  destruct Y as [|labels Y]; [done|]. destruct cc as [|row cc]; [done|].
  unfold classify_row. simpl.
  apply Forall_cons in Hlabels as [Hlabels _].
  apply Forall_cons in Hrows as [Hrow _].
  destruct (bincount_small_labels labels Hlabels) as (h & -> & Hh).
  rewrite bind_Ok_l, np_iadd_mismatch; [done|lia|lia].
Qed.

(** C10. The histogram that [classify] adds to a row has at least 10
    entries whatever [num_classes] is: its length is the maximum of 10 and
    the largest neighbour label plus one. Hence, for a classifier
    constructed with [num_classes ≠ 10] (and at least one layer, so that
    there are neighbour labels), [classify] fails with the ValueError of a
    shape mismatch on every batch whose neighbour labels all lie in
    [0, 10). (The empty batch has no neighbour label: there the forward
    pass has failed before, with the RuntimeError of the view.) *)
Theorem histogram_has_ten_columns (m : Model X) xt yt xc yc ls k nc st0 acts x :
  DKNN_init fsqrt m xt yt xc yc ls k nc = Ok st0 →
  nc ≠ 10%nat →
  ls ≠ [] →
  let st := set_activations st0 acts in
  (∀ nb, (get_neighbors fsqrt x None None st).1 = Ok nb →
     Forall (λ DI, ∃ Y, np_take yt DI.2 = Ok Y
                        ∧ Forall (Forall (λ y, 0 ≤ y < 10)) Y) nb) →
  (∀ labels h, bincount labels 10 = Ok h →
     length h = Nat.max 10 (Z.to_nat (max_list_Z labels + 1))
     ∧ (10 ≤ length h)%nat)
  ∧ (classify fsqrt x st).1
    = Raise match x with [] => RuntimeError | _ :: _ => ValueError end.
Proof.
  intros Hinit Hnc Hls st Hlabels. split.
  { intros labels h Hh. rewrite (bincount_length _ _ _ Hh). lia. }
  destruct (DKNN_init_Ok _ _ _ _ _ _ _ _ _ Hinit)
    as (idxs & acts0 & hooked & votes & A0 & -> & Hlen & Hhooked & _).
  subst st. norm_self.
  destruct x as [|s x]; [by apply classify_empty_batch|].
  destruct (get_neighbors_built m xt yt ls k nc idxs acts hooked A0 (s :: x) None
              Hlen Hhooked ltac:(done)) as (nb & Hnb & Hl & _).
  specialize (Hlabels nb Hnb).
  rewrite classify_unfold. cbn [fst]. rewrite Hnb, bind_Ok_l. norm_self.
  destruct nb as [|DI nb]; [destruct ls; simpl in Hl; congruence|].
  apply Forall_cons in Hlabels as [(Y & HY & HYl) _].
  apply get_neighbors_Ok in Hnb as [_ Hnb]. cbn [fst default] in Hnb. norm_self.
  apply neighbors_loop_rows in Hnb.
  - apply Forall_cons in Hnb as [HDI _].
    cbn [foldlR].
    rewrite (classify_layer_mismatch yt (length (s :: x)) nc _ DI Y);
      [done|done|done|done| |done|simpl; by rewrite length_replicate|].
    + pose proof (mapR_length _ _ _ HY). congruence.
    + simpl. constructor; [|apply Forall_replicate]; by rewrite length_replicate.
  - apply Forall_forall. intros z Hz t.
    apply zip_fst_elem_of, Hhooked in Hz.
    rewrite fire_hooks_hooked by done. intros Ht. inversion Ht; subst t.
    simpl. by rewrite length_map.
Qed.

End DKNN_facts.

(** * Concrete classifiers

    The claims evaluated on small classifiers over the exhaustive index.
    Samples are vectors of two features; the child [fc] of the network
    returns its input, the child [conv1] twice its input; [fc] is the
    child that runs after the view. *)
Module Examples.
Import FlatIP.

(** The square root rounded down to seven decimals. *)
Definition float_sqrt (q : Q) : Q :=
  Z.sqrt (Qnum q * 10 ^ 14 / Z.pos (Qden q)) # 10000000.

Definition net : Model vec :=
  mk_Model ["conv1"; "relu1"; "fc"]
    (λ name s, if String.eqb name "conv1" then map (Qmult 2) s else s)
    ["conv1"; "relu1"].

Definition xt : list vec := [[1; 0]; [0; 1]; [1 # 2; 1 # 2]; [3; 4]]%Q.
Definition yt : list Z := [0; 1; 1; 2].
Definition xc : list vec := [[1; 0]; [0; 2]]%Q.
Definition yc : list Z := [0; 1].

Definition unbuilt : DKNN := mk_DKNN net [] [] [] 0 0 [] ∅ [] [].

Definition built (r : result DKNN) : DKNN :=
  match r with Ok self => self | Raise _ => unbuilt end.

(** One layer, [k = 2], ten classes, four training points, two calibration
    samples. *)
Definition demo : DKNN :=
  built (DKNN_init float_sqrt net xt yt xc yc ["fc"] 2 10).

(** Eleven classes, [k = 1]: the calibration sample has a neighbour of
    label 10, the query [[0; 1]] has not. *)
Definition eleven : DKNN :=
  built (DKNN_init float_sqrt net [[1; 0]; [0; 1]]%Q [10; 3] [[1; 0]]%Q [10]
           ["fc"] 1 11).

Definition query : list vec := [[1; 1]]%Q.

Definition built_neighbors (r : result (list (list (list Q) * list (list Z))))
    : list (list (list Q) * list (list Z)) :=
  match r with Ok nb => nb | Raise _ => [] end.

Lemma demo_built :
  DKNN_init float_sqrt net xt yt xc yc ["fc"] 2 10 = Ok demo.
Proof. vm_compute. reflexivity. Qed.

Lemma eleven_built :
  DKNN_init float_sqrt net [[1; 0]; [0; 1]]%Q [10; 3] [[1; 0]]%Q [10]
    ["fc"] 1 11 = Ok eleven.
Proof. vm_compute. reflexivity. Qed.

Example demo_A : A demo = [1; 1].
Proof. vm_compute. reflexivity. Qed.

Example demo_classify :
  (classify float_sqrt query demo).1
  = Ok {| nd_cols := 10; nd_rows := [[0; 1; 1; 0; 0; 0; 0; 0; 0; 0]] |}.
Proof. vm_compute. reflexivity. Qed.

Example demo_credibility :
  (credibility {| nd_cols := 10; nd_rows := [[0; 2; 0; 0; 0; 0; 0; 0; 0; 0]] |}
     demo).1 = Ok [Finite (2 # 2)].
Proof. vm_compute. reflexivity. Qed.

(** The calibration example of the specification: [A = [0; 1; 1; 2; 4]],
    [k * L = 6], a row whose best class has 5 votes ([a = 1]). *)
Example calibration_example :
  (credibility {| nd_cols := 2; nd_rows := [[1; 5]] |}
     (mk_DKNN net [] [] ["a"; "b"; "c"] 2 2 [] ∅ [] [0; 1; 1; 2; 4])).1
  = Ok [Finite (4 # 5)].
Proof. vm_compute. reflexivity. Qed.

(** C2 on [demo]: the row of [query] sums to [2 * 1]. *)
Lemma vote_sum_invariant_witness :
  ∃ nb, (get_neighbors float_sqrt query None None (set_activations demo ∅)).1
        = Ok nb
    ∧ length nb = 1%nat
    ∧ length [[0; 1; 1; 0; 0; 0; 0; 0; 0; 0]] = 1%nat
    ∧ Forall (λ row, sumZ row = 2 * Z.of_nat (length nb))
             [[0; 1; 1; 0; 0; 0; 0; 0; 0; 0]].
Proof.
  apply (vote_sum_invariant float_sqrt net xt yt xc yc ["fc"] 2 10 demo ∅ query
           {| nd_cols := 10; nd_rows := [[0; 1; 1; 0; 0; 0; 0; 0; 0; 0]] |}).
  - vm_compute. reflexivity.
  - vm_compute. reflexivity.
Defined.

(** C1 on [demo]. *)
Lemma nonconformity_and_credibility_witness :
  (∃ votes, (classify float_sqrt xc (set_activations demo ∅)).1 = Ok votes
     ∧ length (A (set_activations demo ∅)) = 2%nat
     ∧ ∀ i y_c, yc !! i = Some y_c →
         ∃ row v, nd_rows votes !! i = Some row
           ∧ np_getitem row y_c = Ok v
           ∧ (0 ≤ y_c → row !! Z.to_nat y_c = Some v)
           ∧ A (set_activations demo ∅) !! i = Some (2 * 1 - v))
  ∧ (∀ cc, nd_cols cc ≠ 0%nat →
       Forall (λ row, length row = nd_cols cc) (nd_rows cc) →
       ∃ creds, (credibility cc (set_activations demo ∅)).1 = Ok creds
         ∧ length creds = length (nd_rows cc)
         ∧ ∀ i row mx (S : gset nat),
             nd_rows cc !! i = Some row → is_max row mx →
             (∀ j, j ∈ S ↔ ∃ α, A (set_activations demo ∅) !! j = Some α
                                ∧ 2 * 1 - mx ≤ α) →
             creds !! i = Some (Finite (Z.of_nat (size S) # 2))).
Proof.
  apply (nonconformity_and_credibility float_sqrt net xt yt xc yc ["fc"] 2 10
           demo ∅).
  - vm_compute. reflexivity.
  - simpl. lia.
  - reflexivity.
Defined.

(** C3 on [demo]: four indexed points, [k = 5]. *)
Lemma get_neighbors_does_not_check_k_witness :
  Forall (λ idx : tensor, length idx = 4%nat) (indices demo)
  ∧ ∃ nb,
      (get_neighbors float_sqrt query (Some 5%nat) None
         (set_activations demo ∅)).1 = Ok nb
      ∧ length nb = 1%nat
      ∧ Forall (λ DI, length DI.2 = 1%nat
                      ∧ Forall (λ r : list Z, length r = 5%nat) DI.2) nb.
Proof.
  apply (get_neighbors_does_not_check_k float_sqrt net xt yt xc yc ["fc"] 2 10
           demo ∅ query 5).
  - vm_compute. reflexivity.
  - discriminate.
Defined.

(** C3 as stated fails: with four indexed points and [k = 5] the call
    returns, the missing neighbour padded with [-1]. *)
Lemma degenerate_k_counterexample :
  Forall (λ idx : tensor, ntotal idx = 4%nat) (indices demo)
  ∧ snd <$> built_neighbors
      (get_neighbors float_sqrt query (Some 5%nat) None demo).1
    = [[[3; 2; 1; 0; -1]]]
  ∧ is_ok (get_neighbors float_sqrt query (Some 5%nat) None demo).1 = true
  ∧ (get_neighbors float_sqrt query (Some 5%nat) None demo).1
    ≠ Raise (Exn "DegenerateIndexError").
Proof.
  split; [|split; [|split]].
  - vm_compute. repeat constructor.
  - vm_compute. reflexivity.
  - vm_compute. reflexivity.
  - intros H.
    assert (is_ok (get_neighbors float_sqrt query (Some 5%nat) None demo).1
            = false) as Hf by (by rewrite H).
    vm_compute in Hf. discriminate.
Qed.

(** C5 on [net]: the hook count is right and [fc] is a child. *)
Lemma empty_calibration_set_witness :
  DKNN_init float_sqrt net xt yt [] [] ["fc"] 2 10
  ≠ Raise (Exn "EmptyCalibrationSetError")
  ∧ (∀ st, DKNN_init float_sqrt net xt yt [] [] ["fc"] 2 10 ≠ Ok st)
  ∧ (∃ e, DKNN_init float_sqrt net xt yt [] [] ["fc"] 2 10 = Raise e
          ∧ e ∈ [AssertionError; KeyError; RuntimeError])
  ∧ DKNN_init float_sqrt net xt yt [] [] ["fc"] 2 10 = Raise RuntimeError.
Proof.
  destruct (empty_calibration_set float_sqrt net xt yt [] ["fc"] 2 10)
    as (H1 & H2 & H3 & H4).
  split; [exact H1|]. split; [exact H2|]. split; [exact H3|].
  apply H4.
  - reflexivity.
  - intros l Hl. apply elem_of_cons in Hl as [->|Hl];
      [|by apply not_elem_of_nil in Hl].
    unfold net, named_children. apply elem_of_cons. right.
    apply elem_of_cons. right. apply elem_of_cons. by left.
Defined.

(** C5 as stated fails: with an empty calibration set the construction
    raises the RuntimeError of the forward pass on the empty batch, which
    is not EmptyCalibrationSetError. *)
Lemma empty_calibration_counterexample :
  DKNN_init float_sqrt net xt yt [] [] ["fc"] 2 10 = Raise RuntimeError
  ∧ DKNN_init float_sqrt net xt yt [] [] ["fc"] 2 10
    ≠ Raise (Exn "EmptyCalibrationSetError").
Proof.
  assert (DKNN_init float_sqrt net xt yt [] [] ["fc"] 2 10 = Raise RuntimeError)
    as H by (vm_compute; reflexivity).
  split; [done|]. by rewrite H.
Qed.

(** C6 as stated fails: a request for a layer that is not configured
    returns the empty list of results. *)
Lemma unknown_layer_counterexample :
  (get_neighbors float_sqrt query None (Some ["no_such_layer"]) demo).1 = Ok []
  ∧ (get_neighbors float_sqrt query None (Some ["no_such_layer"]) demo).1
    ≠ Raise (Exn "UnknownLayerError").
Proof.
  assert ((get_neighbors float_sqrt query None (Some ["no_such_layer"]) demo).1
          = Ok []) as H by (vm_compute; reflexivity).
  split; [done|]. by rewrite H.
Qed.

(** C7 on [demo]. *)
Lemma credibility_monotone_witness :
  (nd_cols {| nd_cols := 2; nd_rows := [[2; 0]; [1; 1]] |} ≠ 0%nat →
   Forall (λ row : list Z, length row = 2%nat) [[2; 0]; [1; 1]] →
   ∃ creds,
     (credibility {| nd_cols := 2; nd_rows := [[2; 0]; [1; 1]] |}
        (set_activations demo ∅)).1 = Ok creds)
  ∧ ∀ creds,
      (credibility {| nd_cols := 2; nd_rows := [[2; 0]; [1; 1]] |}
         (set_activations demo ∅)).1 = Ok creds →
      length creds = 2%nat
      ∧ ∀ i j r1 r2 m1 m2 c1 c2,
          [[2; 0]; [1; 1]] !! i = Some r1 → [[2; 0]; [1; 1]] !! j = Some r2 →
          is_max r1 m1 → is_max r2 m2 →
          creds !! i = Some c1 → creds !! j = Some c2 →
          (2 * 1 - m1 < 2 * 1 - m2 → np_le c2 c1)
          ∧ (2 * 1 - m1 = 2 * 1 - m2 → np_eq c1 c2).
Proof.
  apply (credibility_monotone float_sqrt net xt yt xc yc ["fc"] 2 10 demo ∅
           {| nd_cols := 2; nd_rows := [[2; 0]; [1; 1]] |}).
  vm_compute. reflexivity.
Defined.

(** C8 on [demo]. *)
Lemma credibility_in_unit_interval_witness :
  (nd_cols {| nd_cols := 2; nd_rows := [[2; 0]; [1; 1]] |} ≠ 0%nat →
   Forall (λ row : list Z, length row = 2%nat) [[2; 0]; [1; 1]] →
   ∃ creds,
     (credibility {| nd_cols := 2; nd_rows := [[2; 0]; [1; 1]] |}
        (set_activations demo ∅)).1 = Ok creds)
  ∧ ∀ creds,
      (credibility {| nd_cols := 2; nd_rows := [[2; 0]; [1; 1]] |}
         (set_activations demo ∅)).1 = Ok creds →
      length creds = 2%nat ∧ Forall in_unit_interval creds.
Proof.
  apply (credibility_in_unit_interval float_sqrt net xt yt xc yc ["fc"] 2 10
           demo ∅ {| nd_cols := 2; nd_rows := [[2; 0]; [1; 1]] |}).
  vm_compute. reflexivity.
Defined.

(** C10 on [eleven]: the neighbour of [[0; 1]] has label 3. *)
Lemma histogram_has_ten_columns_witness :
  (∀ labels h, bincount labels 10 = Ok h →
     length h = Nat.max 10 (Z.to_nat (max_list_Z labels + 1))
     ∧ (10 ≤ length h)%nat)
  ∧ (classify float_sqrt [[0; 1]]%Q (set_activations eleven ∅)).1
    = Raise ValueError.
Proof.
  apply (histogram_has_ten_columns float_sqrt net [[1; 0]; [0; 1]]%Q [10; 3]
           [[1; 0]]%Q [10] ["fc"] 1 11 eleven ∅ [[0; 1]]%Q).
  - vm_compute. reflexivity.
  - lia.
  - discriminate.
  - intros nb Hnb. vm_compute in Hnb. inversion Hnb; subst nb.
    repeat constructor. exists [[3]]. split; [reflexivity|].
    repeat constructor; lia.
Defined.

(** C4. [renorm] only bounds the norm: a representation whose norm is below
    1 reaches the index as it is. The training sample [[1/2; 1/2]] of
    [demo], of squared norm [1/2], is stored unchanged, and the query
    [[1/2; 0]], of squared norm [1/4], is searched unchanged. *)
Theorem renorm_keeps_short_vectors :
  renorm float_sqrt [[1 # 2; 1 # 2]; [1 # 2; 0]]%Q
  = [[1 # 2; 1 # 2]; [1 # 2; 0]]%Q
  ∧ (normsq [1 # 2; 1 # 2] == 1 # 2)%Q
  ∧ (normsq [1 # 2; 0] == 1 # 4)%Q
  ∧ (indices demo : list tensor) !! 0%nat ≫= (λ idx, idx !! 2%nat)
    = Some [1 # 2; 1 # 2]%Q.
Proof.
  split; [vm_compute; reflexivity|]. split; [reflexivity|].
  split; [reflexivity|]. vm_compute. reflexivity.
Qed.

End Examples.

(** * Further properties of the class DKNN *)

(** The labels of the neighbours that [classify] reads off [nb]:
    [y_train[I]] for every queried layer. *)
Definition neighbour_labels (y_train : list Z)
    (nb : list (list (list Q) * list (list Z))) : result (list (list (list Z))) :=
  mapR (λ DI, np_take y_train DI.2) nb.

(** The number of neighbours of sample [i] with label [c], over all layers. *)
Definition neighbours_with_label (Ys : list (list (list Z))) (i : nat) (c : Z) : Z :=
  sumZ (map (λ Y : list (list Z), count_eq c (default [] (Y !! i))) Ys).

Section DKNN_more.
Context {X : Type} `{FI : FaissIndex}.
Variable fsqrt : Q → Q.

Local Abbreviation DKNN := (@DKNN X FI).

Ltac norm_obj :=
  unfold set_activations, set_indices, set_A in *;
  cbn [model x_train y_train layers k num_classes indices activations hooks A]
    in *.

(** ** What a cell of the vote matrix counts *)

Lemma bincount_lookup l m h c v :
  bincount l m = Ok h → h !! c = Some v → v = count_eq (Z.of_nat c) l.
Proof.
  unfold bincount. destruct (forallb _ l); [|discriminate].
  intros [= <-] Hc. rewrite list_lookup_fmap in Hc.
  destruct (seq 0 _ !! c) as [c'|] eqn:Hs; [|discriminate].
  apply lookup_seq in Hs as [-> _]. simpl in Hc. by inversion Hc.
Qed.

Lemma np_iadd_lookup row bc row' c v' :
  (2 ≤ length bc)%nat → np_iadd row bc = Ok row' → row' !! c = Some v' →
  ∃ v b, row !! c = Some v ∧ bc !! c = Some b ∧ v' = v + b.
Proof.
  unfold np_iadd. intros Hbc. destruct (decide _) as [Hlen|Hlen].
  - intros [= <-] Hc. apply lookup_zip_with_Some in Hc as (v & b & -> & ? & ?).
    eauto.
  - destruct bc as [|b [|b' bc]]; simpl in Hbc; [lia|lia|discriminate].
Qed.

Lemma count_eq_nonneg c l : 0 ≤ count_eq c l.
Proof. unfold count_eq. lia. Qed.

Lemma classify_row_cells Y n (base : nat → nat → Z) cc cc' :
  length cc = n →
  (∀ i row c v, cc !! i = Some row → row !! c = Some v → v = base i c) →
  foldlR (classify_row Y) cc (seq 0 n) = Ok cc' →
  length cc' = n
  ∧ ∀ i row c v, cc' !! i = Some row → row !! c = Some v →
      v = base i c + count_eq (Z.of_nat c) (default [] (Y !! i)).
Proof.
  intros Hlen Hbase Hloop.
  pose (P := λ (j : nat) (d : list (list Z)),
    length d = n ∧ ∀ i row c v, d !! i = Some row → row !! c = Some v →
      v = base i c + if decide (i < j)%nat
                     then count_eq (Z.of_nat c) (default [] (Y !! i)) else 0).
  assert (P (length (seq 0 n)) cc') as [Hl Hcells].
  { eapply (foldlR_invariant P); [|split; [done|]|exact Hloop].
    - intros j a d d' Hj [Hdl Hd] Hstep.
      apply lookup_seq in Hj as [-> Hjn]. simpl in *.
      unfold classify_row in Hstep.
      destruct (Y !! j) as [labels|] eqn:Hlab; [|discriminate].
      destruct (d !! j) as [row|] eqn:Hrow; [|discriminate].
      apply bind_Ok in Hstep as (bc & Hbc & Hstep).
      apply bind_Ok in Hstep as (row' & Hadd & Hstep).
      inversion Hstep; subst d'.
      split; [by rewrite length_insert|].
      intros i r c v Hi Hc. destruct (decide (i = j)) as [->|Hne].
      + rewrite list_lookup_insert_eq in Hi by (by eapply lookup_lt_Some).
        inversion Hi; subst r. rewrite decide_True by lia.
        pose proof (bincount_length _ _ _ Hbc) as Hbl.
        assert (2 ≤ length bc)%nat as Hbc2 by lia.
        destruct (np_iadd_lookup _ _ _ _ _ Hbc2 Hadd Hc)
          as (v0 & b & Hv0 & Hb & ->).
        rewrite (Hd _ _ _ _ Hrow Hv0), decide_False by lia.
        rewrite (bincount_lookup _ _ _ _ _ Hbc Hb), Hlab. simpl. lia.
      + rewrite list_lookup_insert_ne in Hi by done.
        rewrite (Hd _ _ _ _ Hi Hc). repeat destruct (decide _); lia.
    - intros i row c v Hi Hc. rewrite decide_False by lia.
      rewrite (Hbase _ _ _ _ Hi Hc). lia. }
  rewrite length_seq in Hcells. split; [done|].
  intros i row c v Hi Hc. rewrite (Hcells _ _ _ _ Hi Hc), decide_True; [done|].
  apply lookup_lt_Some in Hi. lia.
Qed.

Lemma classify_layers_cells yt n nb : ∀ (base : nat → nat → Z) cc cc',
  length cc = n →
  (∀ i row c v, cc !! i = Some row → row !! c = Some v → v = base i c) →
  foldlR (classify_layer yt n) cc nb = Ok cc' →
  ∃ Ys, neighbour_labels yt nb = Ok Ys
    ∧ length cc' = n
    ∧ ∀ i row c v, cc' !! i = Some row → row !! c = Some v →
        v = base i c + neighbours_with_label Ys i (Z.of_nat c).
Proof.
  induction nb as [|DI nb IH]; intros base cc cc' Hlen Hbase Hloop;
    simpl in Hloop.
  - inversion Hloop; subst cc'. exists []. split; [done|]. split; [done|].
    intros i row c v Hi Hc. rewrite (Hbase _ _ _ _ Hi Hc).
    unfold neighbours_with_label. simpl. lia.
  - apply bind_Ok in Hloop as (cc1 & Hlayer & Hloop).
    unfold classify_layer in Hlayer.
    apply bind_Ok in Hlayer as (Y & HY & Hrows).
    destruct (classify_row_cells _ _ _ _ _ Hlen Hbase Hrows) as [Hl1 Hc1].
    destruct (IH _ _ _ Hl1 Hc1 Hloop) as (Ys & HYs & Hl & Hcells).
    exists (Y :: Ys). split.
    { unfold neighbour_labels in *. simpl. rewrite HY. simpl.
      rewrite HYs. done. }
    split; [done|]. intros i row c v Hi Hc.
    rewrite (Hcells _ _ _ _ Hi Hc). unfold neighbours_with_label. simpl. lia.
Qed.

Lemma classify_cells x (self : DKNN) votes :
  (classify fsqrt x self).1 = Ok votes →
  ∃ nb Ys,
    (get_neighbors fsqrt x None None self).1 = Ok nb
    ∧ neighbour_labels (y_train self) nb = Ok Ys
    ∧ ∀ i row c v, nd_rows votes !! i = Some row → row !! c = Some v →
        v = neighbours_with_label Ys i (Z.of_nat c).
Proof.
  rewrite classify_unfold. cbn [fst]. intros H.
  apply bind_Ok in H as (nb & Hnb & H).
  apply bind_Ok in H as (rows & Hrows & H). inversion H; subst votes; clear H.
  assert (∀ i row (c : nat) v,
            nd_rows (np_zeros2 (length x) (num_classes self)) !! i = Some row →
            row !! c = Some v → v = (λ _ _ : nat, 0) i c) as Hzero.
  { simpl. intros i row c v Hi Hc.
    apply lookup_replicate in Hi as [-> _].
    by apply lookup_replicate in Hc as [-> _]. }
  destruct (classify_layers_cells _ _ _ _ _ _
              (length_replicate _ _) Hzero Hrows)
    as (Ys & HYs & _ & Hcells).
  exists nb, Ys. split; [done|]. split; [done|]. simpl.
  intros i row c v Hi Hc. rewrite (Hcells _ _ _ _ Hi Hc). lia.
Qed.

(** X1. Every cell [votes[i][c]] of the matrix that [classify] returns is
    the number of neighbours of sample [i], over all queried layers, whose
    training label is [c]. *)
Theorem classify_counts_neighbours x (self : DKNN) votes :
  (classify fsqrt x self).1 = Ok votes →
  ∃ nb Ys,
    (get_neighbors fsqrt x None None self).1 = Ok nb
    ∧ neighbour_labels (y_train self) nb = Ok Ys
    ∧ ∀ i row c v, nd_rows votes !! i = Some row → row !! c = Some v →
        v = neighbours_with_label Ys i (Z.of_nat c).
Proof. apply classify_cells. Qed.

(** ** Bounds on votes and on nonconformity *)

Lemma neighbours_with_label_nonneg Ys i c : 0 ≤ neighbours_with_label Ys i c.
Proof.
  unfold neighbours_with_label. induction Ys as [|Y Ys IH]; simpl; [lia|].
  pose proof (count_eq_nonneg c (default [] (Y !! i))). lia.
Qed.

Lemma classify_cells_nonneg x (self : DKNN) votes :
  (classify fsqrt x self).1 = Ok votes →
  Forall (Forall (λ v, 0 ≤ v)) (nd_rows votes).
Proof.
  intros H. destruct (classify_cells _ _ _ H) as (nb & Ys & _ & _ & Hcells).
  apply Forall_forall. intros row Hrow. apply Forall_forall. intros v Hv.
  apply list_elem_of_lookup in Hrow as [i Hi].
  apply list_elem_of_lookup in Hv as [c Hc].
  rewrite (Hcells _ _ _ _ Hi Hc). apply neighbours_with_label_nonneg.
Qed.

Lemma elem_le_sumZ row v : Forall (λ w, 0 ≤ w) row → v ∈ row → v ≤ sumZ row.
Proof.
  induction 1 as [|w row Hw Hrow IH]; intros Hv.
  - by apply not_elem_of_nil in Hv.
  - assert (0 ≤ sumZ row).
    { clear -Hrow. induction Hrow; simpl; lia. }
    apply elem_of_cons in Hv as [->|Hv]; simpl; [lia|].
    specialize (IH Hv). lia.
Qed.

(** For an object whose indices are paired with its layers, the rows of
    [classify] hold [k * L] votes, each cell between 0 and [k * L]. *)
Lemma classify_built_rows (m : Model X) xt yt ls k nc idxs acts hooked A0 x votes :
  length idxs = length ls →
  (classify fsqrt x (mk_DKNN m xt yt ls k nc idxs acts hooked A0)).1 = Ok votes →
  length (nd_rows votes) = length x
  ∧ Forall (λ row, length row = nc
                   ∧ sumZ row = Z.of_nat k * Z.of_nat (length ls)
                   ∧ Forall (λ v, 0 ≤ v ≤ Z.of_nat k * Z.of_nat (length ls)) row)
           (nd_rows votes).
Proof.
  intros Hlen Hcl.
  pose proof (classify_cells_nonneg _ _ _ Hcl) as Hpos.
  destruct (classify_Ok _ _ _ _ Hcl) as (nb & Hnb & _ & Hrows & Hsum).
  norm_obj. split; [done|].
  apply get_neighbors_Ok in Hnb as [_ Hnb]. cbn [fst default] in Hnb. norm_obj.
  destruct (neighbors_loop_Ok _ _ _ _ _ _ _ Hnb) as (Hl & _).
  rewrite zip_layers_all_requested, length_zip in Hl.
  replace (length ls `min` length idxs)%nat with (length ls) in Hl by lia.
  rewrite Hl in Hsum.
  assert (Forall (λ row : list Z, length row = nc) (nd_rows votes)) as Hcols.
  { clear -Hcl. rewrite classify_unfold in Hcl. cbn [fst] in Hcl.
    apply bind_Ok in Hcl as (nb & _ & Hcl).
    apply bind_Ok in Hcl as (rows & Hloop & Hcl). inversion Hcl; subst votes.
    norm_obj. simpl.
    revert Hloop. generalize (length x). intros n.
    assert (Forall (λ row : list Z, length row = nc)
              (nd_rows (np_zeros2 n nc))) as H0.
    { simpl. apply Forall_replicate. by rewrite length_replicate. }
    revert H0. generalize (nd_rows (np_zeros2 n nc)). intros cc Hcc. revert cc Hcc.
    induction nb as [|DI nb IH]; intros cc Hcc Hloop; simpl in Hloop.
    - by inversion Hloop; subst.
    - apply bind_Ok in Hloop as (cc1 & Hlayer & Hloop).
      apply (IH cc1); [|done]. clear IH Hloop.
      unfold classify_layer in Hlayer.
      apply bind_Ok in Hlayer as (Y & _ & Hrows).
      eapply (foldlR_invariant (λ _ d, Forall (λ row : list Z, length row = nc) d));
        [|exact Hcc|exact Hrows].
      intros j a d d' _ Hd Hstep. unfold classify_row in Hstep.
      destruct (Y !! a) as [labels|]; [|discriminate].
      destruct (d !! a) as [row|] eqn:Hrow; [|discriminate].
      apply bind_Ok in Hstep as (bc & _ & Hstep).
      apply bind_Ok in Hstep as (row' & Hadd & Hstep).
      inversion Hstep; subst d'. apply Forall_insert; [done|].
      rewrite Forall_forall in Hd.
      assert (length row = nc) as Hr
        by (apply Hd; by eapply list_elem_of_lookup_2).
      unfold np_iadd in Hadd. destruct (decide _) as [Hl|Hl].
      + inversion Hadd. rewrite length_zip_with. lia.
      + destruct bc as [|b [|b' bc]]; inversion Hadd.
        by rewrite length_map. }
  apply Forall_forall. intros row Hrow.
  rewrite Forall_forall in Hcols, Hsum, Hpos.
  split; [by apply Hcols|]. split; [by apply Hsum|].
  apply Forall_forall. intros v Hv. split.
  - specialize (Hpos row Hrow). rewrite Forall_forall in Hpos. by apply Hpos.
  - rewrite <- (Hsum row Hrow). by apply elem_le_sumZ; [apply Hpos|].
Qed.

(** X2. On a constructed classifier with parameter [k] and [L] layers,
    every cell of the matrix that [classify] returns lies between 0 and
    [k * L], and every row has [num_classes] cells. *)
Theorem vote_cells_bounded (m : Model X) xt yt xc yc ls k nc st0 acts x votes :
  DKNN_init fsqrt m xt yt xc yc ls k nc = Ok st0 →
  (classify fsqrt x (set_activations st0 acts)).1 = Ok votes →
  Forall (λ row, length row = nc
                 ∧ Forall (λ v, 0 ≤ v ≤ Z.of_nat k * Z.of_nat (length ls)) row)
         (nd_rows votes).
Proof.
  intros Hinit Hcl.
  destruct (DKNN_init_Ok _ _ _ _ _ _ _ _ _ _ Hinit)
    as (idxs & acts0 & hooked & votes0 & A0 & -> & Hlen & _).
  norm_obj. destruct (classify_built_rows _ _ _ _ _ _ _ _ _ _ _ _ Hlen Hcl)
    as [_ Hrows].
  eapply Forall_impl; [exact Hrows|]. simpl. tauto.
Qed.

(** The entries of the nonconformity array of a constructed classifier. *)
Lemma nonconformity_entries (m : Model X) xt yt xc yc ls k nc st0 :
  DKNN_init fsqrt m xt yt xc yc ls k nc = Ok st0 →
  ∃ votes, (∀ acts, (classify fsqrt xc (set_activations st0 acts)).1 = Ok votes)
    ∧ length (nd_rows votes) = length xc
    ∧ Forall (λ row, length row = nc
                     ∧ Forall (λ v, 0 ≤ v ≤ Z.of_nat k * Z.of_nat (length ls)) row)
             (nd_rows votes)
    ∧ length (A st0) = length xc
    ∧ ∀ j a, A st0 !! j = Some a →
        (∃ y_c row v, yc !! j = Some y_c ∧ nd_rows votes !! j = Some row
                      ∧ np_getitem row y_c = Ok v
                      ∧ a = Z.of_nat k * Z.of_nat (length ls) - v)
        ∨ ((length yc ≤ j)%nat ∧ a = Z.of_nat k * Z.of_nat (length ls)).
Proof.
  intros Hinit.
  pose proof (DKNN_init_A_length _ _ _ _ _ _ _ _ _ _ Hinit) as HlenA.
  destruct (DKNN_init_Ok _ _ _ _ _ _ _ _ _ _ Hinit)
    as (idxs & acts0 & hooked & votes & A0 & -> & Hlen & _ & _ & Hcl & Hcal).
  norm_obj. exists votes.
  destruct (classify_built_rows _ _ _ _ _ _ _ _ _ _ _ _ Hlen (Hcl xt acts0 A0))
    as [Hn Hrows].
  split; [intros acts; apply Hcl|]. split; [done|]. split.
  { eapply Forall_impl; [exact Hrows|]. simpl. tauto. }
  split; [done|].
  apply calibration_loop_Ok in Hcal as (_ & Hout & Hin);
    [|rewrite length_replicate, length_zip; lia].
  intros j a Hj.
  assert (j < length xc)%nat as Hjn by (apply lookup_lt_Some in Hj; lia).
  destruct (decide (j < length yc)%nat) as [Hlt|Hge].
  - left.
    destruct (lookup_lt_is_Some_2 yc j Hlt) as [y_c Hyc].
    destruct (lookup_lt_is_Some_2 (nd_rows votes) j) as [row Hrow]; [lia|].
    destruct (Hin j y_c row (Z.of_nat k * Z.of_nat (length ls)))
      as (v & Hv & HA).
    + apply lookup_zip_with_Some. eauto.
    + by apply lookup_replicate_2.
    + simpl in HA. rewrite Hj in HA. inversion HA; subst a.
      exists y_c, row, v. done.
  - right. split; [lia|].
    rewrite Hout in Hj by (rewrite length_zip; simpl; lia).
    by apply lookup_replicate in Hj as [-> _].
Qed.

(** X3. Every entry of the nonconformity array of a constructed classifier
    lies between 0 and [k * L]. *)
Theorem nonconformity_bounded (m : Model X) xt yt xc yc ls k nc st0 :
  DKNN_init fsqrt m xt yt xc yc ls k nc = Ok st0 →
  Forall (λ a, 0 ≤ a ≤ Z.of_nat k * Z.of_nat (length ls)) (A st0).
Proof.
  intros Hinit.
  destruct (nonconformity_entries _ _ _ _ _ _ _ _ _ Hinit)
    as (votes & _ & _ & Hrows & _ & Hentries).
  apply Forall_forall. intros a Ha. apply list_elem_of_lookup in Ha as [j Hj].
  destruct (Hentries j a Hj) as [(y_c & row & v & _ & Hrow & Hv & ->)|[_ ->]];
    [|lia].
  apply np_getitem_elem_of in Hv. rewrite Forall_forall in Hrows.
  destruct (Hrows row) as [_ Hcells]; [by eapply list_elem_of_lookup_2|].
  rewrite Forall_forall in Hcells. specialize (Hcells v Hv). lia.
Qed.

(** X4. Labels and inputs of the calibration set are paired by [zip]: when
    there are fewer labels than inputs, the entries of [A] of the inputs
    without label keep the initial value [k * L]. *)
Theorem unlabelled_calibration_inputs (m : Model X) xt yt xc yc ls k nc st0 j :
  DKNN_init fsqrt m xt yt xc yc ls k nc = Ok st0 →
  (length yc ≤ j < length xc)%nat →
  A st0 !! j = Some (Z.of_nat k * Z.of_nat (length ls)).
Proof.
  intros Hinit [Hge Hlt].
  destruct (nonconformity_entries _ _ _ _ _ _ _ _ _ Hinit)
    as (votes & _ & _ & _ & HlenA & Hentries).
  destruct (lookup_lt_is_Some_2 (A st0) j) as [a Ha]; [lia|].
  destruct (Hentries j a Ha) as [(y_c & _ & _ & Hyc & _)|[_ ->]]; [|done].
  apply lookup_lt_Some in Hyc. lia.
Qed.

Lemma np_getitem_Ok_range {B} (a : list B) i v :
  np_getitem a i = Ok v → - Z.of_nat (length a) ≤ i < Z.of_nat (length a).
Proof.
  unfold np_getitem. destruct (i <? 0) eqn:Hneg;
    destruct (_ && _) eqn:Hin; try discriminate; intros _; lia.
Qed.

(** X5. A classifier is constructed only if every calibration label that is
    paired with an input is a valid index of a row of [num_classes] vote
    counts: it lies in [-num_classes, num_classes). *)
Theorem calibration_labels_in_range (m : Model X) xt yt xc yc ls k nc st0 j y_c :
  DKNN_init fsqrt m xt yt xc yc ls k nc = Ok st0 →
  yc !! j = Some y_c → (j < length xc)%nat →
  - Z.of_nat nc ≤ y_c < Z.of_nat nc.
Proof.
  intros Hinit Hyc Hj.
  destruct (nonconformity_entries _ _ _ _ _ _ _ _ _ Hinit)
    as (votes & _ & _ & Hrows & HlenA & Hentries).
  destruct (lookup_lt_is_Some_2 (A st0) j) as [a Ha]; [lia|].
  destruct (Hentries j a Ha) as [(y & row & v & Hy & Hrow & Hv & _)|[Hge _]].
  - rewrite Hyc in Hy. inversion Hy; subst y.
    apply np_getitem_Ok_range in Hv. rewrite Forall_forall in Hrows.
    destruct (Hrows row) as [Hlen _]; [by eapply list_elem_of_lookup_2|].
    lia.
  - apply lookup_lt_Some in Hyc. lia.
Qed.

(** ** Credibility of a unanimous vote *)

Lemma count_ge_all A a : Forall (λ α, a ≤ α) A → count_ge A a = Z.of_nat (length A).
Proof.
  intros HA. unfold count_ge. f_equal. f_equal.
  induction HA as [|α A Hα _ IH]; [done|].
  rewrite filter_cons, decide_True by done. by rewrite IH.
Qed.

(** X6. On a classifier constructed with at least one calibration sample, a
    row in which one class has all [k * L] votes has credibility 1. *)
Theorem unanimous_vote_credibility (m : Model X) xt yt xc yc ls k nc st0 acts
    cc maxes :
  DKNN_init fsqrt m xt yt xc yc ls k nc = Ok st0 →
  xc ≠ [] →
  np_max_axis1 cc = Ok maxes →
  ∃ creds, (credibility cc (set_activations st0 acts)).1 = Ok creds
    ∧ ∀ i mx c, maxes !! i = Some mx → creds !! i = Some c →
        Z.of_nat k * Z.of_nat (length ls) ≤ mx → np_eq c (Finite 1).
Proof.
  intros Hinit Hxc Hmax.
  pose proof (nonconformity_entries _ _ _ _ _ _ _ _ _ Hinit)
    as (_ & _ & _ & _ & HlenA & _).
  assert (Forall (λ a, 0 ≤ a ≤ Z.of_nat k * Z.of_nat (length ls)) (A st0))
    as Hbounds.
  { destruct (nonconformity_entries _ _ _ _ _ _ _ _ _ Hinit)
      as (votes & _ & _ & Hrows & _ & Hentries).
    apply Forall_forall. intros a Ha. apply list_elem_of_lookup in Ha as [j Hj].
    destruct (Hentries j a Hj) as [(y_c & row & v & _ & Hrow & Hv & ->)|[_ ->]];
      [|lia].
    apply np_getitem_elem_of in Hv. rewrite Forall_forall in Hrows.
    destruct (Hrows row) as [_ Hcells]; [by eapply list_elem_of_lookup_2|].
    rewrite Forall_forall in Hcells. specialize (Hcells v Hv). lia. }
  destruct (DKNN_init_Ok _ _ _ _ _ _ _ _ _ _ Hinit)
    as (idxs & acts0 & hooked & votes & A0 & -> & _).
  rewrite (credibility_unfold _ _ _ Hmax). norm_obj.
  eexists. split; [done|]. intros i mx c Hi Hc Hmx.
  rewrite list_lookup_fmap, Hi in Hc. simpl in Hc. inversion Hc; subst c.
  assert (length A0 ≠ 0%nat) as Hn by (rewrite HlenA; by destruct xc).
  rewrite count_ge_all.
  2:{ eapply Forall_impl; [exact Hbounds|]. simpl. intros; lia. }
  rewrite np_div_pos by done. unfold np_eq, Qeq. simpl.
  rewrite Zpos_of_nat by done. lia.
Qed.

(** ** Calls do not depend on earlier calls *)

Lemma run_calls_activations (calls : list call) (self : DKNN) :
  ∃ acts, run_calls fsqrt calls self = set_activations self acts.
Proof.
  unfold run_calls. revert self.
  induction calls as [|c calls IH]; intros self; simpl.
  - exists (activations self). by destruct self.
  - destruct (IH (run_call fsqrt c self)) as [acts ->].
    exists acts. by destruct c, self.
Qed.

(** X7. On a constructed classifier the results of [get_neighbors],
    [classify] and [credibility] do not depend on the calls made before:
    after any sequence of calls they are what they are on the classifier
    as constructed. *)
Theorem results_independent_of_history (m : Model X) xt yt xc yc ls k nc st0
    (calls : list call) x k_arg layers_arg cc :
  DKNN_init fsqrt m xt yt xc yc ls k nc = Ok st0 →
  let st := run_calls fsqrt calls st0 in
  (get_neighbors fsqrt x k_arg layers_arg st).1
  = (get_neighbors fsqrt x k_arg layers_arg st0).1
  ∧ (classify fsqrt x st).1 = (classify fsqrt x st0).1
  ∧ (credibility cc st).1 = (credibility cc st0).1.
Proof.
  intros Hinit st. subst st.
  destruct (run_calls_activations calls st0) as [acts ->].
  destruct (DKNN_init_Ok _ _ _ _ _ _ _ _ _ _ Hinit)
    as (idxs & acts0 & hooked & votes & A0 & -> & _ & Hhooked & _).
  norm_obj. split; [by apply get_neighbors_frozen|].
  split; [by apply classify_frozen|done].
Qed.

(** ** Queries on a subset of the layers *)

Lemma neighbors_loop_requested reps n k (all_req req : list string) ls :
  ∀ (idxs : list index) all,
  (∀ l, l ∈ ls → l ∈ all_req) →
  neighbors_loop fsqrt reps n k all_req (zip ls idxs) = Ok all →
  neighbors_loop fsqrt reps n k req (zip ls idxs)
  = Ok (snd <$> filter (λ p, p.1 ∈ req) (zip ls all)).
Proof.
  induction ls as [|l ls IH]; intros idxs all Hall H.
  { simpl in H. by inversion H. }
  destruct idxs as [|idx idxs]; [simpl in H; by inversion H|]. simpl in H.
  rewrite decide_True in H by (apply Hall; by left).
  apply bind_Ok in H as (rep0 & Hrep0 & H).
  apply bind_Ok in H as (rep & Hrep & H).
  apply bind_Ok in H as (out & Hout & H). inversion H; subst all; clear H.
  specialize (IH idxs out ltac:(intros; apply Hall; by right) Hout).
  simpl. rewrite filter_cons. simpl.
  destruct (decide (l ∈ req)); [|done].
  rewrite Hrep0. simpl. rewrite Hrep. simpl. by rewrite IH.
Qed.

(** X8. A query restricted to some layer names returns the results of the
    query on all layers for the configured layers among these names, in the
    order of the configured layers. *)
Theorem get_neighbors_on_requested_layers (self : DKNN) x k_arg requested all :
  (get_neighbors fsqrt x k_arg None self).1 = Ok all →
  (get_neighbors fsqrt x k_arg (Some requested) self).1
  = Ok (snd <$> filter (λ p, p.1 ∈ requested) (zip (layers self) all)).
Proof.
  intros Hall. apply get_neighbors_Ok in Hall as [Hx Hall].
  rewrite get_neighbors_nonempty by done. simpl in *.
  by eapply neighbors_loop_requested.
Qed.

(** ** The empty batch *)

(** X9. A query with an empty batch fails in the forward pass of the
    network: on every object, whatever [k] and layers are requested,
    [get_neighbors] and [classify] raise the RuntimeError of the view, and
    no index is searched. The constructor queries the training set and the
    calibration set: a classifier is constructed only if neither is empty,
    and its nonconformity array is then not empty. *)
Theorem empty_batch_raises (self : DKNN) k_arg layers_arg
    (m : Model X) xt yt xc yc ls k nc :
  (get_neighbors fsqrt [] k_arg layers_arg self).1 = Raise RuntimeError
  ∧ (classify fsqrt [] self).1 = Raise RuntimeError
  ∧ ∀ st, DKNN_init fsqrt m xt yt xc yc ls k nc = Ok st →
      xt ≠ [] ∧ xc ≠ [] ∧ length (A st) = length xc ∧ A st ≠ [].
Proof.
  split; [done|]. split; [done|]. intros st Hinit.
  destruct (DKNN_init_nonempty _ _ _ _ _ _ _ _ _ _ Hinit) as [Hxt Hxc].
  split; [done|]. split; [done|].
  split; [by eapply DKNN_init_A_length|by eapply DKNN_init_A_nonempty].
Qed.

(** ** The constructor: errors *)

Lemma hooked_children_spec (m : Model X) ls :
  NoDup (named_children m) →
  NoDup (hooked_children m ls)
  ∧ ∀ l, l ∈ hooked_children m ls ↔ l ∈ named_children m ∧ l ∈ ls.
Proof.
  intros Hnd. unfold hooked_children. split; [by apply NoDup_filter|].
  intros l. rewrite list_elem_of_filter. tauto.
Qed.

Lemma hook_count_passes (m : Model X) ls :
  NoDup (named_children m) →
  length (hooked_children m ls) = length ls ↔
  NoDup ls ∧ ∀ l, l ∈ ls → l ∈ named_children m.
Proof.
  intros Hnd. destruct (hooked_children_spec m ls Hnd) as [Hnd' Hin].
  assert (hooked_children m ls ⊆+ ls) as Hsub.
  { apply NoDup_submseteq; [done|]. intros l Hl. by apply Hin in Hl as [_ ?]. }
  split.
  - intros Hlen.
    assert (hooked_children m ls ≡ₚ ls) as Hperm
      by (apply submseteq_length_Permutation; [done|lia]).
    split; [by rewrite <- Hperm|].
    intros l Hl. rewrite <- Hperm in Hl. by apply Hin in Hl as [? _].
  - intros [Hndls Hall]. apply Permutation_length.
    apply (anti_symm submseteq); [done|].
    apply NoDup_submseteq; [done|]. intros l Hl. apply Hin. auto.
Qed.

(** X10. When the names of the children of the model are distinct, the
    construction fails with the AssertionError of the hook count as soon as
    a layer name is repeated or is not the name of a child. *)
Theorem bad_layer_names_fail (m : Model X) xt yt xc yc ls k nc :
  NoDup (named_children m) →
  ¬ NoDup ls ∨ (∃ l, l ∈ ls ∧ l ∉ named_children m) →
  DKNN_init fsqrt m xt yt xc yc ls k nc = Raise AssertionError.
Proof.
  intros Hnd Hbad. rewrite DKNN_init_unfold.
  destruct (decide _) as [Hlen|]; [|done].
  apply (hook_count_passes m ls Hnd) in Hlen as [Hndls Hall].
  destruct Hbad as [Hbad|(l & Hl & Hnl)]; [done|]. by apply Hall in Hl.
Qed.

(** X11. With an empty training set and at least one layer no classifier is
    constructed: the construction raises the AssertionError of the hook
    count, the KeyError of a missing activation, or the RuntimeError of the
    view of the empty batch. *)
Theorem empty_training_set_fails (m : Model X) yt xc yc ls k nc :
  ls ≠ [] →
  ∃ e, DKNN_init fsqrt m [] yt xc yc ls k nc = Raise e
       ∧ e ∈ [AssertionError; KeyError; RuntimeError].
Proof.
  intros Hls. rewrite DKNN_init_unfold.
  destruct (decide _) as [_|]; eexists; (split; [done|]);
    rewrite !elem_of_cons; auto.
Qed.

(** ** The constructor: the indices *)

Lemma build_loop_spec reps n (f : string → tensor) ls idxs :
  build_loop fsqrt reps n ls = Ok idxs →
  (∀ l, l ∈ ls → reps !! l = Some (f l)) →
  idxs = map (λ l, _build_index (renorm fsqrt (f l))) ls.
Proof.
  revert idxs. induction ls as [|l ls IH]; intros idxs H Hreps; simpl in H.
  - by inversion H.
  - unfold dict_get in H. rewrite (Hreps l) in H by (by left). simpl in H.
    unfold torch_view in H. destruct (decide _); [discriminate|]. simpl in H.
    apply bind_Ok in H as (rest & Hrest & H). inversion H; subst idxs.
    simpl. f_equal. apply IH; [done|]. intros l' Hl'. apply Hreps. by right.
Qed.

Lemma DKNN_init_indices (m : Model X) xt yt xc yc ls k nc st :
  DKNN_init fsqrt m xt yt xc yc ls k nc = Ok st →
  indices st
  = map (λ l, _build_index (renorm fsqrt (map (forward m l) xt))) ls.
Proof.
  rewrite DKNN_init_unfold. destruct (decide _) as [_|]; [|discriminate].
  destruct xt as [|s xt0] eqn:Hxt; [discriminate|]. rewrite <- Hxt. clear Hxt.
  cbv zeta. intros H.
  apply bind_Ok in H as (idxs & Hidxs & H).
  apply bind_Ok in H as (votes & _ & H).
  apply bind_Ok in H as (A0 & _ & H). inversion H; subst st; clear H. simpl.
  apply (build_loop_spec _ _ (λ l, map (forward m l) xt) _ _ Hidxs).
  intros l Hl. destruct (build_loop_Ok _ _ _ _ _ Hidxs) as (_ & Hkeys & _).
  rewrite Forall_forall in Hkeys. destruct (Hkeys l Hl) as [t Ht].
  rewrite fire_hooks_lookup in Ht |- *.
  destruct (decide _); [done|]. by rewrite lookup_empty in Ht.
Qed.

(** X12. The constructor builds one index per layer, in the order of
    [layers]: the index of a layer holds the activations of the training
    inputs at that layer, flattened and passed through [renorm]. *)
Theorem constructed_indices (m : Model X) xt yt xc yc ls k nc st :
  DKNN_init fsqrt m xt yt xc yc ls k nc = Ok st →
  indices st
  = map (λ l, index_add (IndexLSH (size_last (renorm fsqrt (map (forward m l) xt)))
                                  256)
                        (renorm fsqrt (map (forward m l) xt))) ls.
Proof. apply DKNN_init_indices. Qed.

Lemma neighbors_loop_spec (m : Model X) hooked acts x k req (zs : list (string * index)) :
  x ≠ [] →
  Forall (λ z, z.1 ∈ hooked ∧ z.1 ∈ req) zs →
  neighbors_loop fsqrt (fire_hooks m hooked x acts) (length x) k req zs
  = Ok (map (λ z, index_search z.2 (renorm fsqrt (map (forward m z.1) x)) k) zs).
Proof.
  intros Hx. induction 1 as [|[l idx] zs [Hh Hr] _ IH]; simpl; [done|].
  simpl in Hh, Hr. rewrite decide_True by done.
  unfold dict_get. rewrite fire_hooks_hooked by done. simpl.
  unfold np_reshape. rewrite decide_False by (by destruct x). simpl.
  by rewrite IH.
Qed.

(** X13. On a constructed classifier and a batch that is not empty,
    [get_neighbors] returns, for every layer in the order of [layers], the
    result of the search of the batch's activations at that layer, passed
    through [renorm], in the index of the training activations at that
    layer. *)
Theorem get_neighbors_searches_each_layer (m : Model X) xt yt xc yc ls k nc st0
    acts x k_arg :
  DKNN_init fsqrt m xt yt xc yc ls k nc = Ok st0 →
  x ≠ [] →
  (get_neighbors fsqrt x k_arg None (set_activations st0 acts)).1
  = Ok (map (λ l, index_search
                    (_build_index (renorm fsqrt (map (forward m l) xt)))
                    (renorm fsqrt (map (forward m l) x))
                    (default k k_arg)) ls).
Proof.
  intros Hinit Hx. pose proof (DKNN_init_indices _ _ _ _ _ _ _ _ _ Hinit) as Hidx.
  destruct (DKNN_init_Ok _ _ _ _ _ _ _ _ _ _ Hinit)
    as (idxs & acts0 & hooked & votes & A0 & -> & Hlen & Hhooked & _).
  norm_obj. rewrite get_neighbors_nonempty by done. norm_obj.
  rewrite neighbors_loop_spec; [|done|].
  - f_equal. rewrite Hidx. clear. induction ls as [|l ls IH]; simpl; [done|].
    by rewrite IH.
  - apply Forall_forall. intros z Hz. apply zip_fst_elem_of in Hz.
    split; [by apply Hhooked|done].
Qed.

(** ** The constructor: success *)

Lemma calibration_loop_total ps : ∀ i A,
  Forall (λ p : Z * list Z, ∃ v, np_getitem p.2 p.1 = Ok v) ps →
  ∃ A', calibration_loop i ps A = Ok A'.
Proof.
  induction ps as [|[y_c y_p] ps IH]; intros i A Hps; simpl; [eauto|].
  apply Forall_cons in Hps as [[v Hv] Hps]. simpl in Hv. rewrite Hv. simpl.
  by apply IH.
Qed.

Lemma classify_returns_on (m : Model X) xt yt ls k idxs acts hooked A0 x :
  length idxs = length ls →
  (∀ l, l ∈ ls → l ∈ hooked) →
  Forall (λ idx, ntotal idx = length xt) idxs →
  xt ≠ [] → x ≠ [] →
  length yt = length xt →
  Forall (λ y, 0 ≤ y < 10) yt →
  ∃ votes,
    (classify fsqrt x (mk_DKNN m xt yt ls k 10 idxs acts hooked A0)).1 = Ok votes.
Proof.
  intros Hlen Hhooked HN Hxt Hx Hlenyt Hyt.
  destruct (get_neighbors_built fsqrt m xt yt ls k 10 idxs acts hooked A0 x None
              Hlen Hhooked Hx) as (nb & Hnb & Hl & _).
  rewrite classify_unfold. cbn [fst]. rewrite Hnb, bind_Ok_l. norm_obj.
  apply get_neighbors_Ok in Hnb as [_ Hnb]. cbn [fst] in Hnb. simpl in Hnb.
  assert (Forall (λ DI : list (list Q) * list (list Z),
            length DI.2 = length x
            ∧ Forall (Forall (λ j, - Z.of_nat (length yt) ≤ j
                                   < Z.of_nat (length yt))) DI.2) nb) as Hgood.
  { pose proof Hnb as Hrows. apply neighbors_loop_rows in Hrows.
    2:{ apply Forall_forall. intros z Hz t.
        apply zip_fst_elem_of, Hhooked in Hz.
        rewrite fire_hooks_hooked by done. intros Ht. inversion Ht; subst t.
        by rewrite length_map. }
    apply (neighbors_loop_range _ _ _ _ _ _ (length xt)) in Hnb.
    2:{ apply Forall_forall. intros z Hz. apply zip_snd_elem_of in Hz.
        rewrite Forall_forall in HN. by apply HN. }
    apply Forall_forall. intros DI HDI.
    rewrite Forall_forall in Hrows, Hnb. split; [by apply Hrows|].
    eapply Forall_impl; [by apply Hnb|]. simpl. intros r Hr.
    eapply Forall_impl; [exact Hr|]. simpl. intros j Hj.
    destruct xt; [done|]. simpl in *. lia. }
  assert (∃ cc', foldlR (classify_layer yt (length x))
                   (nd_rows (np_zeros2 (length x) 10)) nb = Ok cc'
                 ∧ ten_columns (length x) cc') as (cc' & -> & _).
  { apply (foldlR_total (ten_columns (length x))).
    - intros DI cc HDI Hcc. rewrite Forall_forall in Hgood.
      destruct (Hgood DI HDI) as [Hrows Hrange].
      by apply classify_layer_total.
    - split; simpl; [by rewrite length_replicate|].
      by apply Forall_replicate. }
  rewrite bind_Ok_l. eauto.
Qed.

(** X14. The construction succeeds on well-formed arguments: distinct
    names of children, distinct layer names that are names of children,
    training and calibration sets that are not empty, ten classes, one
    training label in [0, 10) per training input, calibration labels in
    [0, 10). *)
Theorem constructor_succeeds (m : Model X) xt yt xc yc ls k :
  NoDup (named_children m) →
  NoDup ls → (∀ l, l ∈ ls → l ∈ named_children m) →
  xt ≠ [] → xc ≠ [] →
  length yt = length xt →
  Forall (λ y, 0 ≤ y < 10) yt →
  Forall (λ y, 0 ≤ y < 10) yc →
  ∃ st, DKNN_init fsqrt m xt yt xc yc ls k 10 = Ok st.
Proof.
  intros Hnd Hndls Hall Hxt Hxc Hlenyt Hyt Hyc. rewrite DKNN_init_unfold.
  rewrite decide_True by (apply hook_count_passes; done).
  destruct xt as [|s xt0] eqn:Hxt0; [done|]. rewrite <- Hxt0 in *. clear Hxt0.
  cbv zeta.
  assert (∀ l, l ∈ ls → l ∈ hooked_children m ls) as Hhooked.
  { intros l Hl. apply hooked_children_spec; auto. }
  destruct (build_loop_total fsqrt (fire_hooks m (hooked_children m ls) xt ∅)
              (length xt) ls) as [idxs Hidxs].
  { by destruct xt. }
  { apply Forall_forall. intros l Hl.
    rewrite fire_hooks_hooked by auto. eauto. }
  rewrite Hidxs, bind_Ok_l.
  destruct (build_loop_Ok _ _ _ _ _ Hidxs) as (Hlen & _ & _).
  assert (Forall (λ idx, ntotal idx = length xt) idxs) as HN.
  { eapply build_loop_ntotal; [exact Hidxs|].
    apply Forall_forall. intros l Hl. eexists.
    rewrite fire_hooks_hooked by auto. split; [done|]. by rewrite length_map. }
  destruct (classify_returns_on m xt yt ls k idxs
              (fire_hooks m (hooked_children m ls) xt ∅)
              (hooked_children m ls) [] xc Hlen Hhooked HN Hxt Hxc Hlenyt Hyt)
    as [votes Hvotes].
  rewrite Hvotes, bind_Ok_l.
  destruct (classify_built_rows _ _ _ _ _ _ _ _ _ _ _ _ Hlen Hvotes)
    as [Hrows Hcols].
  destruct (calibration_loop_total (zip yc (nd_rows votes)) 0
              (replicate (length xc) (Z.of_nat k * Z.of_nat (length ls))))
    as [A0 HA0].
  { apply Forall_forall. intros [y_c row] Hp.
    apply list_elem_of_lookup in Hp as [j Hj].
    apply lookup_zip_with_Some in Hj as (y & r & Heq & Hy & Hr).
    inversion Heq; subst y r. simpl.
    apply np_getitem_total.
    rewrite Forall_forall in Hcols. rewrite Forall_forall in Hyc.
    destruct (Hcols row) as [-> _]; [by eapply list_elem_of_lookup_2|].
    specialize (Hyc y_c ltac:(by eapply list_elem_of_lookup_2)). lia. }
  rewrite HA0, bind_Ok_l. eauto.
Qed.

(** X27. On a classifier constructed with ten classes and one training
    label in [0, 10) per training input, [classify] returns on every batch
    that is not empty. *)
Theorem classify_succeeds (m : Model X) xt yt xc yc ls k st0 acts x :
  DKNN_init fsqrt m xt yt xc yc ls k 10 = Ok st0 →
  x ≠ [] →
  length yt = length xt →
  Forall (λ y, 0 ≤ y < 10) yt →
  ∃ votes, (classify fsqrt x (set_activations st0 acts)).1 = Ok votes
    ∧ nd_cols votes = 10%nat ∧ length (nd_rows votes) = length x.
Proof.
  intros Hinit Hx Hlenyt Hyt.
  pose proof (DKNN_init_ntotal _ _ _ _ _ _ _ _ _ _ Hinit) as HN.
  destruct (DKNN_init_nonempty _ _ _ _ _ _ _ _ _ _ Hinit) as [Hxtne _].
  destruct (DKNN_init_Ok _ _ _ _ _ _ _ _ _ _ Hinit)
    as (idxs & acts0 & hooked & votes0 & A0 & -> & Hlen & Hhooked & Hxt & _).
  norm_obj.
  destruct (classify_returns_on m xt yt ls k idxs acts hooked A0 x
              Hlen Hhooked HN Hxtne Hx Hlenyt Hyt) as [votes Hvotes].
  exists votes. split; [done|].
  destruct (classify_Ok _ _ _ _ Hvotes) as (_ & _ & Hc & Hr & _).
  by split.
Qed.

End DKNN_more.

From Stdlib Require Import Qcanon.
Local Open Scope Z_scope.

(** * Hidden mixup (class [HiddenMixupModel])

    The layers of the network are parameters; a tensor is the batch of its
    flattened samples. Numbers are canonical rationals, in which, as in
    floating point, [1 * a + 0 * b] is [a]. Floating-point arithmetic
    rounds where rationals do not: of the values of a mixed tensor only what
    is exact in floating point is stated below (shapes, the targets, the
    coefficient, and the case of the coefficient 1). The random draws of a
    call ([random.randint], [np.random.beta], [torch.randperm]) are passed
    in. *)
Module Mixup.

Definition UnboundLocalError : exn := Exn "UnboundLocalError".
Definition TypeError : exn := Exn "TypeError".

Abbreviation sample := (list Qc).
Abbreviation batch := (list (list Qc)).

(** The draws of one call: [random.randint(0, 4)], a number between 0 and
    4; [np.random.beta(alpha, alpha)]; [torch.randperm(n)], a permutation of
    [0 .. n-1]. *)
Record draws : Type := mk_draws {
  randint_0_4 : Z;
  beta : Qc;
  randperm : nat → list nat
}.

Definition valid_draws (r : draws) : Prop :=
  0 ≤ randint_0_4 r ≤ 4 ∧ ∀ n, randperm r n ≡ₚ seq 0 n.

(** [t[index]]: the rows of [t] at the positions [index]. *)
Definition index_rows {A} (t : list A) (index : list nat) : result (list A) :=
  mapR (λ i, np_getitem t (Z.of_nat i)) index.

(** [lam * x + (1 - lam) * x'] on tensors of the same shape, without the
    rounding of the float operations. *)
Definition mix (lam : Qc) (x x' : batch) : batch :=
  zip_with (zip_with (λ a b, lam * a + (1 - lam) * b)%Qc) x x'.

(** [mixup_data(x, y, alpha)]; [y] is [None] when the caller passed no
    target. *)
Definition mixup_data (r : draws) (x : batch) (y : option (list Z)) (alpha : Qc)
    : result (batch * list Z * list Z * Qc) :=
  let lam := if Qclt_le_dec 0 alpha then beta r else 1%Qc in
  let index := randperm r (length x) in
  x_index ← index_rows x index;
  let mixed_x := mix lam x x_index in
  match y with
  | None => Raise TypeError
  | Some y =>
      y_b ← index_rows y index;
      Ok (mixed_x, y, y_b, lam)
  end.

(** The modules of the network, applied to a batch. *)
Record modules : Type := mk_modules {
  conv1 : batch → batch; relu1 : batch → batch;
  conv2 : batch → batch; relu2 : batch → batch;
  conv3 : batch → batch; relu3 : batch → batch;
  fc : batch → batch
}.

(** [x.view(x.size(0), -1)] *)
Definition view_flat (x : batch) : result batch :=
  if decide (length x = 0%nat) then Raise RuntimeError else Ok x.

(** What [forward] returns: the logits, or the logits with the two targets
    and the mixing coefficient. *)
Inductive output : Type :=
| Logits (x : batch)
| Mixed (x : batch) (y_a y_b : list Z) (lam : Qc).

(** The local variables [x], [y_a], [y_b], [lam] of [forward]; the last
    three are unbound until a call of [mixup_data] binds them. *)
Definition locals : Type := batch * option (list Z * list Z * Qc).

(** [if layer_mix == i: x, y_a, y_b, lam = self.mixup_data(x, target, alpha)] *)
Definition mix_at (r : draws) (layer_mix i : Z) (target : option (list Z))
    (alpha : Qc) (l : locals) : result locals :=
  if decide (layer_mix = i) then
    '(x, y_a, y_b, lam) ← mixup_data r l.1 target alpha;
    Ok (x, Some (y_a, y_b, lam))
  else Ok l.

Definition forward (net : modules) (r : draws) (x : batch)
    (target : option (list Z)) (mixup_hidden : bool) (mixup_alpha : Qc)
    (layer_mix : option Z) : result output :=
  if mixup_hidden then
    let layer_mix := default (randint_0_4 r) layer_mix in
    l ← mix_at r layer_mix 0 target mixup_alpha (x, None);
    let l := (relu1 net (conv1 net l.1), l.2) in
    l ← mix_at r layer_mix 1 target mixup_alpha l;
    let l := (relu2 net (conv2 net l.1), l.2) in
    l ← mix_at r layer_mix 2 target mixup_alpha l;
    let l := (relu3 net (conv3 net l.1), l.2) in
    l ← mix_at r layer_mix 3 target mixup_alpha l;
    x ← view_flat l.1;
    let l := (fc net x, l.2) in
    l ← mix_at r layer_mix 4 target mixup_alpha l;
    match l.2 with
    | Some (y_a, y_b, lam) => Ok (Mixed l.1 y_a y_b lam)
    | None => Raise UnboundLocalError
    end
  else
    let x := relu1 net (conv1 net x) in
    let x := relu2 net (conv2 net x) in
    let x := relu3 net (conv3 net x) in
    x ← view_flat x;
    Ok (Logits (fc net x)).

(** [loss_function]; the cross entropy is a parameter. *)
Definition loss_function (cross_entropy : batch → list Z → Qc)
    (y_pred : batch) (y_a y_b : list Z) (lam : Qc) : Qc :=
  (lam * cross_entropy y_pred y_a + (1 - lam) * cross_entropy y_pred y_b)%Qc.

(** All samples of a batch have [d] features. *)
Definition rectangular (d : nat) (x : batch) : Prop :=
  Forall (λ s : sample, length s = d) x.

(** A module maps a batch of [n] samples to a batch of [n] samples, all of
    the same size. *)
Definition keeps_batch (f : batch → batch) : Prop :=
  ∀ x d, rectangular d x → length (f x) = length x ∧ ∃ d', rectangular d' (f x).

Definition well_shaped (net : modules) : Prop :=
  keeps_batch (conv1 net) ∧ keeps_batch (relu1 net)
  ∧ keeps_batch (conv2 net) ∧ keeps_batch (relu2 net)
  ∧ keeps_batch (conv3 net) ∧ keeps_batch (relu3 net)
  ∧ keeps_batch (fc net).

(** ** Indexing by a permutation *)

Lemma np_getitem_nat {A} (t : list A) i a :
  t !! i = Some a → np_getitem t (Z.of_nat i) = Ok a.
Proof.
  intros Hi. pose proof (lookup_lt_Some _ _ _ Hi) as Hlt.
  unfold np_getitem. replace (Z.of_nat i <? 0) with false by lia.
  replace ((0 <=? Z.of_nat i) && (Z.of_nat i <? Z.of_nat (length t)))
    with true by lia.
  by rewrite Nat2Z.id, Hi.
Qed.

Lemma mapR_ext_Ok {A B} (f : A → result B) (g : A → B) l :
  Forall (λ a, f a = Ok (g a)) l → mapR f l = Ok (map g l).
Proof.
  induction 1 as [|a l Ha _ IH]; simpl; [done|]. by rewrite Ha, IH.
Qed.

Lemma map_lookup_seq {A} (t : list A) d :
  map (λ i, default d (t !! i)) (seq 0 (length t)) = t.
Proof.
  apply list_eq. intros i. rewrite list_lookup_fmap.
  destruct (decide (i < length t)%nat) as [Hlt|Hge].
  - rewrite lookup_seq_lt by done. simpl.
    destruct (lookup_lt_is_Some_2 t i Hlt) as [a Ha]. by rewrite Ha.
  - rewrite lookup_seq_ge by lia. simpl. symmetry. apply lookup_ge_None. lia.
Qed.

Lemma index_rows_permutation {A} (t : list A) index :
  index ≡ₚ seq 0 (length t) →
  ∃ t', index_rows t index = Ok t' ∧ t' ≡ₚ t.
Proof.
  intros Hperm. destruct t as [|d t0] eqn:Ht.
  { simpl in Hperm. apply Permutation_nil_r in Hperm as ->. by exists []. }
  rewrite <- Ht in *. clear Ht t0.
  exists (map (λ i, default d (t !! i)) index). split.
  - apply mapR_ext_Ok, Forall_forall. intros i Hi.
    rewrite Hperm in Hi. apply elem_of_seq in Hi.
    destruct (lookup_lt_is_Some_2 t i) as [a Ha]; [lia|].
    rewrite Ha. simpl. by apply np_getitem_nat.
  - rewrite Hperm. by rewrite map_lookup_seq.
Qed.

(** ** mixup_data *)

Lemma mix_length lam (x x' : batch) :
  length x' = length x → length (mix lam x x') = length x.
Proof. intros H. unfold mix. rewrite length_zip_with. lia. Qed.

Lemma rectangular_permutation d (x x' : batch) :
  x' ≡ₚ x → rectangular d x → rectangular d x'.
Proof. unfold rectangular. by intros ->. Qed.

Lemma mix_rectangular lam d (x x' : batch) :
  rectangular d x → rectangular d x' → rectangular d (mix lam x x').
Proof.
  unfold rectangular, mix. intros Hx. revert x'.
  induction Hx as [|s x Hs _ IH]; intros [|s' x'] Hx'; simpl;
    try constructor.
  - apply Forall_cons in Hx' as [Hs' _]. rewrite length_zip_with. lia.
  - apply Forall_cons in Hx' as [_ Hx']. by apply IH.
Qed.

(** With [lam = 1] the mixed batch is the batch. *)
Lemma mix_one d (x x' : batch) :
  rectangular d x → rectangular d x' → length x' = length x → mix 1 x x' = x.
Proof.
  unfold rectangular, mix. intros Hx. revert x'.
  induction Hx as [|s x Hs _ IH]; intros [|s' x'] Hx' Hlen; simpl in *;
    try done.
  apply Forall_cons in Hx' as [Hs' Hx']. f_equal; [|apply IH; [done|lia]].
  clear -Hs Hs'. revert s' d Hs Hs'.
  induction s as [|a s IH]; intros [|b s'] d Hs Hs'; simpl in *; try done;
    [lia|].
  f_equal; [ring|]. destruct d; [lia|]. apply (IH s' d); lia.
Qed.

Lemma mixup_data_Ok (r : draws) (x : batch) y alpha :
  randperm r (length x) ≡ₚ seq 0 (length x) →
  length y = length x →
  ∃ x' y_b,
    mixup_data r x (Some y) alpha
    = Ok (mix (if Qclt_le_dec 0 alpha then beta r else 1%Qc) x x', y, y_b,
          if Qclt_le_dec 0 alpha then beta r else 1%Qc)
    ∧ x' ≡ₚ x ∧ y_b ≡ₚ y.
Proof.
  intros Hperm Hlen. unfold mixup_data.
  destruct (index_rows_permutation x _ Hperm) as (x' & -> & Hx').
  rewrite <- Hlen in Hperm.
  destruct (index_rows_permutation y _ Hperm) as (y_b & Hyb & Hy').
  rewrite Hlen in Hyb. simpl. rewrite Hyb. simpl. eauto 10.
Qed.

(** X15. With a permutation for [index] and one target per sample,
    [mixup_data] returns: a batch of the size of [x], the targets [y] as
    they are for [y_a], a permutation of them for [y_b], and the
    coefficient, which is the draw of the beta distribution when
    [alpha > 0] and 1 otherwise. *)
Theorem mixup_data_returns (r : draws) (x : batch) y alpha :
  randperm r (length x) ≡ₚ seq 0 (length x) →
  length y = length x →
  ∃ mixed_x y_b,
    mixup_data r x (Some y) alpha
    = Ok (mixed_x, y, y_b, if Qclt_le_dec 0 alpha then beta r else 1%Qc)
    ∧ length mixed_x = length x
    ∧ y_b ≡ₚ y.
Proof.
  intros Hperm Hlen.
  destruct (mixup_data_Ok r x y alpha Hperm Hlen) as (x' & y_b & -> & Hx' & Hy).
  eexists _, y_b. split; [done|]. split; [|done].
  apply mix_length. by rewrite Hx'.
Qed.

(** X17. With [alpha <= 0] nothing is mixed: [mixup_data] returns the batch
    as it is, with coefficient 1. *)
Theorem mixup_data_off (r : draws) d (x : batch) y alpha :
  randperm r (length x) ≡ₚ seq 0 (length x) →
  rectangular d x →
  length y = length x →
  (alpha <= 0)%Qc →
  ∃ y_b, mixup_data r x (Some y) alpha = Ok (x, y, y_b, 1%Qc).
Proof.
  intros Hperm Hrect Hlen Halpha.
  destruct (mixup_data_Ok r x y alpha Hperm Hlen) as (x' & y_b & -> & Hx' & Hy).
  destruct (Qclt_le_dec 0 alpha) as [Hlt|_].
  { exfalso. by apply (Qclt_not_le _ _ Hlt). }
  exists y_b. rewrite (mix_one d); [done|done| |by rewrite Hx'].
  by eapply rectangular_permutation.
Qed.

(** ** forward *)

(** A batch of [n] samples of one size. *)
Definition shaped (n : nat) (x : batch) : Prop :=
  length x = n ∧ ∃ d, rectangular d x.

Lemma shaped_module f n x : keeps_batch f → shaped n x → shaped n (f x).
Proof.
  intros Hf [Hlen [d Hd]]. destruct (Hf x d Hd) as [Hl Hr].
  split; [congruence|done].
Qed.

Lemma mix_at_other (r : draws) layer_mix i target alpha l :
  layer_mix ≠ i → mix_at r layer_mix i target alpha l = Ok l.
Proof. intros Hne. unfold mix_at. by rewrite decide_False. Qed.

Lemma mix_at_here (r : draws) i y alpha n x :
  valid_draws r → shaped n x → length y = n →
  ∃ x' y_b,
    mix_at r i i (Some y) alpha (x, None)
    = Ok (x', Some (y, y_b, if Qclt_le_dec 0 alpha then beta r else 1%Qc))
    ∧ shaped n x' ∧ y_b ≡ₚ y ∧ ((alpha <= 0)%Qc → x' = x).
Proof.
  intros [_ Hperm] [Hlen [d Hd]] Hy. unfold mix_at. rewrite decide_True by done.
  cbn [fst].
  destruct (mixup_data_Ok r x y alpha (Hperm _) ltac:(congruence))
    as (x0 & y_b & -> & Hx0 & Hyb).
  simpl. eexists _, y_b. split; [done|].
  assert (rectangular d x0) by (by eapply rectangular_permutation).
  assert (length x0 = length x) by (by rewrite Hx0).
  split; [|split; [done|]].
  - split; [rewrite mix_length; done|]. exists d. by apply mix_rectangular.
  - intros Halpha. destruct (Qclt_le_dec 0 alpha) as [Hlt|_].
    { exfalso. by apply (Qclt_not_le _ _ Hlt). }
    by apply (mix_one d).
Qed.

Lemma view_flat_shaped n x : shaped n x → n ≠ 0%nat → view_flat x = Ok x.
Proof. intros [Hlen _] Hn. unfold view_flat. rewrite decide_False; congruence. Qed.

Lemma forward_plain (net : modules) r x target alpha layer_mix :
  forward net r x target false alpha layer_mix
  = view_flat (relu3 net (conv3 net (relu2 net (conv2 net
                 (relu1 net (conv1 net x)))))) ≫= λ x, Ok (Logits (fc net x)).
Proof. reflexivity. Qed.

Lemma forward_mixed (net : modules) (r : draws) d (x : batch) y alpha l :
  well_shaped net → valid_draws r →
  rectangular d x → x ≠ [] → length y = length x →
  0 ≤ l ≤ 4 →
  ∃ logits y_b,
    forward net r x (Some y) true alpha (Some l)
    = Ok (Mixed logits y y_b (if Qclt_le_dec 0 alpha then beta r else 1%Qc))
    ∧ y_b ≡ₚ y
    ∧ ((alpha <= 0)%Qc →
       forward net r x (Some y) false alpha (Some l) = Ok (Logits logits)).
Proof.
  intros (Hc1 & Hr1 & Hc2 & Hr2 & Hc3 & Hr3 & Hfc) Hr Hd Hx Hy Hl.
  assert (length x ≠ 0%nat) as Hn by (by destruct x).
  assert (shaped (length x) x) as H0 by (split; eauto).
  rewrite forward_plain. unfold forward. cbn [default from_option id].
  assert (l = 0 ∨ l = 1 ∨ l = 2 ∨ l = 3 ∨ l = 4) as Hcases by lia.
  destruct Hcases as [->|[->|[->|[->| ->]]]].
  - destruct (mix_at_here r 0 y alpha _ x Hr H0 Hy)
      as (x' & y_b & -> & Hx' & Hyb & Hoff).
    rewrite bind_Ok_l. cbn [fst snd].
    rewrite !mix_at_other, !bind_Ok_l by lia. cbn [fst snd].
    rewrite mix_at_other, bind_Ok_l by lia. cbn [fst snd].
    rewrite mix_at_other, bind_Ok_l by lia. cbn [fst snd].
    pose proof (shaped_module _ _ _ Hr3 (shaped_module _ _ _ Hc3
      (shaped_module _ _ _ Hr2 (shaped_module _ _ _ Hc2
      (shaped_module _ _ _ Hr1 (shaped_module _ _ _ Hc1 Hx')))))) as H3.
    rewrite (view_flat_shaped _ _ H3 Hn), bind_Ok_l. cbn [fst snd].
    rewrite mix_at_other, bind_Ok_l by lia. cbn [fst snd].
    eexists _, y_b. split; [done|]. split; [done|].
    intros Halpha. rewrite <- (Hoff Halpha).
    by rewrite (view_flat_shaped _ _ H3 Hn).
  - rewrite mix_at_other, bind_Ok_l by lia. cbn [fst snd].
    pose proof (shaped_module _ _ _ Hr1 (shaped_module _ _ _ Hc1 H0)) as H1.
    destruct (mix_at_here r 1 y alpha _ _ Hr H1 Hy)
      as (x' & y_b & -> & Hx' & Hyb & Hoff).
    rewrite bind_Ok_l. cbn [fst snd].
    rewrite mix_at_other, bind_Ok_l by lia. cbn [fst snd].
    rewrite mix_at_other, bind_Ok_l by lia. cbn [fst snd].
    pose proof (shaped_module _ _ _ Hr3 (shaped_module _ _ _ Hc3
      (shaped_module _ _ _ Hr2 (shaped_module _ _ _ Hc2 Hx')))) as H3.
    rewrite (view_flat_shaped _ _ H3 Hn), bind_Ok_l. cbn [fst snd].
    rewrite mix_at_other, bind_Ok_l by lia. cbn [fst snd].
    eexists _, y_b. split; [done|]. split; [done|].
    intros Halpha. rewrite <- (Hoff Halpha).
    by rewrite (view_flat_shaped _ _ H3 Hn).
  - rewrite mix_at_other, bind_Ok_l by lia. cbn [fst snd].
    rewrite mix_at_other, bind_Ok_l by lia. cbn [fst snd].
    pose proof (shaped_module _ _ _ Hr2 (shaped_module _ _ _ Hc2
      (shaped_module _ _ _ Hr1 (shaped_module _ _ _ Hc1 H0)))) as H2.
    destruct (mix_at_here r 2 y alpha _ _ Hr H2 Hy)
      as (x' & y_b & -> & Hx' & Hyb & Hoff).
    rewrite bind_Ok_l. cbn [fst snd].
    rewrite mix_at_other, bind_Ok_l by lia. cbn [fst snd].
    pose proof (shaped_module _ _ _ Hr3 (shaped_module _ _ _ Hc3 Hx')) as H3.
    rewrite (view_flat_shaped _ _ H3 Hn), bind_Ok_l. cbn [fst snd].
    rewrite mix_at_other, bind_Ok_l by lia. cbn [fst snd].
    eexists _, y_b. split; [done|]. split; [done|].
    intros Halpha. rewrite <- (Hoff Halpha).
    by rewrite (view_flat_shaped _ _ H3 Hn).
  - rewrite mix_at_other, bind_Ok_l by lia. cbn [fst snd].
    rewrite mix_at_other, bind_Ok_l by lia. cbn [fst snd].
    rewrite mix_at_other, bind_Ok_l by lia. cbn [fst snd].
    pose proof (shaped_module _ _ _ Hr3 (shaped_module _ _ _ Hc3
      (shaped_module _ _ _ Hr2 (shaped_module _ _ _ Hc2
      (shaped_module _ _ _ Hr1 (shaped_module _ _ _ Hc1 H0)))))) as H3.
    destruct (mix_at_here r 3 y alpha _ _ Hr H3 Hy)
      as (x' & y_b & -> & Hx' & Hyb & Hoff).
    rewrite bind_Ok_l. cbn [fst snd].
    rewrite (view_flat_shaped _ _ Hx' Hn), bind_Ok_l. cbn [fst snd].
    rewrite mix_at_other, bind_Ok_l by lia. cbn [fst snd].
    eexists _, y_b. split; [done|]. split; [done|].
    intros Halpha. rewrite <- (Hoff Halpha).
    by rewrite (view_flat_shaped _ _ Hx' Hn).
  - rewrite mix_at_other, bind_Ok_l by lia. cbn [fst snd].
    rewrite mix_at_other, bind_Ok_l by lia. cbn [fst snd].
    rewrite mix_at_other, bind_Ok_l by lia. cbn [fst snd].
    rewrite mix_at_other, bind_Ok_l by lia. cbn [fst snd].
    pose proof (shaped_module _ _ _ Hr3 (shaped_module _ _ _ Hc3
      (shaped_module _ _ _ Hr2 (shaped_module _ _ _ Hc2
      (shaped_module _ _ _ Hr1 (shaped_module _ _ _ Hc1 H0)))))) as H3.
    rewrite (view_flat_shaped _ _ H3 Hn), !bind_Ok_l. cbn [fst snd].
    pose proof (shaped_module _ _ _ Hfc H3) as H4.
    destruct (mix_at_here r 4 y alpha _ _ Hr H4 Hy)
      as (x' & y_b & -> & Hx' & Hyb & Hoff).
    rewrite bind_Ok_l. cbn [fst snd].
    eexists _, y_b. split; [done|]. split; [done|].
    intros Halpha. by rewrite (Hoff Halpha).
Qed.

(** X18. With [mixup_hidden], a [layer_mix] that is none of 0, 1, 2, 3, 4
    mixes nowhere: [forward] runs the network and then fails on its return
    statement with UnboundLocalError (or before, with the RuntimeError of
    the view, when the batch is empty). *)
Theorem forward_layer_mix_out_of_range (net : modules) (r : draws) x target
    alpha l :
  l < 0 ∨ 4 < l →
  forward net r x target true alpha (Some l)
  = if decide (length (relu3 net (conv3 net (relu2 net (conv2 net
                         (relu1 net (conv1 net x)))))) = 0%nat)
    then Raise RuntimeError else Raise UnboundLocalError.
Proof.
  intros Hl. unfold forward. cbn [default from_option id].
  rewrite mix_at_other, bind_Ok_l by lia. cbn [fst snd].
  rewrite mix_at_other, bind_Ok_l by lia. cbn [fst snd].
  rewrite mix_at_other, bind_Ok_l by lia. cbn [fst snd].
  rewrite mix_at_other, bind_Ok_l by lia. cbn [fst snd].
  unfold view_flat. destruct (decide _); [done|]. rewrite bind_Ok_l.
  cbn [fst snd]. by rewrite mix_at_other, bind_Ok_l by lia.
Qed.

(** X19. With [mixup_hidden], one target per sample, and [layer_mix]
    absent or one of 0, 1, 2, 3, 4, [forward] returns the logits with the
    targets as they are, a permutation of the targets, and the coefficient
    of [mixup_data]: the same targets whatever the layer that is mixed. *)
Theorem forward_mixup_returns (net : modules) (r : draws) d (x : batch) y alpha
    layer_mix :
  well_shaped net → valid_draws r →
  rectangular d x → x ≠ [] → length y = length x →
  (∀ l, layer_mix = Some l → 0 ≤ l ≤ 4) →
  ∃ logits y_b,
    forward net r x (Some y) true alpha layer_mix
    = Ok (Mixed logits y y_b (if Qclt_le_dec 0 alpha then beta r else 1%Qc))
    ∧ y_b ≡ₚ y.
Proof.
  intros Hnet Hr Hd Hx Hy Hl.
  assert (∃ l, 0 ≤ l ≤ 4
               ∧ forward net r x (Some y) true alpha layer_mix
                 = forward net r x (Some y) true alpha (Some l))
    as (l & Hrange & ->).
  { destruct layer_mix as [l|]; [by eauto|].
    exists (randint_0_4 r). split; [apply Hr|done]. }
  destruct (forward_mixed net r d x y alpha l Hnet Hr Hd Hx Hy Hrange)
    as (logits & y_b & -> & Hyb & _).
  eauto.
Qed.

(** X20. With [alpha <= 0] hidden mixup changes nothing: [forward] with
    [mixup_hidden] returns the logits that it returns without, with
    coefficient 1, so that [loss_function] is the cross entropy of these
    logits and the targets. *)
Theorem forward_mixup_off (net : modules) (r : draws) d (x : batch) y alpha
    layer_mix cross_entropy :
  well_shaped net → valid_draws r →
  rectangular d x → x ≠ [] → length y = length x →
  (∀ l, layer_mix = Some l → 0 ≤ l ≤ 4) →
  (alpha <= 0)%Qc →
  ∃ logits y_b,
    forward net r x (Some y) false alpha layer_mix = Ok (Logits logits)
    ∧ forward net r x (Some y) true alpha layer_mix
      = Ok (Mixed logits y y_b 1%Qc)
    ∧ loss_function cross_entropy logits y y_b 1%Qc = cross_entropy logits y.
Proof.
  intros Hnet Hr Hd Hx Hy Hl Halpha.
  assert (∃ l, 0 ≤ l ≤ 4
               ∧ forward net r x (Some y) true alpha layer_mix
                 = forward net r x (Some y) true alpha (Some l))
    as (l & Hrange & ->).
  { destruct layer_mix as [l|]; [by eauto|].
    exists (randint_0_4 r). split; [apply Hr|done]. }
  destruct (forward_mixed net r d x y alpha l Hnet Hr Hd Hx Hy Hrange)
    as (logits & y_b & -> & Hyb & Hoff).
  destruct (Qclt_le_dec 0 alpha) as [Hlt|_].
  { exfalso. by apply (Qclt_not_le _ _ Hlt). }
  exists logits, y_b. split; [|split; [done|]].
  - rewrite <- (Hoff Halpha). reflexivity.
  - unfold loss_function. ring.
Qed.

Lemma mix_at_without_target (r : draws) i alpha (x : batch) :
  valid_draws r → mix_at r i i None alpha (x, None) = Raise TypeError.
Proof.
  intros [_ Hperm]. unfold mix_at. rewrite decide_True by done. cbn [fst].
  unfold mixup_data.
  by destruct (index_rows_permutation x _ (Hperm (length x))) as (x' & -> & _).
Qed.

(** X21. Without target, [forward] with [mixup_hidden] fails with the
    TypeError of indexing [None], at the layer that is mixed. *)
Theorem forward_mixup_without_target (net : modules) (r : draws) d (x : batch)
    alpha layer_mix :
  well_shaped net → valid_draws r →
  rectangular d x → x ≠ [] →
  (∀ l, layer_mix = Some l → 0 ≤ l ≤ 4) →
  forward net r x None true alpha layer_mix = Raise TypeError.
Proof.
  intros (Hc1 & Hr1 & Hc2 & Hr2 & Hc3 & Hr3 & Hfc) Hr Hd Hx Hl.
  assert (∃ l, 0 ≤ l ≤ 4
               ∧ forward net r x None true alpha layer_mix
                 = forward net r x None true alpha (Some l))
    as (l & Hrange & ->).
  { destruct layer_mix as [l|]; [by eauto|].
    exists (randint_0_4 r). split; [apply Hr|done]. }
  assert (length x ≠ 0%nat) as Hn by (by destruct x).
  assert (shaped (length x) x) as H0 by (split; eauto).
  pose proof (shaped_module _ _ _ Hr3 (shaped_module _ _ _ Hc3
    (shaped_module _ _ _ Hr2 (shaped_module _ _ _ Hc2
    (shaped_module _ _ _ Hr1 (shaped_module _ _ _ Hc1 H0)))))) as H3.
  unfold forward. cbn [default from_option id].
  assert (l = 0 ∨ l = 1 ∨ l = 2 ∨ l = 3 ∨ l = 4) as Hcases by lia.
  destruct Hcases as [->|[->|[->|[->| ->]]]].
  - by rewrite mix_at_without_target.
  - rewrite mix_at_other, bind_Ok_l by lia. cbn [fst snd].
    by rewrite mix_at_without_target.
  - rewrite mix_at_other, bind_Ok_l by lia. cbn [fst snd].
    rewrite mix_at_other, bind_Ok_l by lia. cbn [fst snd].
    by rewrite mix_at_without_target.
  - rewrite mix_at_other, bind_Ok_l by lia. cbn [fst snd].
    rewrite mix_at_other, bind_Ok_l by lia. cbn [fst snd].
    rewrite mix_at_other, bind_Ok_l by lia. cbn [fst snd].
    by rewrite mix_at_without_target.
  - rewrite mix_at_other, bind_Ok_l by lia. cbn [fst snd].
    rewrite mix_at_other, bind_Ok_l by lia. cbn [fst snd].
    rewrite mix_at_other, bind_Ok_l by lia. cbn [fst snd].
    rewrite mix_at_other, bind_Ok_l by lia. cbn [fst snd].
    rewrite (view_flat_shaped _ _ H3 Hn), bind_Ok_l. cbn [fst snd].
    by rewrite mix_at_without_target.
Qed.

End Mixup.

Close Scope Qc_scope.

(** * The training script (train_scripts/train_cifar10_ae.py)

    [evaluate], [train] and the loop over the epochs of [main]. The network,
    the optimizer and the loss are parameters; a data loader is the list of
    the batches it yields when it is iterated. The state of the script is
    the parameters of the network and of the optimizer, the mode of the
    network, the files written by [torch.save] and the log. Losses are
    rationals. *)
Module Training.

Definition ZeroDivisionError : exn := Exn "ZeroDivisionError".

Section Training.
Variables (net opt batch : Type).

(** [targets.size(0)] *)
Variable targets_size : batch → nat.

(** The forward pass and [net.loss_function(latent, x_recon, inputs,
    targets).item()], in training mode ([true]) or in evaluation mode
    ([false]). *)
Variable loss_item : bool → net → batch → Q.

(** [optimizer.zero_grad(); loss.backward(); optimizer.step()] *)
Variable step : net → opt → batch → net * opt.

Inductive log_record : Type :=
| log_epoch (epoch : nat) (train_loss val_loss : Q)
| log_saving
| log_test (test_loss : Q).

Record world : Type := mk_world {
  params : net;
  optimizer : opt;
  training : bool;
  files : gmap string net;
  log : list log_record
}.

Definition set_training (b : bool) (w : world) : world :=
  mk_world (params w) (optimizer w) b (files w) (log w).

Definition set_params (p : net) (o : opt) (w : world) : world :=
  mk_world p o (training w) (files w) (log w).

Definition log_info (r : log_record) (w : world) : world :=
  mk_world (params w) (optimizer w) (training w) (files w) (log w ++ [r]).

(** [torch.save(net.state_dict(), path)] *)
Definition torch_save (path : string) (w : world) : world :=
  mk_world (params w) (optimizer w) (training w)
           (<[path := params w]> (files w)) (log w).

(** [a / n] on Python numbers. *)
Definition py_div (a : Q) (n : nat) : result Q :=
  if decide (n = 0%nat) then Raise ZeroDivisionError
  else Ok (a / inject_Z (Z.of_nat n))%Q.

(** [a < b] on Python numbers. *)
Definition py_lt (a b : Q) : bool :=
  if Qlt_le_dec a b then true else false.

(** The loop of [evaluate]: the sums [val_loss] and [val_total]. *)
Definition evaluate_sums (p : net) (dataloader : list batch) : Q * nat :=
  foldl (λ acc b, ((acc.1 + loss_item false p b)%Q,
                   (acc.2 + targets_size b)%nat))
        (0%Q, 0%nat) dataloader.

Definition evaluate (dataloader : list batch) (w : world) : result Q * world :=
  let w := set_training false w in
  let '(val_loss, val_total) := evaluate_sums (params w) dataloader in
  (py_div val_loss val_total, w).

(** The loop of [train]: the parameters after the steps and the sums
    [train_loss] and [train_total]. *)
Definition train_sums (p : net) (o : opt) (trainloader : list batch)
    : net * opt * Q * nat :=
  foldl (λ acc b,
           let '(p, o, train_loss, train_total) := acc in
           let loss := loss_item true p b in
           let '(p, o) := step p o b in
           (p, o, (train_loss + loss)%Q, (train_total + targets_size b)%nat))
        (p, o, 0%Q, 0%nat) trainloader.

Definition train (trainloader validloader : list batch) (epoch : nat)
    (save_best_only : bool) (best_loss : Q) (model_path : string) (w : world)
    : result Q * world :=
  let w := set_training true w in
  let '(p, o, train_loss, train_total) :=
    train_sums (params w) (optimizer w) trainloader in
  let w := set_params p o w in
  let '(val_loss, w) := evaluate validloader w in
  match val_loss with
  | Raise e => (Raise e, w)
  | Ok val_loss =>
      match py_div train_loss train_total with
      | Raise e => (Raise e, w)
      | Ok avg =>
          let w := log_info (log_epoch epoch avg val_loss) w in
          if negb save_best_only
             || (save_best_only && py_lt val_loss best_loss)
          then
            let w := log_info log_saving w in
            let w := torch_save model_path w in
            (Ok val_loss, w)
          else (Ok best_loss, w)
      end
  end.

(** The loop over the epochs of [main] and the evaluation on the test set;
    [trainloader e] and [validloader e] are the batches that the loaders
    yield in epoch [e]. *)
Definition initial_best_loss : Q := 1000000000.

Fixpoint epochs_loop (trainloader validloader : nat → list batch)
    (model_path : string) (epoch n : nat) (best_loss : Q) (w : world)
    : result Q * world :=
  match n with
  | O => (Ok best_loss, w)
  | S n =>
      match train (trainloader epoch) (validloader epoch) epoch true best_loss
                  model_path w with
      | (Ok best_loss, w) =>
          epochs_loop trainloader validloader model_path (S epoch) n best_loss w
      | (Raise e, w) => (Raise e, w)
      end
  end.

Definition main_loop (trainloader validloader : nat → list batch)
    (testloader : list batch) (model_path : string) (epochs : nat) (w : world)
    : result Q * world :=
  match epochs_loop trainloader validloader model_path 0 epochs
          initial_best_loss w with
  | (Ok _, w) =>
      match evaluate testloader w with
      | (Ok test_loss, w) => (Ok test_loss, log_info (log_test test_loss) w)
      | (Raise e, w) => (Raise e, w)
      end
  | (Raise e, w) => (Raise e, w)
  end.

(** The sum of a list of losses. *)
Definition sumQ (l : list Q) : Q := foldr Qplus 0%Q l.

(** The average loss that [evaluate] computes for parameters [p]. *)
Definition average_loss (p : net) (dataloader : list batch) : result Q :=
  py_div (evaluate_sums p dataloader).1 (evaluate_sums p dataloader).2.

(** ** evaluate *)

Lemma evaluate_unfold dataloader w :
  evaluate dataloader w
  = (average_loss (params w) dataloader, set_training false w).
Proof.
  unfold evaluate, average_loss. simpl.
  by destruct (evaluate_sums (params w) dataloader).
Qed.

Lemma evaluate_sums_spec p dataloader :
  ((evaluate_sums p dataloader).1 == sumQ (map (loss_item false p) dataloader))%Q
  ∧ (evaluate_sums p dataloader).2 = sum_list (map targets_size dataloader).
Proof.
  unfold evaluate_sums.
  assert (∀ acc : Q * nat,
    ((foldl (λ acc b, ((acc.1 + loss_item false p b)%Q,
                       (acc.2 + targets_size b)%nat)) acc dataloader).1
     == acc.1 + sumQ (map (loss_item false p) dataloader))%Q
    ∧ (foldl (λ acc b, ((acc.1 + loss_item false p b)%Q,
                        (acc.2 + targets_size b)%nat)) acc dataloader).2
      = (acc.2 + sum_list (map targets_size dataloader))%nat) as H.
  { induction dataloader as [|b l IH]; intros acc; simpl.
    - split; [ring|lia].
    - destruct (IH ((acc.1 + loss_item false p b)%Q,
                    (acc.2 + targets_size b)%nat)) as [-> ->].
      simpl. split; [ring|lia]. }
  destruct (H (0%Q, 0%nat)) as [H1 H2]. split; [|done].
  rewrite H1. simpl. ring.
Qed.

(** X22. [evaluate] returns the sum of the losses of the batches divided by
    the number of targets, and raises ZeroDivisionError when the loader
    yields no target; it leaves the network in evaluation mode and changes
    neither the parameters, the files nor the log. *)
Theorem evaluate_spec dataloader w :
  let total := sum_list (map targets_size dataloader) in
  (if decide (total = 0%nat)
   then (evaluate dataloader w).1 = Raise ZeroDivisionError
   else ∃ v, (evaluate dataloader w).1 = Ok v
             ∧ (v == sumQ (map (loss_item false (params w)) dataloader)
                     / inject_Z (Z.of_nat total))%Q)
  ∧ (evaluate dataloader w).2 = set_training false w.
Proof.
  intros total. rewrite evaluate_unfold. simpl. split; [|done].
  unfold average_loss, py_div.
  destruct (evaluate_sums_spec (params w) dataloader) as [H1 H2].
  fold total in H2. rewrite H2.
  destruct (decide (total = 0%nat)); [done|].
  eexists. split; [done|]. by rewrite H1.
Qed.

(** ** train *)

(** The parameters after the steps of one epoch. *)
Definition trained (p : net) (o : opt) (trainloader : list batch) : net * opt :=
  ((train_sums p o trainloader).1.1.1, (train_sums p o trainloader).1.1.2).

Definition train_total (trainloader : list batch) : nat :=
  sum_list (map targets_size trainloader).

Lemma train_sums_total p o trainloader :
  (train_sums p o trainloader).2 = train_total trainloader.
Proof.
  unfold train_sums, train_total.
  assert (∀ acc : net * opt * Q * nat,
    (foldl (λ acc b,
           let '(p, o, train_loss, train_total) := acc in
           let loss := loss_item true p b in
           let '(p, o) := step p o b in
           (p, o, (train_loss + loss)%Q, (train_total + targets_size b)%nat))
        acc trainloader).2
    = (acc.2 + sum_list (map targets_size trainloader))%nat) as H.
  { induction trainloader as [|b l IH]; intros [[[p0 o0] s0] n0]; simpl; [lia|].
    destruct (step p0 o0 b) as [p1 o1]. rewrite IH. simpl. lia. }
  by rewrite H.
Qed.

(** What [train] does, case by case. *)
Lemma train_cases trainloader validloader epoch save_best_only best_loss
    model_path w :
  let p := (trained (params w) (optimizer w) trainloader).1 in
  let o := (trained (params w) (optimizer w) trainloader).2 in
  let w1 := set_training false (set_params p o (set_training true w)) in
  match average_loss p validloader with
  | Raise e =>
      train trainloader validloader epoch save_best_only best_loss model_path w
      = (Raise e, w1)
  | Ok val_loss =>
      match py_div (train_sums (params w) (optimizer w) trainloader).1.2
                   (train_total trainloader) with
      | Raise e =>
          train trainloader validloader epoch save_best_only best_loss
            model_path w = (Raise e, w1)
      | Ok avg =>
          let w2 := log_info (log_epoch epoch avg val_loss) w1 in
          train trainloader validloader epoch save_best_only best_loss
            model_path w
          = if negb save_best_only || (save_best_only && py_lt val_loss best_loss)
            then (Ok val_loss, torch_save model_path (log_info log_saving w2))
            else (Ok best_loss, w2)
      end
  end.
Proof.
  intros p o w1. subst p o w1. unfold train, trained.
  rewrite <- train_sums_total with (p := params w) (o := optimizer w).
  cbn [params optimizer set_training].
  destruct (train_sums (params w) (optimizer w) trainloader)
    as [[[p o] s] n] eqn:Hs.
  cbn [fst snd]. rewrite evaluate_unfold. cbn [params set_params].
  destruct (average_loss p validloader) as [val|e]; [|done].
  destruct (py_div s n) as [avg|e]; [|done]. reflexivity.
Qed.

Lemma train_best_cases trainloader validloader epoch best_loss model_path
    w best' w' :
  train trainloader validloader epoch true best_loss model_path w
  = (Ok best', w') →
  ∃ val_loss,
    average_loss (params w') validloader = Ok val_loss
    ∧ ((val_loss < best_loss)%Q ∧ best' = val_loss
       ∧ files w' = <[model_path := params w']> (files w)
       ∨ (best_loss <= val_loss)%Q ∧ best' = best_loss ∧ files w' = files w).
Proof.
  pose proof (train_cases trainloader validloader epoch true best_loss
                model_path w) as H. cbv zeta in H.
  destruct (average_loss _ validloader) as [val|e] eqn:Hval;
    [|rewrite H; discriminate].
  destruct (py_div _ _) as [avg|e]; [|rewrite H; discriminate].
  rewrite H. cbn [negb orb andb]. unfold py_lt.
  destruct (Qlt_le_dec val best_loss) as [Hlt|Hle];
    intros [= <- <-]; exists val; (split; [exact Hval|]); [left|right]; done.
Qed.

(** X23. With [save_best_only], [train] returns the smaller of [best_loss]
    and the validation loss: it writes the parameters it has reached to
    [model_path] exactly when the validation loss is strictly below
    [best_loss], and leaves the files as they are otherwise. *)
Theorem train_keeps_the_best trainloader validloader epoch best_loss model_path
    w best' w' :
  train trainloader validloader epoch true best_loss model_path w
  = (Ok best', w') →
  ∃ val_loss,
    average_loss (params w') validloader = Ok val_loss
    ∧ ((val_loss < best_loss)%Q ∧ best' = val_loss
       ∧ files w' = <[model_path := params w']> (files w)
       ∨ (best_loss <= val_loss)%Q ∧ best' = best_loss ∧ files w' = files w).
Proof. apply train_best_cases. Qed.

(** X24. Without [save_best_only], [train] writes the parameters at every
    call and returns the validation loss, also when it is above
    [best_loss]. *)
Theorem train_always_saves trainloader validloader epoch best_loss model_path
    w best' w' :
  train trainloader validloader epoch false best_loss model_path w
  = (Ok best', w') →
  average_loss (params w') validloader = Ok best'
  ∧ files w' !! model_path = Some (params w').
Proof.
  pose proof (train_cases trainloader validloader epoch false best_loss
                model_path w) as H. cbv zeta in H.
  destruct (average_loss _ validloader) as [val|e] eqn:Hval;
    [|rewrite H; discriminate].
  destruct (py_div _ _) as [avg|e]; [|rewrite H; discriminate].
  rewrite H. cbn [negb orb]. intros [= <- <-]. split; [exact Hval|].
  simpl. apply lookup_insert_eq.
Qed.

(** X25. When the training loader yields no target, [train] raises
    ZeroDivisionError, after the evaluation on the validation set and
    before anything is logged or saved. *)
Theorem train_without_targets trainloader validloader epoch save_best_only
    best_loss model_path w :
  train_total trainloader = 0%nat →
  ∃ w', train trainloader validloader epoch save_best_only best_loss
          model_path w = (Raise ZeroDivisionError, w')
    ∧ training w' = false ∧ files w' = files w ∧ log w' = log w.
Proof.
  intros Hzero.
  pose proof (train_cases trainloader validloader epoch save_best_only
                best_loss model_path w) as H. cbv zeta in H.
  rewrite Hzero in H.
  assert (∀ e, average_loss
            (trained (params w) (optimizer w) trainloader).1 validloader
            = Raise e → e = ZeroDivisionError) as Hdiv.
  { unfold average_loss, py_div. intros e. by destruct (decide _); intros [=]. }
  destruct (average_loss _ validloader) as [val|e].
  - unfold py_div in H. rewrite decide_True in H by done.
    eexists. split; [exact H|done].
  - rewrite (Hdiv e eq_refl) in H. eexists. split; [exact H|done].
Qed.

(** ** The loop over the epochs *)

(** The parameters of the network and of the optimizer after [n] epochs
    that start at epoch [epoch] from [s]. *)
Fixpoint after_epochs (trainloader : nat → list batch) (epoch n : nat)
    (s : net * opt) : net * opt :=
  match n with
  | O => s
  | S n =>
      after_epochs trainloader (S epoch) n
        (trained s.1 s.2 (trainloader epoch))
  end.

Lemma train_best_state trainloader validloader epoch best_loss model_path
    w best' w' :
  train trainloader validloader epoch true best_loss model_path w
  = (Ok best', w') →
  (params w', optimizer w') = trained (params w) (optimizer w) trainloader.
Proof.
  pose proof (train_cases trainloader validloader epoch true best_loss
                model_path w) as H. cbv zeta in H.
  destruct (average_loss _ validloader) as [val|e]; [|rewrite H; discriminate].
  destruct (py_div _ _) as [avg|e]; [|rewrite H; discriminate].
  rewrite H. destruct (_ || _); intros [= _ <-]; reflexivity.
Qed.

(** The invariant of the loop: [best_loss] is a lower bound of the
    validation losses of the epochs run so far, and the file holds the
    parameters of the first epoch that reached it. *)
Lemma epochs_loop_spec trainloader validloader model_path n :
  ∀ epoch best_loss w best' w',
  epochs_loop trainloader validloader model_path epoch n best_loss w
  = (Ok best', w') →
  let P := λ i, (after_epochs trainloader epoch i (params w, optimizer w)).1 in
  let val := λ i, average_loss (P (S i)) (validloader (epoch + i)%nat) in
  params w' = P n
  ∧ (best' <= best_loss)%Q
  ∧ (∀ i, (i < n)%nat → ∃ v, val i = Ok v ∧ (best' <= v)%Q)
  ∧ (best' = best_loss ∧ files w' = files w
     ∨ ∃ i, (i < n)%nat
         ∧ files w' = <[model_path := P (S i)]> (files w)
         ∧ val i = Ok best'
         ∧ (best' < best_loss)%Q
         ∧ ∀ j, (j < i)%nat → ∃ v, val j = Ok v ∧ (best' < v)%Q).
Proof.
  induction n as [|n IH]; intros epoch best_loss w best' w' H P val;
    simpl in H.
  - injection H as <- <-. split; [done|]. split; [apply Qle_refl|].
    split; [intros i Hi; lia|by left].
  - destruct (train _ _ _ _ _ _ _) as [[b1|e1] w1] eqn:Htrain; [|discriminate].
    pose proof (train_best_state _ _ _ _ _ _ _ _ Htrain) as Hstate.
    apply train_best_cases in Htrain as (v0 & Hv0 & Hcases).
    destruct (IH _ _ _ _ _ H) as (Hp & Hle & Hlow & Hfile). clear IH H.
    rewrite Hstate in Hp, Hlow, Hfile.
    assert (params w1 = P 1%nat) as Hp1.
    { change (params w1
              = (trained (params w) (optimizer w) (trainloader epoch)).1).
      by rewrite <- Hstate. }
    rewrite Hp1 in Hv0, Hcases.
    assert (∀ i, (S epoch + i)%nat = (epoch + S i)%nat) as Hadd
      by (intros; lia).
    assert (val 0%nat = Ok v0) as Hval0.
    { subst val. cbn beta. by rewrite Nat.add_0_r. }
    assert ((best' <= v0)%Q ∧ (best' <= best_loss)%Q) as [Hlev0 Hleb].
    { destruct Hcases as [(Hlt & -> & _)|(Hge & -> & _)].
      - split; [done|]. eapply Qle_trans; [exact Hle|]. by apply Qlt_le_weak.
      - split; [|done]. by eapply Qle_trans. }
    split; [exact Hp|]. split; [done|]. split.
    { intros [|i] Hi; [eauto|].
      destruct (Hlow i ltac:(lia)) as (v & Hv & Hlev). exists v.
      split; [|done]. subst val P. cbn beta. rewrite <- Hadd. exact Hv. }
    destruct Hcases as [(Hlt & -> & Hf1)|(Hge & -> & Hf1)].
    + right. destruct Hfile as [[-> Hf]|(i & Hi & Hf & Hvi & Hlti & Hfirst)].
      * exists 0%nat. split; [lia|]. split; [by rewrite Hf, Hf1|].
        split; [done|]. split; [done|]. intros j Hj. lia.
      * exists (S i). split; [lia|]. split.
        { rewrite Hf, Hf1. by rewrite insert_insert_eq. }
        split. { subst val P. cbn beta. rewrite <- Hadd. exact Hvi. }
        split; [by eapply Qlt_trans|].
        intros [|j] Hj; [eauto|].
        destruct (Hfirst j ltac:(lia)) as (v & Hv & Hltv). exists v.
        split; [|done]. subst val P. cbn beta. rewrite <- Hadd. exact Hv.
    + destruct Hfile as [[-> Hf]|(i & Hi & Hf & Hvi & Hlti & Hfirst)].
      * left. split; [done|congruence].
      * right. exists (S i). split; [lia|]. split; [by rewrite Hf, Hf1|].
        split. { subst val P. cbn beta. rewrite <- Hadd. exact Hvi. }
        split; [done|].
        intros [|j] Hj.
        { exists v0. split; [done|]. by eapply Qlt_le_trans. }
        destruct (Hfirst j ltac:(lia)) as (v & Hv & Hltv). exists v.
        split; [|done]. subst val P. cbn beta. rewrite <- Hadd. exact Hv.
Qed.

(** X26. When [main] has run through its epochs, [best_loss] is at most
    the initial 1e9 and at most the validation loss of every epoch, where
    the validation loss of epoch [e] is that of the parameters reached at
    the end of epoch [e]. Either [best_loss] is still 1e9, no epoch had a
    validation loss below 1e9, and no file has been written; or the file at
    [model_path] holds the parameters reached at the end of the first
    epoch whose validation loss is the final [best_loss], which is below
    1e9. No other file is written. The network ends with the parameters
    after the last epoch, and the test loss that [main] logs last is
    theirs. *)
Theorem main_loop_checkpoint trainloader validloader testloader model_path
    epochs w test_loss w' :
  main_loop trainloader validloader testloader model_path epochs w
  = (Ok test_loss, w') →
  let P := λ e, (after_epochs trainloader 0 e (params w, optimizer w)).1 in
  let val := λ e, average_loss (P (S e)) (validloader e) in
  ∃ best_loss w1,
    epochs_loop trainloader validloader model_path 0 epochs
      initial_best_loss w = (Ok best_loss, w1)
    ∧ params w' = P epochs
    ∧ average_loss (P epochs) testloader = Ok test_loss
    ∧ last (log w') = Some (log_test test_loss)
    ∧ (best_loss <= initial_best_loss)%Q
    ∧ (∀ e, (e < epochs)%nat → ∃ v, val e = Ok v ∧ (best_loss <= v)%Q)
    ∧ (best_loss = initial_best_loss
       ∧ files w' = files w
       ∧ (∀ e, (e < epochs)%nat →
            ∃ v, val e = Ok v ∧ (initial_best_loss <= v)%Q)
       ∨ ∃ e, (e < epochs)%nat
           ∧ files w' = <[model_path := P (S e)]> (files w)
           ∧ val e = Ok best_loss
           ∧ (best_loss < initial_best_loss)%Q
           ∧ ∀ e', (e' < e)%nat → ∃ v, val e' = Ok v ∧ (best_loss < v)%Q).
Proof.
  intros H P val. revert H. unfold main_loop.
  destruct (epochs_loop _ _ _ _ _ _ _) as [[best|e] w1] eqn:Hloop;
    [|discriminate].
  rewrite evaluate_unfold.
  destruct (average_loss (params w1) testloader) as [t|e] eqn:Ht;
    [|discriminate].
  intros [= <- <-]. exists best, w1. split; [done|].
  destruct (epochs_loop_spec _ _ _ _ _ _ _ _ _ Hloop)
    as (Hp & Hle & Hlow & Hfile).
  cbn [params files log log_info set_training].
  split; [exact Hp|]. split; [unfold P; by rewrite <- Hp|].
  split; [apply last_snoc|]. split; [done|]. split; [exact Hlow|].
  destruct Hfile as [[-> Hf]|(e & He & Hf & Hv & Hlt & Hfirst)].
  - left. split; [done|]. split; [done|]. exact Hlow.
  - right. exists e. done.
Qed.

End Training.
End Training.

(** * The further properties on concrete inputs *)
Module MoreExamples.
Import FlatIP Examples.

(** Membership in an explicit list of names. *)
Ltac name_not_in :=
  let H := fresh in
  intros H;
  repeat (apply elem_of_cons in H as [H|H]; [discriminate H|]);
  by apply elem_of_nil in H.

Ltac names_distinct :=
  repeat (apply NoDup_cons; split; [name_not_in|]); apply NoDup_nil_2.

(** Two calibration inputs, one calibration label. *)
Definition one_label : DKNN :=
  built (DKNN_init float_sqrt net xt yt xc [0] ["fc"] 2 10).

(** Two layers. *)
Definition two_layers : DKNN :=
  built (DKNN_init float_sqrt net xt yt xc yc ["conv1"; "fc"] 2 10).

Lemma one_label_built :
  DKNN_init float_sqrt net xt yt xc [0] ["fc"] 2 10 = Ok one_label.
Proof. vm_compute. reflexivity. Qed.

Lemma two_layers_built :
  DKNN_init float_sqrt net xt yt xc yc ["conv1"; "fc"] 2 10 = Ok two_layers.
Proof. vm_compute. reflexivity. Qed.

Definition query_votes : ndarray2 :=
  {| nd_cols := 10; nd_rows := [[0; 1; 1; 0; 0; 0; 0; 0; 0; 0]] |}.

Lemma classify_counts_neighbours_witness :
  ∃ nb Ys,
    (get_neighbors float_sqrt query None None demo).1 = Ok nb
    ∧ neighbour_labels (y_train demo) nb = Ok Ys
    ∧ ∀ i row c v, nd_rows query_votes !! i = Some row → row !! c = Some v →
        v = neighbours_with_label Ys i (Z.of_nat c).
Proof.
  apply (classify_counts_neighbours float_sqrt query demo query_votes).
  vm_compute. reflexivity.
Defined.

Lemma vote_cells_bounded_witness :
  Forall (λ row, length row = 10%nat
                 ∧ Forall (λ v, 0 ≤ v ≤ Z.of_nat 2 * Z.of_nat (length ["fc"])) row)
         (nd_rows query_votes).
Proof.
  apply (vote_cells_bounded float_sqrt net xt yt xc yc ["fc"] 2 10 demo ∅ query
           query_votes).
  - apply demo_built.
  - vm_compute. reflexivity.
Defined.

Lemma nonconformity_bounded_witness :
  Forall (λ a, 0 ≤ a ≤ Z.of_nat 2 * Z.of_nat (length ["fc"])) (A demo).
Proof.
  apply (nonconformity_bounded float_sqrt net xt yt xc yc ["fc"] 2 10 demo).
  apply demo_built.
Defined.

Lemma unlabelled_calibration_inputs_witness :
  A one_label !! 1%nat = Some (Z.of_nat 2 * Z.of_nat (length ["fc"])).
Proof.
  apply (unlabelled_calibration_inputs float_sqrt net xt yt xc [0] ["fc"] 2 10
           one_label 1).
  - apply one_label_built.
  - simpl. lia.
Defined.

Lemma calibration_labels_in_range_witness : - Z.of_nat 10 ≤ 1 < Z.of_nat 10.
Proof.
  apply (calibration_labels_in_range float_sqrt net xt yt xc yc ["fc"] 2 10
           demo 1 1).
  - apply demo_built.
  - reflexivity.
  - simpl. lia.
Defined.

Lemma unanimous_vote_credibility_witness :
  ∃ creds,
    (credibility {| nd_cols := 2; nd_rows := [[2; 0]; [1; 1]] |}
       (set_activations demo ∅)).1 = Ok creds
    ∧ ∀ i mx c, [2; 1] !! i = Some mx → creds !! i = Some c →
        Z.of_nat 2 * Z.of_nat (length ["fc"]) ≤ mx → np_eq c (Finite 1).
Proof.
  apply (unanimous_vote_credibility float_sqrt net xt yt xc yc ["fc"] 2 10 demo
           ∅ {| nd_cols := 2; nd_rows := [[2; 0]; [1; 1]] |} [2; 1]).
  - apply demo_built.
  - discriminate.
  - reflexivity.
Defined.

Definition history : list call :=
  [call_classify xc; call_get_neighbors query (Some 3%nat) None;
   call_credibility query_votes].

Lemma results_independent_of_history_witness :
  (get_neighbors float_sqrt query None None (run_calls float_sqrt history demo)).1
  = (get_neighbors float_sqrt query None None demo).1
  ∧ (classify float_sqrt query (run_calls float_sqrt history demo)).1
    = (classify float_sqrt query demo).1
  ∧ (credibility query_votes (run_calls float_sqrt history demo)).1
    = (credibility query_votes demo).1.
Proof.
  apply (results_independent_of_history float_sqrt net xt yt xc yc ["fc"] 2 10
           demo history query None None query_votes).
  apply demo_built.
Defined.

Lemma get_neighbors_on_requested_layers_witness :
  (get_neighbors float_sqrt query None (Some ["fc"; "other"]) two_layers).1
  = Ok (snd <$> filter (λ p, p.1 ∈ ["fc"; "other"])
          (zip (layers two_layers)
             (built_neighbors
                (get_neighbors float_sqrt query None None two_layers).1))).
Proof.
  apply (get_neighbors_on_requested_layers float_sqrt two_layers query None
           ["fc"; "other"]).
  vm_compute. reflexivity.
Defined.

Lemma empty_batch_raises_witness :
  (get_neighbors float_sqrt [] (Some 3%nat) (Some ["fc"]) demo).1
  = Raise RuntimeError
  ∧ (classify float_sqrt [] demo).1 = Raise RuntimeError
  ∧ xt ≠ [] ∧ xc ≠ [] ∧ length (A demo) = length xc ∧ A demo ≠ [].
Proof.
  destruct (empty_batch_raises float_sqrt demo (Some 3%nat) (Some ["fc"])
              net xt yt xc yc ["fc"] 2 10) as (H1 & H2 & H3).
  split; [exact H1|]. split; [exact H2|]. apply (H3 demo).
  vm_compute. reflexivity.
Defined.

Lemma net_children_distinct : NoDup (named_children net).
Proof.
  simpl. names_distinct.
Qed.

Lemma bad_layer_names_fail_witness :
  DKNN_init float_sqrt net xt yt xc yc ["fc"; "other"] 2 10
  = Raise AssertionError.
Proof.
  apply (bad_layer_names_fail float_sqrt net xt yt xc yc ["fc"; "other"] 2 10).
  - apply net_children_distinct.
  - right. exists "other". split; [repeat constructor|]. simpl. name_not_in.
Defined.

Lemma empty_training_set_fails_witness :
  ∃ e, DKNN_init float_sqrt net [] [] xc yc ["fc"] 2 10 = Raise e
       ∧ e ∈ [AssertionError; KeyError; RuntimeError].
Proof.
  apply (empty_training_set_fails float_sqrt net [] xc yc ["fc"] 2 10).
  discriminate.
Defined.

Lemma constructed_indices_witness :
  indices demo
  = map (λ l, index_add
                (IndexLSH (size_last (renorm float_sqrt (map (forward net l) xt)))
                          256)
                (renorm float_sqrt (map (forward net l) xt))) ["fc"].
Proof.
  apply (constructed_indices float_sqrt net xt yt xc yc ["fc"] 2 10 demo).
  apply demo_built.
Defined.

Lemma get_neighbors_searches_each_layer_witness :
  (get_neighbors float_sqrt query (Some 3%nat) None (set_activations demo ∅)).1
  = Ok (map (λ l, index_search
                    (_build_index (renorm float_sqrt (map (forward net l) xt)))
                    (renorm float_sqrt (map (forward net l) query))
                    (default 2%nat (Some 3%nat))) ["fc"]).
Proof.
  apply (get_neighbors_searches_each_layer float_sqrt net xt yt xc yc ["fc"] 2
           10 demo ∅ query (Some 3%nat)).
  - apply demo_built.
  - discriminate.
Defined.

Lemma constructor_succeeds_witness :
  ∃ st, DKNN_init float_sqrt net xt yt xc yc ["conv1"; "fc"] 2 10 = Ok st.
Proof.
  apply (constructor_succeeds float_sqrt net xt yt xc yc ["conv1"; "fc"] 2).
  - apply net_children_distinct.
  - names_distinct.
  - intros l Hl. simpl.
    repeat (apply elem_of_cons in Hl as [->|Hl]; [repeat constructor|]).
    by apply elem_of_nil in Hl.
  - discriminate.
  - discriminate.
  - reflexivity.
  - repeat constructor; lia.
  - repeat constructor; lia.
Defined.

Lemma classify_succeeds_witness :
  ∃ votes, (classify float_sqrt query (set_activations demo ∅)).1 = Ok votes
    ∧ nd_cols votes = 10%nat ∧ length (nd_rows votes) = length query.
Proof.
  apply (classify_succeeds float_sqrt net xt yt xc yc ["fc"] 2 demo ∅ query).
  - apply demo_built.
  - discriminate.
  - reflexivity.
  - repeat constructor; lia.
Defined.

(** ** Hidden mixup *)

Import Mixup.

Definition q (n : Z) : Qc := Q2Qc (inject_Z n).

(** The draws: layer 2, coefficient 1/3, the reversed order. *)
Definition some_draws : draws :=
  mk_draws 2 (Q2Qc (1 # 3)) (λ n, reverse (seq 0 n)).

Lemma some_draws_valid : valid_draws some_draws.
Proof. split; [simpl; lia|]. intros n. apply reverse_Permutation. Qed.

(** A network whose convolutions double every feature and whose last
    layer sums the features. *)
Definition doubling : batch → batch := map (map (λ a, a + a)%Qc).
Definition summing : batch → batch := map (λ s, [foldr Qcplus (q 0) s]).

Definition small_net : modules :=
  mk_modules doubling id doubling id doubling id summing.

Lemma keeps_batch_map (g : sample → sample) (h : nat → nat) :
  (∀ s, length (g s) = h (length s)) → keeps_batch (map g).
Proof.
  intros Hg x d Hd. split; [by rewrite length_map|].
  exists (h d). apply Forall_map. eapply Forall_impl; [exact Hd|].
  simpl. intros s <-. apply Hg.
Qed.

Lemma keeps_batch_id : keeps_batch id.
Proof. intros x d Hd. split; [done|eauto]. Qed.

Lemma small_net_well_shaped : well_shaped small_net.
Proof.
  assert (keeps_batch doubling).
  { apply (keeps_batch_map _ id). intros s. by rewrite length_map. }
  assert (keeps_batch summing) by (by apply (keeps_batch_map _ (λ _, 1%nat))).
  pose proof keeps_batch_id. unfold well_shaped. simpl. tauto.
Qed.

Definition images : batch := [[q 1; q 2]; [q 3; q 4]; [q 5; q 6]].
Definition targets : list Z := [0; 1; 2].

Lemma images_rectangular : rectangular 2 images.
Proof. by repeat constructor. Qed.

Lemma some_draws_permutation :
  randperm some_draws (length images) ≡ₚ seq 0 (length images).
Proof. apply some_draws_valid. Qed.

Lemma mixup_data_returns_witness :
  ∃ mixed_x y_b,
    mixup_data some_draws images (Some targets) (q 1)
    = Ok (mixed_x, targets, y_b,
          if Qclt_le_dec 0 (q 1) then beta some_draws else 1%Qc)
    ∧ length mixed_x = length images
    ∧ y_b ≡ₚ targets.
Proof.
  apply (mixup_data_returns some_draws images targets (q 1)).
  - apply some_draws_permutation.
  - reflexivity.
Defined.

Lemma q_nonpositive : (q 0 <= 0)%Qc.
Proof. unfold Qcle. simpl. apply Qle_refl. Qed.

Lemma mixup_data_off_witness :
  ∃ y_b, mixup_data some_draws images (Some targets) (q 0)
         = Ok (images, targets, y_b, 1%Qc).
Proof.
  apply (mixup_data_off some_draws 2 images targets (q 0)).
  - apply some_draws_permutation.
  - apply images_rectangular.
  - reflexivity.
  - apply q_nonpositive.
Defined.

Lemma forward_layer_mix_out_of_range_witness :
  forward small_net some_draws images (Some targets) true (q 1) (Some 5)
  = if decide (length (relu3 small_net (conv3 small_net (relu2 small_net
                 (conv2 small_net (relu1 small_net (conv1 small_net images))))))
               = 0%nat)
    then Raise RuntimeError else Raise UnboundLocalError.
Proof.
  apply (forward_layer_mix_out_of_range small_net some_draws images
           (Some targets) (q 1) 5).
  right. lia.
Defined.

Lemma layer_mix_absent : ∀ l : Z, @None Z = Some l → 0 ≤ l ≤ 4.
Proof. intros l H. discriminate H. Qed.

Lemma forward_mixup_returns_witness :
  ∃ logits y_b,
    forward small_net some_draws images (Some targets) true (q 1) None
    = Ok (Mixed logits targets y_b
            (if Qclt_le_dec 0 (q 1) then beta some_draws else 1%Qc))
    ∧ y_b ≡ₚ targets.
Proof.
  apply (forward_mixup_returns small_net some_draws 2 images targets (q 1) None).
  - apply small_net_well_shaped.
  - apply some_draws_valid.
  - apply images_rectangular.
  - discriminate.
  - reflexivity.
  - apply layer_mix_absent.
Defined.

Lemma forward_mixup_off_witness :
  ∃ logits y_b,
    forward small_net some_draws images (Some targets) false (q 0) None
    = Ok (Logits logits)
    ∧ forward small_net some_draws images (Some targets) true (q 0) None
      = Ok (Mixed logits targets y_b 1%Qc)
    ∧ loss_function (λ _ _, q 7) logits targets y_b 1%Qc = q 7.
Proof.
  apply (forward_mixup_off small_net some_draws 2 images targets (q 0) None
           (λ _ _, q 7)).
  - apply small_net_well_shaped.
  - apply some_draws_valid.
  - apply images_rectangular.
  - discriminate.
  - reflexivity.
  - apply layer_mix_absent.
  - apply q_nonpositive.
Defined.

Lemma forward_mixup_without_target_witness :
  forward small_net some_draws images None true (q 1) None = Raise TypeError.
Proof.
  apply (forward_mixup_without_target small_net some_draws 2 images (q 1) None).
  - apply small_net_well_shaped.
  - apply some_draws_valid.
  - apply images_rectangular.
  - discriminate.
  - apply layer_mix_absent.
Defined.

(** ** The training script *)

Import Training.

(** A network of one parameter [p]; a batch is a target value and a number
    of targets; the loss of a batch is the squared distance of [p] to its
    value, and a step moves [p] half the way to the value. *)
Definition toy_batch : Type := Q * nat.
Definition toy_loss (mode : bool) (p : Q) (b : toy_batch) : Q :=
  ((p - b.1) * (p - b.1))%Q.
Definition toy_step (p : Q) (o : unit) (b : toy_batch) : Q * unit :=
  (((p + b.1) / 2)%Q, o).

Definition toy_world : world Q unit := mk_world Q unit 8%Q tt false ∅ [].
Definition toy_trainloader (epoch : nat) : list toy_batch := [(0%Q, 2%nat); (0%Q, 2%nat)].
Definition toy_validloader (epoch : nat) : list toy_batch := [(0%Q, 4%nat)].
Definition toy_testloader : list toy_batch := [(1%Q, 2%nat)].

Definition toy_train (save_best_only : bool) (best_loss : Q)
    : result Q * world Q unit :=
  train Q unit toy_batch snd toy_loss toy_step (toy_trainloader 0)
    (toy_validloader 0) 0 save_best_only best_loss "model.pt" toy_world.

Definition toy_main : result Q * world Q unit :=
  main_loop Q unit toy_batch snd toy_loss toy_step toy_trainloader
    toy_validloader toy_testloader "model.pt" 3 toy_world.

Definition returned (r : result Q) : Q :=
  match r with Ok v => v | Raise _ => 0%Q end.

Lemma train_keeps_the_best_witness :
  ∃ val_loss,
    average_loss Q toy_batch snd toy_loss (params Q unit (toy_train true 100).2)
      (toy_validloader 0) = Ok val_loss
    ∧ ((val_loss < 100)%Q ∧ returned (toy_train true 100).1 = val_loss
       ∧ files Q unit (toy_train true 100).2
         = <["model.pt" := params Q unit (toy_train true 100).2]>
             (files Q unit toy_world)
       ∨ (100 <= val_loss)%Q ∧ returned (toy_train true 100).1 = 100%Q
         ∧ files Q unit (toy_train true 100).2 = files Q unit toy_world).
Proof.
  apply (train_keeps_the_best Q unit toy_batch snd toy_loss toy_step
           (toy_trainloader 0) (toy_validloader 0) 0 100 "model.pt" toy_world).
  vm_compute. reflexivity.
Defined.

Lemma train_always_saves_witness :
  average_loss Q toy_batch snd toy_loss (params Q unit (toy_train false 0).2)
    (toy_validloader 0) = Ok (returned (toy_train false 0).1)
  ∧ files Q unit (toy_train false 0).2 !! "model.pt"
    = Some (params Q unit (toy_train false 0).2).
Proof.
  apply (train_always_saves Q unit toy_batch snd toy_loss toy_step
           (toy_trainloader 0) (toy_validloader 0) 0 0 "model.pt" toy_world).
  vm_compute. reflexivity.
Defined.

Lemma train_without_targets_witness :
  ∃ w', train Q unit toy_batch snd toy_loss toy_step [] (toy_validloader 0) 0
          true 100 "model.pt" toy_world = (Raise ZeroDivisionError, w')
    ∧ training Q unit w' = false
    ∧ files Q unit w' = files Q unit toy_world
    ∧ log Q unit w' = log Q unit toy_world.
Proof.
  apply (train_without_targets Q unit toy_batch snd toy_loss toy_step []
           (toy_validloader 0) 0 true 100 "model.pt" toy_world).
  reflexivity.
Defined.

Lemma main_loop_checkpoint_witness :
  let P := λ e,
    (after_epochs Q unit toy_batch snd toy_loss toy_step toy_trainloader 0 e
       (params Q unit toy_world, optimizer Q unit toy_world)).1 in
  let val := λ e,
    average_loss Q toy_batch snd toy_loss (P (S e)) (toy_validloader e) in
  ∃ best_loss w1,
    epochs_loop Q unit toy_batch snd toy_loss toy_step toy_trainloader
      toy_validloader "model.pt" 0 3 initial_best_loss toy_world
    = (Ok best_loss, w1)
    ∧ params Q unit toy_main.2 = P 3%nat
    ∧ average_loss Q toy_batch snd toy_loss (P 3%nat) toy_testloader
      = Ok (returned toy_main.1)
    ∧ last (log Q unit toy_main.2) = Some (log_test (returned toy_main.1))
    ∧ (best_loss <= initial_best_loss)%Q
    ∧ (∀ e, (e < 3)%nat → ∃ v, val e = Ok v ∧ (best_loss <= v)%Q)
    ∧ (best_loss = initial_best_loss
       ∧ files Q unit toy_main.2 = files Q unit toy_world
       ∧ (∀ e, (e < 3)%nat →
            ∃ v, val e = Ok v ∧ (initial_best_loss <= v)%Q)
       ∨ ∃ e, (e < 3)%nat
           ∧ files Q unit toy_main.2
             = <["model.pt" := P (S e)]> (files Q unit toy_world)
           ∧ val e = Ok best_loss
           ∧ (best_loss < initial_best_loss)%Q
           ∧ ∀ e', (e' < e)%nat → ∃ v, val e' = Ok v ∧ (best_loss < v)%Q).
Proof.
  apply (main_loop_checkpoint Q unit toy_batch snd toy_loss toy_step
           toy_trainloader toy_validloader toy_testloader "model.pt" 3
           toy_world (returned toy_main.1) toy_main.2).
  vm_compute. reflexivity.
Defined.

End MoreExamples.
